(** * Panchayat election and festival planner: a shallow embedding

    The two JavaScript modules of the repository are embedded as Rocq
    functions over an explicit model of the JavaScript values they inspect.
    The definitions come first:

    - [JS]        : numbers, values, [typeof], truthiness, the operators the
                    program uses, plain objects used as maps (own properties
                    in enumeration order, with the members inherited from
                    [Object.prototype]), [Set]s, [sort] and [slice].
    - [Regions]   : [countVotesInRegions].
    - [Tally]     : [tallyPure].
    - [Validator] : [createVoteValidator].
    - [Election]  : [createElection] and its four methods, as functions of
                    the private state.
    - [Festival]  : [createFestivalManager] and its methods, likewise.

    The properties follow, one section per component.

    Conventions of the model.
    - A finite number is an integer [Fin z]; [NaN] and the two infinities are
      values of their own.  Fractions are not represented.  A sum is rounded
      to the nearest double as the machine does ([double_add]); the counts
      of an election alone, which go up by one per voter who votes, are
      summed as integers ([num_add]), which is the same below 2^53.
    - [sort] with a comparator is represented where the language determines
      its result: for a comparator that is consistent on the elements.
    - Strings are sequences of code units below 256.
    - Objects carry data properties only (no getters, no proxies); an object
      or array value is a snapshot together with the identity [ref] that
      [Set] membership compares.
    - An argument that the program tests before use ([voter], [rules],
      [regionTree], [currentTally], [name], [date], ...) is an arbitrary
      value.  An argument it uses as it comes has the type of its use: a
      candidate id looked up in an object is its property key, a string; a
      count [n] is a number; a handler or comparator is a Rocq function, or
      absent.
    - Where a conversion of the language is not represented (the string of a
      user object, the number of an arbitrary string, ...), the embedded
      function returns [None]; everything proved of a result [Some r] is a
      fact of the code. *)

From Stdlib Require Import ZArith NArith List String Ascii Bool Lia.
From Stdlib Require Import Permutation Sorted DecimalString.
Import ListNotations.

Local Open Scope string_scope.
Local Open Scope Z_scope.
Local Open Scope list_scope.

Declare Scope opt_scope.
Notation "x <- e ;; k" :=
  (match e with Some x => k | None => None end)
  (at level 61, e at next level, right associativity) : opt_scope.
Local Open Scope opt_scope.

(* ===================================================================== *)
(** * The JavaScript values the program inspects *)
(* ===================================================================== *)

Module JS.

(** ** Numbers *)

Inductive number : Type :=
| NaN
| Inf (negative : bool)
| Fin (z : Z).

Definition num_neg (a : number) : number :=
  match a with
  | NaN => NaN
  | Inf s => Inf (negb s)
  | Fin z => Fin (- z)
  end.

(** The sum of two numbers, the finite ones taken as the integers they
    are.  This is the sum of the machine as long as the operands and the
    result are at most 2^53 in magnitude; it is used on the counts of an
    election, which go up by one per voter who votes.  [double_add] below
    is the sum as the machine rounds it. *)
Definition num_add (a b : number) : number :=
  match a, b with
  | NaN, _ | _, NaN => NaN
  | Inf s, Inf t => if Bool.eqb s t then Inf s else NaN
  | Inf s, Fin _ => Inf s
  | Fin _, Inf t => Inf t
  | Fin x, Fin y => Fin (x + y)
  end.

Definition num_sub (a b : number) : number := num_add a (num_neg b).

(** A number is a double.  The integers up to 2^53 in magnitude are all
    doubles; a larger double is q * 2^e with 2^52 <= q < 2^53; from 2^1024
    on there is only the infinity. *)
Definition two_53 : Z := 9007199254740992.

(** The double nearest to an integer, a tie going to the even significand
    and an overflow to the infinity of the sign. *)
Definition round_double (z : Z) : number :=
  let a := Z.abs z in
  if Z.leb a two_53 then Fin z
  else
    let e := Z.log2 a - 52 in
    let q := a / 2 ^ e in
    let r := a mod 2 ^ e in
    let up := (Z.ltb (2 ^ (e - 1)) r || (Z.eqb r (2 ^ (e - 1)) && Z.odd q))%bool in
    let m := (if up then q + 1 else q) * 2 ^ e in
    if Z.leb (2 ^ 1024) m then Inf (Z.ltb z 0) else Fin (Z.sgn z * m).

(** [a + b] on two numbers: the exact sum, rounded to the nearest double. *)
Definition double_add (a b : number) : number :=
  match a, b with
  | Fin x, Fin y => round_double (x + y)
  | _, _ => num_add a b
  end.

(** [a < b] on numbers: false as soon as one side is [NaN]. *)
Definition num_ltb (a b : number) : bool :=
  match a, b with
  | NaN, _ | _, NaN => false
  | Inf s, Inf t => s && negb t
  | Inf s, Fin _ => s
  | Fin _, Inf t => negb t
  | Fin x, Fin y => Z.ltb x y
  end.

(** [a >= b] on numbers: false as soon as one side is [NaN]. *)
Definition num_geb (a b : number) : bool :=
  match a, b with
  | NaN, _ | _, NaN => false
  | _, _ => negb (num_ltb a b)
  end.

(** [a === b] on numbers. *)
Definition num_strict_eqb (a b : number) : bool :=
  match a, b with
  | Inf s, Inf t => Bool.eqb s t
  | Fin x, Fin y => Z.eqb x y
  | _, _ => false
  end.

(** SameValueZero on numbers: as [===], but [NaN] equals itself. *)
Definition num_same (a b : number) : bool :=
  match a, b with
  | NaN, NaN => true
  | _, _ => num_strict_eqb a b
  end.

Definition is_nan (a : number) : bool :=
  match a with NaN => true | _ => false end.

Definition num_truthy (a : number) : bool :=
  match a with
  | NaN => false
  | Inf _ => true
  | Fin z => negb (Z.eqb z 0)
  end.

(** ** Values *)

Definition ref := N.

#[warnings="-register-all"]
Inductive value : Type :=
| VUndefined
| VNull
| VBool (b : bool)
| VNum (n : number)
| VStr (s : string)
| VObj (r : ref) (props : list (string * value))  (* plain object, own properties in enumeration order *)
| VArr (r : ref) (elems : list value)             (* array *)
| VFun (r : ref)                                  (* a function of the caller *)
| VNative (name : string)                         (* the built-in function found at Object.prototype.<name> *)
| VObjectPrototype.                               (* Object.prototype itself, what reading __proto__ gives *)

Definition props := list (string * value).

Definition typeof (v : value) : string :=
  match v with
  | VUndefined => "undefined"
  | VNull => "object"
  | VBool _ => "boolean"
  | VNum _ => "number"
  | VStr _ => "string"
  | VObj _ _ | VArr _ _ | VObjectPrototype => "object"
  | VFun _ | VNative _ => "function"
  end.

(** ToBoolean. *)
Definition truthy (v : value) : bool :=
  match v with
  | VUndefined | VNull => false
  | VBool b => b
  | VNum n => num_truthy n
  | VStr s => negb (String.eqb s "")
  | _ => true
  end.

Definition isArray (v : value) : bool :=
  match v with VArr _ _ => true | _ => false end.

(** [a || b] and [a ?? b]. *)
Definition js_or (a b : value) : value := if truthy a then a else b.

Definition nullish (a b : value) : value :=
  match a with VUndefined | VNull => b | _ => a end.

(** SameValueZero, the equality of [Set.prototype.has]: primitives by value,
    objects by identity. *)
Definition same_value_zero (a b : value) : bool :=
  match a, b with
  | VUndefined, VUndefined => true
  | VNull, VNull => true
  | VBool x, VBool y => Bool.eqb x y
  | VNum x, VNum y => num_same x y
  | VStr x, VStr y => String.eqb x y
  | VObj r _, VObj r' _ => N.eqb r r'
  | VArr r _, VArr r' _ => N.eqb r r'
  | VFun r, VFun r' => N.eqb r r'
  | VNative x, VNative y => String.eqb x y
  | VObjectPrototype, VObjectPrototype => true
  | _, _ => false
  end.

(** ** Sets, in insertion order *)

Definition set_has (s : list value) (v : value) : bool :=
  existsb (same_value_zero v) s.

Definition set_add (s : list value) (v : value) : list value :=
  if set_has s v then s else s ++ [v].

(** ** Strings *)

(** [a >= b] on two strings: the order of the code units. *)
Definition str_geb (a b : string) : bool := negb (String.ltb a b).

Definition is_digit (c : ascii) : bool :=
  let n := N_of_ascii c in (N.leb 48 n && N.leb n 57)%bool.

Definition digit_val (c : ascii) : N := (N_of_ascii c - 48)%N.

Fixpoint all_digits (s : string) : bool :=
  match s with
  | EmptyString => true
  | String c s' => is_digit c && all_digits s'
  end.

Fixpoint digits_val (acc : N) (s : string) : N :=
  match s with
  | EmptyString => acc
  | String c s' => digits_val (10 * acc + digit_val c)%N s'
  end.

(** An array index is the canonical decimal string of an integer below
    2^32 - 1: such keys are enumerated first, in ascending numeric order. *)
Definition array_index (k : string) : option N :=
  match k with
  | EmptyString => None
  | String c rest =>
      if (all_digits k && (negb (Ascii.eqb c "0") || String.eqb rest ""))%bool
      then
        if N.ltb (digits_val 0 k) 4294967295 then Some (digits_val 0 k) else None
      else None
  end.

(** The decimal string of a natural number and of an integer. *)
Definition nat_to_string (n : nat) : string :=
  NilZero.string_of_uint (Nat.to_uint n).

Definition int_to_string (z : Z) : string :=
  NilZero.string_of_int (Z.to_int z).

(** Number::toString, for the numbers whose string is their plain decimal
    writing: integers up to 2^53 in absolute value. *)
Definition number_to_string (n : number) : option string :=
  match n with
  | NaN => Some "NaN"%string
  | Inf false => Some "Infinity"%string
  | Inf true => Some "-Infinity"%string
  | Fin z => if Z.leb (Z.abs z) 9007199254740992 then Some (int_to_string z) else None
  end.

(** ** Members inherited from Object.prototype *)

Definition object_prototype_functions : list string :=
  [ "constructor"; "__defineGetter__"; "__defineSetter__"; "hasOwnProperty";
    "__lookupGetter__"; "__lookupSetter__"; "isPrototypeOf";
    "propertyIsEnumerable"; "toString"; "valueOf"; "toLocaleString" ]%string.

Definition str_mem (k : string) (l : list string) : bool :=
  existsb (String.eqb k) l.

(** What [o[k]] finds on [Object.prototype] when [o] has no own [k]. *)
Definition object_prototype (k : string) : option value :=
  if String.eqb k "__proto__" then Some VObjectPrototype
  else if str_mem k object_prototype_functions then Some (VNative k)
  else None.

(** Function.prototype.toString of a built-in. *)
Definition native_source (name : string) : string :=
  String.append "function "
    (String.append (if String.eqb name "constructor" then "Object" else name)
                   "() { [native code] }").

(** ToPrimitive, for the values whose primitive does not depend on user code. *)
Definition to_primitive (v : value) : option value :=
  match v with
  | VObj _ _ | VArr _ _ | VFun _ => None
  | VNative k => Some (VStr (native_source k))
  | VObjectPrototype => Some (VStr "[object Object]")
  | _ => Some v
  end.

(** A character that no numeric literal contains: a string with one is
    [NaN] as a number. *)
Definition never_numeric (c : ascii) : bool :=
  let n := N_of_ascii c in
  (N.ltb n 128 &&
   negb (is_digit c
         || existsb (Ascii.eqb c)
              (list_ascii_of_string
                 (String "009" (String "010" (String "011" (String "012"
                    (String "013" " +-.eExXoObBaAcCdDfFIinty"))))))))%bool.

Fixpoint has_never_numeric (s : string) : bool :=
  match s with
  | EmptyString => false
  | String c s' => never_numeric c || has_never_numeric s'
  end.

(** ToNumber of a string, where it is certain. *)
Definition string_to_number (s : string) : option number :=
  if has_never_numeric s then Some NaN else None.

(** ToNumber of a primitive. *)
Definition prim_to_number (v : value) : option number :=
  match v with
  | VUndefined => Some NaN
  | VNull => Some (Fin 0)
  | VBool b => Some (Fin (if b then 1 else 0))
  | VNum n => Some n
  | VStr s => string_to_number s
  | _ => None
  end.

Definition to_number (v : value) : option number :=
  p <- to_primitive v ;; prim_to_number p.

(** ToString of a primitive. *)
Definition prim_to_string (v : value) : option string :=
  match v with
  | VUndefined => Some "undefined"%string
  | VNull => Some "null"%string
  | VBool b => Some (if b then "true" else "false")%string
  | VNum n => number_to_string n
  | VStr s => Some s
  | _ => None
  end.

Definition is_string (v : value) : bool :=
  match v with VStr _ => true | _ => false end.

(** [a + b], two finite numbers summed as the integers they are: see
    [num_add]. *)
Definition js_add (a b : value) : option value :=
  pa <- to_primitive a ;;
  pb <- to_primitive b ;;
  if (is_string pa || is_string pb)%bool then
    sa <- prim_to_string pa ;;
    sb <- prim_to_string pb ;;
    Some (VStr (String.append sa sb))
  else
    na <- prim_to_number pa ;;
    nb <- prim_to_number pb ;;
    Some (VNum (num_add na nb)).

(** [a + b], the sum of two numbers rounded as the machine does. *)
Definition js_add_double (a b : value) : option value :=
  pa <- to_primitive a ;;
  pb <- to_primitive b ;;
  if (is_string pa || is_string pb)%bool then
    sa <- prim_to_string pa ;;
    sb <- prim_to_string pb ;;
    Some (VStr (String.append sa sb))
  else
    na <- prim_to_number pa ;;
    nb <- prim_to_number pb ;;
    Some (VNum (double_add na nb)).

(** [a - b]. *)
Definition js_sub (a b : value) : option number :=
  na <- to_number a ;;
  nb <- to_number b ;;
  Some (num_sub na nb).

(** [a < b]; [a > b] is [js_lt b a]. *)
Definition js_lt (a b : value) : option bool :=
  pa <- to_primitive a ;;
  pb <- to_primitive b ;;
  match pa, pb with
  | VStr x, VStr y => Some (String.ltb x y)
  | _, _ =>
      na <- prim_to_number pa ;;
      nb <- prim_to_number pb ;;
      Some (num_ltb na nb)
  end.

(** The key a value becomes when used as a property name. *)
Definition to_property_key (v : value) : option string :=
  match v with VStr s => Some s | _ => None end.

(** ** Plain objects used as maps *)

(** Own enumerable properties, kept in the order [for ... in] visits them. *)
Definition jsobj (A : Type) := list (string * A).

Fixpoint own_get {A} (o : jsobj A) (k : string) : option A :=
  match o with
  | [] => None
  | (k', a) :: o' => if String.eqb k k' then Some a else own_get o' k
  end.

Definition keys {A} (o : jsobj A) : list string := map fst o.

(** The three outcomes of reading [o[k]]. *)
Inductive read (A : Type) : Type :=
| Own (a : A)
| Inherited (v : value)
| Missing.
Arguments Own {A} a.
Arguments Inherited {A} v.
Arguments Missing {A}.

Definition obj_get {A} (o : jsobj A) (k : string) : read A :=
  match own_get o k with
  | Some a => Own a
  | None =>
      match object_prototype k with
      | Some v => Inherited v
      | None => Missing
      end
  end.

(** Reading a map of values gives a value. *)
Definition read_value (r : read value) : value :=
  match r with
  | Own v => v
  | Inherited v => v
  | Missing => VUndefined
  end.

(** Does a new key [k] come before the existing key [k'] in enumeration? *)
Definition key_before (k k' : string) : bool :=
  match array_index k, array_index k' with
  | Some i, Some j => N.ltb i j
  | Some _, None => true
  | None, _ => false
  end.

Fixpoint insert_new {A} (k : string) (a : A) (o : jsobj A) : jsobj A :=
  match o with
  | [] => [(k, a)]
  | (k', a') :: o' =>
      if key_before k k' then (k, a) :: o else (k', a') :: insert_new k a o'
  end.

Fixpoint replace_own {A} (k : string) (a : A) (o : jsobj A) : jsobj A :=
  match o with
  | [] => []
  | (k', a') :: o' =>
      if String.eqb k k' then (k', a) :: o' else (k', a') :: replace_own k a o'
  end.

(** The assignment [o[k] = a].  An own property is overwritten; a new key
    is created, also over a member of [Object.prototype], except
    [__proto__], whose setter ignores whatever is not an object and
    otherwise changes the prototype of [o] (not represented: [None]). *)
Definition obj_set {A} (is_object : A -> bool) (o : jsobj A) (k : string) (a : A)
  : option (jsobj A) :=
  match own_get o k with
  | Some _ => Some (replace_own k a o)
  | None =>
      if String.eqb k "__proto__"
      then if is_object a then None else Some o
      else Some (insert_new k a o)
  end.

(** The values the [__proto__] setter accepts: objects, functions, [null]. *)
Definition object_or_null (v : value) : bool :=
  String.eqb (typeof v) "object" || String.eqb (typeof v) "function".

Definition is_some {A} (o : option A) : bool :=
  match o with Some _ => true | None => false end.

(** The enumeration order, on keys alone. *)
Fixpoint insert_key (k : string) (ks : list string) : list string :=
  match ks with
  | [] => [k]
  | k' :: ks' => if key_before k k' then k :: ks else k' :: insert_key k ks'
  end.

Definition is_index (k : string) : bool := is_some (array_index k).

Definition index_le (k k' : string) : Prop :=
  match array_index k, array_index k' with
  | Some i, Some j => (i <= j)%N
  | _, _ => False
  end.

(** A list without its repetitions, each element where it first occurs. *)
Fixpoint first_occurrences (l : list string) : list string :=
  match l with
  | [] => []
  | x :: l' => x :: filter (fun y => negb (String.eqb x y)) (first_occurrences l')
  end.

(** [ks] is the order in which [for ... in] visits an object whose keys
    were created in the order [ids]: the array indices first, in ascending
    numeric order, then the other keys in the order of their creation. *)
Definition enumeration_of (ids ks : list string) : Prop :=
  exists idx strs,
    ks = idx ++ strs
    /\ Permutation idx (first_occurrences (filter is_index ids))
    /\ StronglySorted index_le idx
    /\ strs = first_occurrences (filter (fun k => negb (is_index k)) ids).

(** The own enumerable properties an object spread [{...v}] copies. *)
Fixpoint index_props (i : nat) (l : list value) : props :=
  match l with
  | [] => []
  | x :: l' => (nat_to_string i, x) :: index_props (S i) l'
  end.

Definition spread (v : value) : props :=
  match v with
  | VObj _ ps => ps
  | VArr _ l => index_props 0 l
  | VStr s => index_props 0 (map (fun c => VStr (String c "")) (list_ascii_of_string s))
  | _ => []
  end.

(** ** Array.prototype.sort and slice *)

(** [sort] calls the comparator on pairs of elements and reads its result
    as a number: positive puts the first argument after the second,
    anything else leaves them in order.  The sort is stable, so for a
    consistent comparator its result is determined; it is given here by
    stable insertion.  For an inconsistent comparator the language leaves
    the order to the implementation: [sort_consistent] below does not
    represent it. *)
Section Sort.
Context {A : Type}.
Variable cmp : A -> A -> number.

Definition comes_after (x y : A) : bool := num_ltb (Fin 0) (cmp x y).

Fixpoint insert_sorted (x : A) (l : list A) : list A :=
  match l with
  | [] => [x]
  | y :: l' => if comes_after x y then y :: insert_sorted x l' else x :: l
  end.

Fixpoint sort_by (l : list A) : list A :=
  match l with
  | [] => []
  | x :: l' => insert_sorted x (sort_by l')
  end.

(** [a] may stay before [b]. *)
Definition in_order (a b : A) : Prop := comes_after a b = false.

(** [cmp a b < 0] and [cmp a b = 0]; [cmp a b > 0] is [comes_after a b]. *)
Definition cmp_lt (a b : A) : bool := num_ltb (cmp a b) (Fin 0).

Definition cmp_eq (a b : A) : bool := num_strict_eqb (cmp a b) (Fin 0).

(** A consistent comparator for the elements of [l], as the language
    defines it: its result is never [NaN]; being equal is reflexive,
    symmetric and transitive; being less is transitive, and so is being
    greater. *)
Definition consistent_comparator (l : list A) : bool :=
  forallb (fun a =>
    cmp_eq a a &&
    forallb (fun b =>
      negb (is_nan (cmp a b)) &&
      implb (cmp_eq a b) (cmp_eq b a) &&
      forallb (fun c =>
        implb (cmp_eq a b && cmp_eq b c) (cmp_eq a c) &&
        implb (cmp_lt a b && cmp_lt b c) (cmp_lt a c) &&
        implb (comes_after a b && comes_after b c) (comes_after a c)) l) l) l.

(** [l.sort(cmp)], where the language determines it. *)
Definition sort_consistent (l : list A) : option (list A) :=
  if consistent_comparator l then Some (sort_by l) else None.
End Sort.

(** Sorting with a comparator whose result is not always represented:
    defined when the comparator is, on every pair of the list. *)
Definition defined_on {A} (cmp : A -> A -> option number) (l : list A) : bool :=
  forallb (fun a => forallb (fun b => match cmp a b with Some _ => true | None => false end) l) l.

Definition sort_with {A} (cmp : A -> A -> option number) (l : list A) : option (list A) :=
  if defined_on cmp l
  then sort_consistent (fun a b => match cmp a b with Some n => n | None => NaN end) l
  else None.

(** ToIntegerOrInfinity. *)
Definition to_integer_or_infinity (n : number) : number :=
  match n with NaN => Fin 0 | _ => n end.

(** [l.slice(0, end)]: a negative [end] counts from the end of the list. *)
Definition slice_to {A} (l : list A) (end_ : number) : list A :=
  let len := Z.of_nat (List.length l) in
  let final :=
    match to_integer_or_infinity end_ with
    | NaN => 0
    | Inf true => 0
    | Inf false => len
    | Fin z => if Z.ltb z 0 then Z.max (len + z) 0 else Z.min z len
    end in
  firstn (Z.to_nat final) l.

(** [a.localeCompare(b)], as the order of the code units.  The program
    applies it to dates that passed the date pattern, fixed-width digit
    strings on which collation and code-unit order agree. *)
Definition localeCompare (a b : string) : number :=
  match String.compare a b with
  | Lt => Fin (-1)
  | Eq => Fin 0
  | Gt => Fin 1
  end.

(** The properties the program reads by name from a value it was handed.
    No built-in prototype defines any of them, so on anything but a plain
    object with that own property the read gives [undefined]. *)
Inductive field : Type :=
| f_id | f_age | f_minAge | f_requiredFields | f_votes | f_subRegions.

Definition field_key (f : field) : string :=
  match f with
  | f_id => "id"
  | f_age => "age"
  | f_minAge => "minAge"
  | f_requiredFields => "requiredFields"
  | f_votes => "votes"
  | f_subRegions => "subRegions"
  end.

Definition get_field (v : value) (f : field) : value :=
  match v with
  | VObj _ ps =>
      match own_get ps (field_key f) with
      | Some x => x
      | None => VUndefined
      end
  | _ => VUndefined
  end.

(** [k in v], for an object [v].  On an array the members of
    [Array.prototype] are not represented. *)
Definition has_property (v : value) (k : string) : option bool :=
  match v with
  | VObj _ ps => Some (is_some (own_get ps k) || is_some (object_prototype k))
  | VObjectPrototype => Some (is_some (object_prototype k))
  | VArr _ l =>
      if (match array_index k with
          | Some i => N.ltb i (N.of_nat (List.length l))
          | None => false
          end
          || String.eqb k "length"
          || is_some (object_prototype k))%bool
      then Some true else None
  | _ => None
  end.

(** The number of a value already known to be one. *)
Definition as_number (v : value) : number :=
  match v with VNum n => n | _ => NaN end.

(** [v === n] for a number [n]. *)
Definition strict_eq_number (v : value) (n : number) : bool :=
  match v with VNum m => num_strict_eqb m n | _ => false end.

(** [c.k] on a plain object, for any key. *)
Definition prop_get (ps : props) (k : string) : value := read_value (obj_get ps k).

End JS.

(* ===================================================================== *)
(** * countVotesInRegions *)
(* ===================================================================== *)

Module Regions.
Import JS.

(** [typeof regionTree.votes === "number" ? regionTree.votes : 0] *)
Definition own_votes (regionTree : value) : number :=
  match get_field regionTree f_votes with
  | VNum n => n
  | _ => Fin 0
  end.

(** The elements the loop over [regionTree.subRegions] visits. *)
Definition sub_regions (regionTree : value) : list value :=
  match get_field regionTree f_subRegions with
  | VArr _ elems => elems
  | _ => []
  end.

(** The recursion goes through the property list of the node down to the
    elements of its [subRegions] array; [countVotesInRegions_unfold] below
    gives it back in the shape of the source. *)
Fixpoint countVotesInRegions (regionTree : value) : number :=
  match regionTree with
  | VObj _ ps =>
      let total := own_votes regionTree in
      (fix find (qs : list (string * value)) : number :=
         match qs with
         | [] => total
         | (k, x) :: qs' =>
             if String.eqb (field_key f_subRegions) k then
               match x with
               | VArr _ elems =>
                   (fix loop (l : list value) (total : number) : number :=
                      match l with
                      | [] => total
                      | sub :: l' => loop l' (double_add total (countVotesInRegions sub))
                      end) elems total
               | _ => total
               end
             else find qs'
         end) ps
  | _ => Fin 0
  end.

(** The body of the source function, over the recursive call [rec]. *)
Definition countVotesInRegions_body (rec : value -> number) (regionTree : value) : number :=
  if (negb (truthy regionTree) || negb (String.eqb (typeof regionTree) "object"))%bool
  then Fin 0
  else
    let total := own_votes regionTree in
    if isArray (get_field regionTree f_subRegions)
    then fold_left (fun total sub => double_add total (rec sub)) (sub_regions regionTree) total
    else total.

(** The tree of the specification's example. *)
Definition leaf (r : ref) (v : Z) : value :=
  VObj r [("votes"%string, VNum (Fin v)); ("subRegions"%string, VArr (N.succ r) [])].


(** A tree of regions as the documentation draws it: every node has a
    name, a number of votes and an array of sub-regions. *)
#[warnings="-register-all"]
Inductive region : Type :=
| Region (r : ref) (name_ : string) (votes_ : Z) (subs : list region).

Fixpoint region_value (t : region) : value :=
  match t with
  | Region r name_ votes_ subs =>
      VObj r [ ("name"%string, VStr name_);
               ("votes"%string, VNum (Fin votes_));
               ("subRegions"%string, VArr (N.succ r) (map region_value subs)) ]
  end.

(** The votes of all the nodes of a tree. *)
Fixpoint region_total (t : region) : Z :=
  match t with
  | Region _ _ votes_ subs => votes_ + fold_right Z.add 0 (map region_total subs)
  end.

(** The magnitudes of the votes of all the nodes of a tree: a bound on
    every sum that the function forms on its way through the tree. *)
Fixpoint region_weight (t : region) : Z :=
  match t with
  | Region _ _ votes_ subs => Z.abs votes_ + fold_right Z.add 0 (map region_weight subs)
  end.

(** A region of 2^53 votes with one sub-region of one vote. *)
Definition large_tree : value :=
  VObj 1%N [("votes"%string, VNum (Fin two_53));
            ("subRegions"%string, VArr 2%N [leaf 3%N 1])].

End Regions.

(* ===================================================================== *)
(** * tallyPure *)
(* ===================================================================== *)

Module Tally.
Import JS.

(** The object literal [{}]; its identity is never observed. *)
Definition empty_object : value := VObj 0%N [].

(** The result is the property list of the new object [newTally].
    [currentTally] is only read: the spread copies its own properties into
    the new object, and the assignment goes to that object. *)
Definition tallyPure (currentTally candidateId : value) : option props :=
  let base :=
    if (truthy currentTally && String.eqb (typeof currentTally) "object")%bool
    then currentTally else empty_object in
  let newTally := spread base in
  if negb (truthy candidateId) then Some newTally
  else
    k <- to_property_key candidateId ;;
    v <- js_add_double (js_or (prop_get newTally k) (VNum (Fin 0))) (VNum (Fin 1)) ;;
    obj_set object_or_null newTally k v.

(** A tally as the documentation has it: a plain object whose values are
    counts. *)
Definition is_count (v : value) : bool :=
  match v with VNum (Fin z) => Z.leb 0 z | _ => false end.

Definition is_tally (t : value) : bool :=
  match t with
  | VObj _ ps => forallb (fun kv => is_count (snd kv)) ps
  | _ => false
  end.

(** The count a tally holds for an id, 0 when it holds none. *)
Definition count_in (ps : props) (id : string) : Z :=
  match own_get ps id with
  | Some (VNum (Fin z)) => z
  | _ => 0
  end.

(** The tally of the documentation. *)
Definition example_tally : value :=
  VObj 1%N [("cand1", VNum (Fin 5)); ("cand2", VNum (Fin 3))].

(** An id that is neither empty nor the name of a member of
    [Object.prototype]. *)
Definition ordinary (id : string) : bool :=
  (negb (String.eqb id "") && negb (is_some (object_prototype id)))%bool.

(** [ids.reduce(tallyPure, tally)]: the votes tallied one after the other,
    each call on the object the call before has returned. *)
Fixpoint tally_votes (tally : props) (ids : list string) : option props :=
  match ids with
  | [] => Some tally
  | id :: rest =>
      tally' <- tallyPure (VObj 0%N tally) (VStr id) ;;
      tally_votes tally' rest
  end.

End Tally.

(* ===================================================================== *)
(** * createVoteValidator *)
(* ===================================================================== *)

Module Validator.
Import JS.

Record verdict : Type := mkVerdict { valid : bool; reason : string }.

Definition elements (v : value) : list value :=
  match v with VArr _ l => l | _ => [] end.

(** [k in voter] for a plain object: own, or inherited from
    [Object.prototype]. *)
Definition present (ps : props) (k : string) : bool :=
  (is_some (own_get ps k) || is_some (object_prototype k))%bool.

(** The loop over the required fields: [Some (Some r)] when it returns the
    verdict of reason [r], [Some None] when it runs to its end. *)
Fixpoint check_required (required : list value) (voter : value)
  : option (option string) :=
  match required with
  | [] => Some None
  | field :: rest =>
      k <- to_property_key field ;;
      present <- has_property voter k ;;
      if negb present then Some (Some (String.append "missing_" k))
      else check_required rest voter
  end.

(** [rules?.minAge ?? 18] *)
Definition minAge_of (rules : value) : value :=
  nullish (get_field rules f_minAge) (VNum (Fin 18)).

(** [Array.isArray(rules?.requiredFields) ? rules.requiredFields : []] *)
Definition required_of (rules : value) : list value :=
  if isArray (get_field rules f_requiredFields)
  then elements (get_field rules f_requiredFields) else [].

Definition createVoteValidator (rules : value) : value -> option verdict :=
  let minAge := minAge_of rules in
  let required := required_of rules in
  fun voter =>
    if (negb (truthy voter) || negb (String.eqb (typeof voter) "object"))%bool
    then Some (mkVerdict false "invalid_voter")
    else
      missing <- check_required required voter ;;
      match missing with
      | Some r => Some (mkVerdict false r)
      | None =>
          if negb (String.eqb (typeof (get_field voter f_age)) "number")
          then Some (mkVerdict false "underage")
          else
            under <- js_lt (get_field voter f_age) minAge ;;
            if under then Some (mkVerdict false "underage")
            else Some (mkVerdict true "")
      end.

(** The rules and a voter of the documentation, the age left open. *)
Definition example_rules : value :=
  VObj 1%N [ ("minAge", VNum (Fin 18));
             ("requiredFields", VArr 2%N [VStr "id"; VStr "name"; VStr "age"]) ].

Definition example_voter (age : value) : value :=
  VObj 3%N [("id", VStr "V1"); ("name", VStr "Mohan"); ("age", age)].

End Validator.

(* ===================================================================== *)
(** * createElection *)
(* ===================================================================== *)

Module Election.
Import JS.

(** The private state of an election: the four variables its methods
    close over. *)
Record election : Type := mkElection {
  candidateMap : jsobj props;   (* id -> copy of the candidate *)
  votes : jsobj value;          (* id -> count *)
  registered : list value;      (* Set of voter ids *)
  voted : list value            (* Set of voter ids *)
}.

(** One turn of the loop of [createElection]. *)
Definition add_candidate (c : value) (cm : jsobj props) (vs : jsobj value)
  : option (jsobj props * jsobj value) :=
  if (truthy c && truthy (get_field c f_id))%bool then
    k <- to_property_key (get_field c f_id) ;;
    cm' <- obj_set (fun _ => true) cm k (spread c) ;;
    vs' <- obj_set object_or_null vs k (VNum (Fin 0)) ;;
    Some (cm', vs')
  else Some (cm, vs).

Fixpoint add_candidates (cs : list value) (cm : jsobj props) (vs : jsobj value)
  : option (jsobj props * jsobj value) :=
  match cs with
  | [] => Some (cm, vs)
  | c :: cs' =>
      p <- add_candidate c cm vs ;;
      add_candidates cs' (fst p) (snd p)
  end.

(** [None] when a candidate's id is truthy without being a string, or is
    "__proto__" (the assignment would change the prototype of
    [candidateMap]): such elections are not represented. *)
Definition createElection (candidates : value) : option election :=
  let candidates := match candidates with VArr _ l => l | _ => [] end in
  p <- add_candidates candidates [] [] ;;
  Some (mkElection (fst p) (snd p) [] []).

Definition registerVoter (st : election) (voter : value) : bool * election :=
  if (negb (truthy voter)
      || negb (String.eqb (typeof voter) "object")
      || negb (truthy (get_field voter f_id))
      || negb (String.eqb (typeof (get_field voter f_age)) "number")
      || num_ltb (as_number (get_field voter f_age)) (Fin 18)
      || set_has (registered st) (get_field voter f_id))%bool
  then (false, st)
  else
    (true,
     mkElection (candidateMap st) (votes st)
       (set_add (registered st) (get_field voter f_id)) (voted st)).

(** A handler argument: a function, or anything else. *)
Inductive handler (A : Type) : Type :=
| Callable (f : A -> value)
| NotCallable.
Arguments Callable {A} f.
Arguments NotCallable {A}.

(** [typeof h === "function" ? h : () => {}] *)
Definition or_noop {A} (h : handler A) : A -> value :=
  match h with
  | Callable f => f
  | NotCallable => fun _ => VUndefined
  end.

(** The object [{ voterId, candidateId }] handed to the success handler. *)
Record ballot : Type := mkBallot { voterId : value; candidateId : string }.

(** Which of [successCb] and [errorCb] a call has invoked, and on what. *)
Inductive invocation : Type :=
| SuccessCalled (b : ballot)
| ErrorCalled (reason : string).

Record cast : Type := mkCast {
  returned : value;
  invoked : list invocation;
  after : election
}.

(** Is what [candidateMap[id]] reads truthy?  An own entry is an object. *)
Definition found (r : read props) : bool :=
  match r with
  | Own _ => true
  | Inherited v => truthy v
  | Missing => false
  end.

(** [voterId] is any value, looked up in the two sets; [candidateId] is
    the property key looked up in [candidateMap] and [votes], a string.
    The result holds what the call returns, the handler it has invoked and
    the state it leaves. *)
Definition castVote (st : election) (voterId_ : value) (candidateId_ : string)
           (onSuccess : handler ballot) (onError : handler string) : option cast :=
  let successCb := or_noop onSuccess in
  let errorCb := or_noop onError in
  if negb (set_has (registered st) voterId_) then
    Some (mkCast (errorCb "voter_not_registered")
                 [ErrorCalled "voter_not_registered"] st)
  else if negb (found (obj_get (candidateMap st) candidateId_)) then
    Some (mkCast (errorCb "candidate_not_found")
                 [ErrorCalled "candidate_not_found"] st)
  else if set_has (voted st) voterId_ then
    Some (mkCast (errorCb "already_voted") [ErrorCalled "already_voted"] st)
  else
    v <- js_add (js_or (read_value (obj_get (votes st) candidateId_)) (VNum (Fin 0)))
                (VNum (Fin 1)) ;;
    votes' <- obj_set object_or_null (votes st) candidateId_ v ;;
    let st' := mkElection (candidateMap st) votes' (registered st)
                          (set_add (voted st) voterId_) in
    let b := mkBallot voterId_ candidateId_ in
    Some (mkCast (successCb b) [SuccessCalled b] st').

(** A line of the results. *)
Record result : Type := mkResult {
  r_id : value;
  r_name : value;
  r_party : value;
  r_votes : value
}.

(** The loop of [getResults] visits the own entries of [candidateMap]. *)
Definition result_of (st : election) (entry : string * props) : result :=
  let (id, c) := entry in
  mkResult (prop_get c "id") (prop_get c "name") (prop_get c "party")
           (js_or (read_value (obj_get (votes st) id)) (VNum (Fin 0))).

(** [(a, b) => b.votes - a.votes] *)
Definition by_votes_desc (a b : result) : option number :=
  js_sub (r_votes b) (r_votes a).

(** [sortFn] is [None] when the argument is not a function; the result of
    a comparator is taken as the number [sort] reads it as. *)
Definition getResults (st : election) (sortFn : option (result -> result -> number))
  : option (list result) :=
  let results := map (result_of st) (candidateMap st) in
  match sortFn with
  | Some f => sort_consistent f results
  | None => sort_with by_votes_desc results
  end.

(** The loop of [getWinner] over the own entries of [votes]; [winner] is
    [None] for [null]. *)
Fixpoint winner_loop (cm : jsobj props) (entries : jsobj value)
         (winner : option (read props)) (maxVotes : value)
  : option (option (read props) * value) :=
  match entries with
  | [] => Some (winner, maxVotes)
  | (id, v) :: rest =>
      more <- js_lt maxVotes v ;;
      if more then winner_loop cm rest (Some (obj_get cm id)) v
      else winner_loop cm rest winner maxVotes
  end.

(** [None] is [null]; [Some c] is the copy [{...winner}]. *)
Definition getWinner (st : election) : option (option props) :=
  p <- winner_loop (candidateMap st) (votes st) None (VNum (Fin 0)) ;;
  let (winner, maxVotes) := p in
  if strict_eq_number maxVotes (Fin 0) then Some None
  else
    match winner with
    | Some (Own c) => Some (Some c)
    | Some (Inherited v) => Some (if truthy v then Some (spread v) else None)
    | Some Missing | None => Some None
    end.

(** The calls a user of an election can make on its state. *)
Inductive call : Type :=
| CallRegister (voter : value)
| CallCast (voterId_ : value) (candidateId_ : string)
           (onSuccess : handler ballot) (onError : handler string).

Definition step (st : election) (c : call) : option election :=
  match c with
  | CallRegister voter => Some (snd (registerVoter st voter))
  | CallCast v k s e => r <- castVote st v k s e ;; Some (after r)
  end.

Fixpoint run (st : election) (cs : list call) : option election :=
  match cs with
  | [] => Some st
  | c :: cs' => st' <- step st c ;; run st' cs'
  end.

(** The states of the election made from [candidates]. *)
Definition reachable (candidates : value) (st : election) : Prop :=
  exists st0 cs, createElection candidates = Some st0 /\ run st0 cs = Some st.

(** The count of a candidate. *)
Definition count_of (st : election) (id : string) : value :=
  read_value (obj_get (votes st) id).

(** The key under which the loop of [createElection] files a candidate. *)
Definition candidate_key (c : value) : option string :=
  if (truthy c && truthy (get_field c f_id))%bool
  then to_property_key (get_field c f_id) else None.

(** The ids of the candidates handed to [createElection], in their order. *)
Definition candidate_ids (candidates : value) : list string :=
  match candidates with
  | VArr _ l =>
      flat_map (fun c => match candidate_key c with Some k => [k] | None => [] end) l
  | _ => []
  end.

(** What the loop of [createElection] has built after the ids [ids]. *)
Record built (ids : list string) (cm : jsobj props) (vs : jsobj value) : Prop :=
  mkBuilt {
    b_keys : keys vs = keys cm;
    b_zero : Forall (fun kv => snd kv = VNum (Fin 0)) vs;
    b_nodup : NoDup (keys cm);
    b_ids : Forall (fun kc => own_get (snd kc) "id" = Some (VStr (fst kc))) cm;
    b_enum : enumeration_of ids (keys cm)
  }.

(** What the cells of [votes] hold: the count of a candidate, or the text
    that [+ 1] makes of a member of [Object.prototype]. *)
Definition count_cell (v : value) : Prop :=
  exists n : nat, v = VNum (Fin (Z.of_nat n)).

Definition text_cell (v : value) : Prop :=
  exists s, v = VStr s /\ has_never_numeric s = true.

(** The number in a cell, 0 for anything else. *)
Definition cell_number (v : value) : Z :=
  match v with VNum (Fin z) => z | _ => 0 end.

(** The sum of the counts of the candidates. *)
Definition total_votes (st : election) : Z :=
  fold_right Z.add 0 (map (fun id => cell_number (count_of st id)) (keys (candidateMap st))).

(** The votes counted for a candidate. *)
Definition votes_for (st : election) (id : string) : Z := cell_number (count_of st id).

(** The line of the results for the candidate filed under [id]. *)
Definition line_of (st : election) (entry : string * props) : result :=
  mkResult (VStr (fst entry)) (prop_get (snd entry) "name")
           (prop_get (snd entry) "party") (VNum (Fin (votes_for st (fst entry)))).

(** The number of votes on a line. *)
Definition line_votes (r : result) : Z := cell_number (r_votes r).

(** The default order of the results, on the numbers of votes. *)
Definition votes_desc (a b : result) : number := Fin (line_votes b - line_votes a).

(** A candidate id that [candidateMap] holds itself. *)
Definition known (st : election) (id : string) : Prop :=
  In id (keys (candidateMap st)).

(** An id that is no candidate, but the name of a member of
    [Object.prototype]. *)
Definition inherited_only (st : election) (id : string) : bool :=
  (negb (is_some (own_get (candidateMap st) id)) && is_some (object_prototype id))%bool.

(** A list that holds no value twice, as a [Set] does. *)
Definition is_set (s : list value) : Prop :=
  ForallOrdPairs (fun a b => same_value_zero a b = false) s.

(** The shape of the state that every call preserves. *)
Record consistent (st : election) : Prop := mkConsistent {
  con_votes :
    exists counts texts,
      votes st = counts ++ texts
      /\ keys counts = keys (candidateMap st)
      /\ Forall (fun kv => count_cell (snd kv)) counts
      /\ Forall (fun kv => text_cell (snd kv)) texts;
  con_nodup : NoDup (keys (candidateMap st));
  con_ids :
    Forall (fun kc => own_get (snd kc) "id" = Some (VStr (fst kc))) (candidateMap st);
  con_voted :
    forall v, set_has (voted st) v = true -> set_has (registered st) v = true
}.

(** The copy that [candidateMap] comes to hold for an id: that of the last
    candidate filed under it. *)
Fixpoint last_copy (cs : list value) (id : string) : option props :=
  match cs with
  | [] => None
  | c :: cs' =>
      match last_copy cs' id with
      | Some p => Some p
      | None =>
          match candidate_key c with
          | Some k => if String.eqb id k then Some (spread c) else None
          | None => None
          end
      end
  end.

(** The election without a candidate. *)
Definition no_candidates : election := mkElection [] [] [] [].

(** *** Concrete elections *)

Definition candidate (r : ref) (id name party : string) : value :=
  VObj r [("id", VStr id); ("name", VStr name); ("party", VStr party)].

Definition voter (r : ref) (id : string) (age : number) : value :=
  VObj r [("id", VStr id); ("name", VStr "Mohan"); ("age", VNum age)].

Definition says (s : string) {A} : handler A := Callable (fun _ => VStr s).

(** The election of the documentation, and its first voter. *)
Definition village_candidates : value :=
  VArr 1%N [ candidate 2%N "C1" "Sarpanch Ram" "Janata";
             candidate 3%N "C2" "Pradhan Sita" "Lok" ].

Definition village_fresh : election :=
  mkElection
    [ ("C1", [("id", VStr "C1"); ("name", VStr "Sarpanch Ram"); ("party", VStr "Janata")]);
      ("C2", [("id", VStr "C2"); ("name", VStr "Pradhan Sita"); ("party", VStr "Lok")]) ]
    [ ("C1", VNum (Fin 0)); ("C2", VNum (Fin 0)) ]
    [] [].

Definition village_registered : election :=
  mkElection (candidateMap village_fresh) (votes village_fresh) [VStr "V1"] [].

(** The state after V1 has voted for "constructor". *)
Definition village_spoiled : election :=
  mkElection (candidateMap village_fresh)
    [ ("C1", VNum (Fin 0)); ("C2", VNum (Fin 0));
      ("constructor", VStr "function Object() { [native code] }1") ]
    [VStr "V1"] [VStr "V1"].

(** The state after V1 has voted for C2. *)
Definition village_one_vote : election :=
  mkElection (candidateMap village_fresh)
    [ ("C1", VNum (Fin 0)); ("C2", VNum (Fin 1)) ]
    [VStr "V1"] [VStr "V1"].

(** [(a, b) => a.votes - b.votes], and [(a, b) => a.votes < b.votes ? 1 : -1],
    which is not consistent: it never answers 0. *)
Definition votes_asc (a b : result) : number := Fin (line_votes a - line_votes b).

Definition never_equal (a b : result) : number :=
  if Z.ltb (line_votes a) (line_votes b) then Fin 1 else Fin (-1).

(** A call is plain when its candidate id is not merely the name of a
    member of [Object.prototype]. *)
Definition plain_call (st : election) (c : call) : bool :=
  match c with
  | CallRegister _ => true
  | CallCast _ k _ _ => negb (inherited_only st k)
  end.

(** Two candidates whose ids are array indices, handed over as "2" then
    "1"; two voters, one vote each. *)
Definition tie_candidates : value :=
  VArr 1%N [candidate 2%N "2" "Ram" "Janata"; candidate 3%N "1" "Sita" "Lok"].

Definition tie_calls : list call :=
  [ CallRegister (voter 4%N "V1" (Fin 25));
    CallRegister (voter 5%N "V2" (Fin 30));
    CallCast (VStr "V1") "2" (says "voted!") (says "error");
    CallCast (VStr "V2") "1" (says "voted!") (says "error") ].

Definition tie_fresh : election :=
  mkElection
    [ ("1", [("id", VStr "1"); ("name", VStr "Sita"); ("party", VStr "Lok")]);
      ("2", [("id", VStr "2"); ("name", VStr "Ram"); ("party", VStr "Janata")]) ]
    [ ("1", VNum (Fin 0)); ("2", VNum (Fin 0)) ]
    [] [].

Definition tie_state : election :=
  mkElection (candidateMap tie_fresh)
    [ ("1", VNum (Fin 1)); ("2", VNum (Fin 1)) ]
    [VStr "V1"; VStr "V2"] [VStr "V1"; VStr "V2"].

End Election.

(* ===================================================================== *)
(** * createFestivalManager *)
(* ===================================================================== *)

Module Festival.
Import JS.

Record festival : Type := mkFestival { name : string; date : string; type : string }.

(** The private state of a manager is its list of festivals. *)
Definition manager := list festival.

Definition createFestivalManager : manager := [].

Definition validTypes : list value :=
  [VStr "religious"; VStr "national"; VStr "cultural"].

(** The regular expression [/^\d{4}-\d{2}-\d{2}$/]: a sequence of atoms
    that the whole string has to match. *)
Inductive atom : Type := Digit | Lit (c : ascii).

Definition atom_matches (a : atom) (c : ascii) : bool :=
  match a with
  | Digit => is_digit c
  | Lit c' => Ascii.eqb c c'
  end.

Fixpoint matches (p : list atom) (s : string) : bool :=
  match p, s with
  | [], EmptyString => true
  | a :: p', String c s' => atom_matches a c && matches p' s'
  | _, _ => false
  end.

Definition date_pattern : list atom :=
  repeat Digit 4 ++ [Lit "-"] ++ repeat Digit 2 ++ [Lit "-"] ++ repeat Digit 2.

(** The string of a value already known to be one. *)
Definition str (v : value) : string :=
  match v with VStr s => s | _ => EmptyString end.

Definition isValidDateStr (d : value) : bool :=
  String.eqb (typeof d) "string" && matches date_pattern (str d).

(** [festivals[i].name === name] *)
Definition name_is (name_ : value) (f : festival) : bool :=
  match name_ with
  | VStr s => String.eqb (name f) s
  | _ => false
  end.

Definition addFestival (name_ date_ type_ : value) (festivals : manager)
  : Z * manager :=
  if (negb (truthy name_)
      || negb (String.eqb (typeof name_) "string")
      || negb (isValidDateStr date_)
      || negb (set_has validTypes type_))%bool
  then (-1, festivals)
  else if existsb (name_is name_) festivals
  then (-1, festivals)
  else
    let festivals' := festivals ++ [mkFestival (str name_) (str date_) (str type_)] in
    (Z.of_nat (List.length festivals'), festivals').

Fixpoint removeFestival (name_ : value) (festivals : manager) : bool * manager :=
  match festivals with
  | [] => (false, [])
  | f :: rest =>
      if name_is name_ f then (true, rest)
      else let (found, rest') := removeFestival name_ rest in (found, f :: rest')
  end.

Definition copy (f : festival) : festival := mkFestival (name f) (date f) (type f).

Definition getAll (festivals : manager) : list festival := map copy festivals.

Definition getByType (type_ : value) (festivals : manager) : list festival :=
  map copy (filter (fun f => match type_ with
                             | VStr t => String.eqb (type f) t
                             | _ => false
                             end) festivals).

(** [(a, b) => a.date.localeCompare(b.date)] *)
Definition by_date (a b : festival) : number := localeCompare (date a) (date b).

(** [n] is [None] when the argument is omitted (or [undefined]): the
    default 3 applies. *)
Definition getUpcoming (currentDate : value) (n : option number) (festivals : manager)
  : list festival :=
  let n := match n with Some n => n | None => Fin 3 end in
  if negb (isValidDateStr currentDate) then []
  else
    let filtered :=
      map copy (filter (fun f => str_geb (date f) (str currentDate)) festivals) in
    let sorted := sort_by by_date filtered in
    slice_to sorted n.

Definition getCount (festivals : manager) : Z := Z.of_nat (List.length festivals).

(** The manager of the specification's example. *)
Definition two_festivals : manager :=
  [ mkFestival "Diwali" "2025-10-20" "religious";
    mkFestival "Republic Day" "2025-01-26" "national" ].

(** *** The life of a manager *)

(** The two calls that change the list. *)
Inductive op : Type :=
| Add (name_ date_ type_ : value)
| Remove (name_ : value).

Definition apply_op (festivals : manager) (o : op) : manager :=
  match o with
  | Add n d t => snd (addFestival n d t festivals)
  | Remove n => snd (removeFestival n festivals)
  end.

Fixpoint run_ops (festivals : manager) (os : list op) : manager :=
  match os with
  | [] => festivals
  | o :: os' => run_ops (apply_op festivals o) os'
  end.

(** The lists a manager can come to hold. *)
Definition managed (festivals : manager) : Prop :=
  exists os, run_ops createFestivalManager os = festivals.

(** What a call does to the count: +1 for an addition that is accepted,
    -1 for a removal that finds its festival, 0 otherwise. *)
Definition effect (festivals : manager) (o : op) : Z :=
  match o with
  | Add n d t => if Z.eqb (fst (addFestival n d t festivals)) (-1) then 0 else 1
  | Remove n => if fst (removeFestival n festivals) then -1 else 0
  end.

Fixpoint net_effect (festivals : manager) (os : list op) : Z :=
  match os with
  | [] => 0
  | o :: os' => effect festivals o + net_effect (apply_op festivals o) os'
  end.

(** The shape of a record that [addFestival] lets in. *)
Definition admissible (f : festival) : Prop :=
  name f <> EmptyString
  /\ matches date_pattern (date f) = true
  /\ In (VStr (type f)) validTypes.

End Festival.

(* ===================================================================== *)
(** * Properties *)
(* ===================================================================== *)

Import JS.

(** ** countVotesInRegions *)

Section RegionsFacts.
Import Regions.

(** Up to 2^53 the sum of two doubles is the sum of the integers. *)
Lemma round_double_exact (z : Z) : Z.abs z <= two_53 -> round_double z = Fin z.
Proof.
  intros H. unfold round_double. apply Z.leb_le in H. now rewrite H.
Qed.

Lemma double_add_exact (x y : Z) :
  Z.abs (x + y) <= two_53 -> double_add (Fin x) (Fin y) = Fin (x + y).
Proof. intros H. now apply round_double_exact. Qed.

(** Beyond, it is rounded: to the even neighbour on a tie, and to the
    infinity past the largest double. *)
Example double_add_rounds :
  double_add (Fin two_53) (Fin 1) = Fin two_53
  /\ double_add (Fin (two_53 + 2)) (Fin 1) = Fin (two_53 + 4)
  /\ double_add (Fin (- two_53)) (Fin (-3)) = Fin (- two_53 - 4)
  /\ double_add (Fin (2 ^ 1023)) (Fin (2 ^ 1023)) = Inf false
  /\ double_add (Fin ((2 ^ 53 - 1) * 2 ^ 971)) (Fin (2 ^ 969))
     = Fin ((2 ^ 53 - 1) * 2 ^ 971)
  /\ double_add (Fin ((2 ^ 53 - 1) * 2 ^ 971)) (Fin (2 ^ 970)) = Inf false.
Proof. repeat split; vm_compute; reflexivity. Qed.


(** The embedded function computes the body of the source function. *)
Lemma countVotesInRegions_unfold (regionTree : value) :
  countVotesInRegions regionTree
  = countVotesInRegions_body countVotesInRegions regionTree.
Proof.
  destruct regionTree as [| | b | n | s | r ps | r l | r | k |];
    try reflexivity.
  - destruct b; reflexivity.
  - unfold countVotesInRegions_body; simpl.
    destruct (num_truthy n); reflexivity.
  - unfold countVotesInRegions_body; simpl.
    destruct (String.eqb s ""); reflexivity.
  - unfold countVotesInRegions_body.
    change (truthy (VObj r ps)) with true.
    change (typeof (VObj r ps)) with "object"%string.
    cbn [negb orb String.eqb Ascii.eqb Bool.eqb].
    unfold sub_regions, get_field.
    cbn [countVotesInRegions].
    generalize (own_votes (VObj r ps)) as total. intros total.
    induction ps as [| [k x] ps IH]; [reflexivity |].
    cbn [own_get].
    destruct (String.eqb (field_key f_subRegions) k) eqn:E.
    + destruct x; reflexivity.
    + apply IH.
Qed.


(** A sum past 2^53 is the rounded one: 2^53 votes and one more vote in a
    sub-region count as 2^53. *)
Example countVotesInRegions_large :
  countVotesInRegions large_tree = Fin two_53.
Proof. vm_compute. reflexivity. Qed.

End RegionsFacts.

(** ** Sorting and slicing *)

Section SortFacts.
Context {A : Type}.
Variable cmp : A -> A -> number.

Lemma insert_sorted_perm (x : A) (l : list A) :
  Permutation (insert_sorted cmp x l) (x :: l).
Proof.
  induction l as [| y l IH]; simpl; [apply Permutation_refl |].
  destruct (comes_after cmp x y); [| apply Permutation_refl].
  eapply Permutation_trans; [apply perm_skip, IH | apply perm_swap].
Qed.

Lemma sort_by_perm (l : list A) : Permutation (sort_by cmp l) l.
Proof.
  induction l as [| x l IH]; simpl; [constructor |].
  eapply Permutation_trans; [apply insert_sorted_perm | now apply perm_skip].
Qed.

(** Stability: the elements of a class that the comparator never puts
    one after the other keep their relative order. *)
Section Stable.
Variable P : A -> bool.
Hypothesis P_unordered :
  forall x y, P x = true -> P y = true -> comes_after cmp x y = false.

Lemma insert_sorted_filter (x : A) (l : list A) :
  filter P (insert_sorted cmp x l) = filter P (x :: l).
Proof.
  induction l as [| y l IH]; [reflexivity |].
  cbn [insert_sorted].
  destruct (comes_after cmp x y) eqn:E; [| reflexivity].
  cbn [filter] in *. rewrite IH.
  destruct (P x) eqn:Px, (P y) eqn:Py; try reflexivity.
  rewrite (P_unordered x y Px Py) in E. discriminate.
Qed.

Lemma sort_by_filter (l : list A) : filter P (sort_by cmp l) = filter P l.
Proof.
  induction l as [| x l IH]; [reflexivity |].
  cbn [sort_by]. rewrite insert_sorted_filter.
  cbn [filter]. now rewrite IH.
Qed.
End Stable.

(** Order: for a comparator that is a strict weak order, no element of
    the result comes after a later one. *)
Section Ordered.
Hypothesis asym :
  forall x y, comes_after cmp x y = true -> comes_after cmp y x = false.
Hypothesis negtrans :
  forall x y z, comes_after cmp x y = false -> comes_after cmp y z = false ->
                comes_after cmp x z = false.

Lemma insert_sorted_sorted (x : A) (l : list A) :
  StronglySorted (in_order cmp) l -> StronglySorted (in_order cmp) (insert_sorted cmp x l).
Proof.
  induction 1 as [| y l Hl IH Hy]; simpl.
  - constructor; constructor.
  - destruct (comes_after cmp x y) eqn:E.
    + constructor; [exact IH |].
      apply Forall_forall. intros z Hz.
      apply (Permutation_in _ (insert_sorted_perm x l)) in Hz.
      destruct Hz as [<- | Hz]; [now apply asym |].
      now apply (proj1 (Forall_forall _ _) Hy).
    + constructor; [now constructor |].
      constructor; [exact E |].
      apply Forall_forall. intros z Hz.
      apply negtrans with y; [exact E |].
      now apply (proj1 (Forall_forall _ _) Hy).
Qed.

Lemma sort_by_sorted (l : list A) : StronglySorted (in_order cmp) (sort_by cmp l).
Proof.
  induction l as [| x l IH]; simpl; [constructor |].
  now apply insert_sorted_sorted.
Qed.
End Ordered.

(** The same on a list alone: what a comparator that is consistent on the
    elements of a list gives for that list. *)
Section OnList.
Variable l0 : list A.
Hypothesis Hcons : consistent_comparator cmp l0 = true.

Lemma consistent_facts (a b c : A) :
  In a l0 -> In b l0 -> In c l0 ->
  cmp_eq cmp a a = true
  /\ is_nan (cmp a b) = false
  /\ (cmp_eq cmp a b = true -> cmp_eq cmp b a = true)
  /\ (cmp_eq cmp a b = true -> cmp_eq cmp b c = true -> cmp_eq cmp a c = true)
  /\ (cmp_lt cmp a b = true -> cmp_lt cmp b c = true -> cmp_lt cmp a c = true)
  /\ (comes_after cmp a b = true -> comes_after cmp b c = true ->
      comes_after cmp a c = true).
Proof.
  intros Ha Hb Hc. unfold consistent_comparator in Hcons.
  rewrite forallb_forall in Hcons. specialize (Hcons a Ha).
  apply andb_true_iff in Hcons. destruct Hcons as [Hrefl H].
  rewrite forallb_forall in H. specialize (H b Hb).
  apply andb_true_iff in H. destruct H as [H Htrans].
  apply andb_true_iff in H. destruct H as [Hnan Hsym].
  rewrite forallb_forall in Htrans. specialize (Htrans c Hc).
  apply andb_true_iff in Htrans. destruct Htrans as [Htrans Hgt].
  apply andb_true_iff in Htrans. destruct Htrans as [Heq Hlt].
  split; [exact Hrefl |]. split; [now apply negb_true_iff |].
  split; [intros E; now rewrite E in Hsym |].
  split; [intros E1 E2; now rewrite E1, E2 in Heq |].
  split; [intros E1 E2; now rewrite E1, E2 in Hlt |].
  intros E1 E2. now rewrite E1, E2 in Hgt.
Qed.

(** Of less, equal and greater, exactly one holds. *)
Lemma num_sign_cases (n : number) :
  is_nan n = false ->
  (num_ltb n (Fin 0) = true /\ num_strict_eqb n (Fin 0) = false
   /\ num_ltb (Fin 0) n = false)
  \/ (num_ltb n (Fin 0) = false /\ num_strict_eqb n (Fin 0) = true
      /\ num_ltb (Fin 0) n = false)
  \/ (num_ltb n (Fin 0) = false /\ num_strict_eqb n (Fin 0) = false
      /\ num_ltb (Fin 0) n = true).
Proof.
  destruct n as [| [] | z]; simpl; [discriminate | auto | auto |]. intros _.
  destruct (Z.ltb_spec z 0), (Z.eqb_spec z 0), (Z.ltb_spec 0 z); auto; lia.
Qed.

Lemma consistent_cases (a b : A) :
  In a l0 -> In b l0 ->
  (cmp_lt cmp a b = true /\ cmp_eq cmp a b = false /\ comes_after cmp a b = false)
  \/ (cmp_lt cmp a b = false /\ cmp_eq cmp a b = true /\ comes_after cmp a b = false)
  \/ (cmp_lt cmp a b = false /\ cmp_eq cmp a b = false /\ comes_after cmp a b = true).
Proof.
  intros Ha Hb. apply num_sign_cases.
  now destruct (consistent_facts a b b Ha Hb Hb) as (_ & H & _).
Qed.

Lemma consistent_asym (x y : A) :
  In x l0 -> In y l0 ->
  comes_after cmp x y = true -> comes_after cmp y x = false.
Proof.
  intros Hx Hy Hxy. destruct (comes_after cmp y x) eqn:Hyx; [| reflexivity].
  destruct (consistent_facts x y x Hx Hy Hx) as (Hrefl & _ & _ & _ & _ & Hgt).
  specialize (Hgt Hxy Hyx).
  destruct (consistent_cases x x Hx Hx) as [(_ & E & _) | [(_ & _ & E) | (_ & E & _)]];
    congruence.
Qed.

Lemma consistent_lt_gt (x y : A) :
  In x l0 -> In y l0 ->
  cmp_lt cmp x y = true -> comes_after cmp y x = true.
Proof.
  intros Hx Hy Hxy.
  destruct (consistent_cases y x Hy Hx) as [(Hlt & _) | [(_ & Heq & _) | (_ & _ & Hgt)]];
    [| | exact Hgt]; exfalso.
  - destruct (consistent_facts x y x Hx Hy Hx) as (Hrefl & _ & _ & _ & Htr & _).
    specialize (Htr Hxy Hlt).
    destruct (consistent_cases x x Hx Hx) as [(_ & E & _) | [(E & _) | (E & _)]];
      congruence.
  - destruct (consistent_facts y x x Hy Hx Hx) as (_ & _ & Hsym & _).
    specialize (Hsym Heq).
    destruct (consistent_cases x y Hx Hy) as [(_ & E & _) | [(E & _) | (E & _)]];
      congruence.
Qed.

Lemma consistent_negtrans (x y z : A) :
  In x l0 -> In y l0 -> In z l0 ->
  comes_after cmp x y = false -> comes_after cmp y z = false ->
  comes_after cmp x z = false.
Proof.
  intros Hx Hy Hz Hxy Hyz. destruct (comes_after cmp x z) eqn:Hxz; [| reflexivity].
  exfalso.
  destruct (consistent_cases x y Hx Hy) as [(Lxy & _) | [(_ & Exy & _) | (_ & _ & G)]];
    [| | congruence];
    destruct (consistent_cases y z Hy Hz) as [(Lyz & _) | [(_ & Eyz & _) | (_ & _ & G)]];
    try congruence.
  - destruct (consistent_facts x y z Hx Hy Hz) as (_ & _ & _ & _ & Htr & _).
    specialize (Htr Lxy Lyz).
    destruct (consistent_cases x z Hx Hz) as [(_ & _ & E) | [(E & _) | (E & _)]];
      congruence.
  - pose proof (consistent_lt_gt x y Hx Hy Lxy) as Gyx.
    destruct (consistent_facts y x z Hy Hx Hz) as (_ & _ & _ & _ & _ & Htr).
    specialize (Htr Gyx Hxz).
    destruct (consistent_cases y z Hy Hz) as [(_ & E & _) | [(_ & _ & E) | (_ & E & _)]];
      congruence.
  - pose proof (consistent_lt_gt y z Hy Hz Lyz) as Gzy.
    destruct (consistent_facts x z y Hx Hz Hy) as (_ & _ & _ & _ & _ & Htr).
    specialize (Htr Hxz Gzy).
    destruct (consistent_cases x y Hx Hy) as [(_ & E & _) | [(_ & _ & E) | (_ & E & _)]];
      congruence.
  - destruct (consistent_facts x y z Hx Hy Hz) as (_ & _ & _ & Htr & _).
    specialize (Htr Exy Eyz).
    destruct (consistent_cases x z Hx Hz) as [(_ & E & _) | [(_ & _ & E) | (_ & E & _)]];
      congruence.
Qed.

(** Equals of one element never come one after the other. *)
Lemma consistent_equals (r x y : A) :
  In r l0 -> In x l0 -> In y l0 ->
  cmp_eq cmp r x = true -> cmp_eq cmp r y = true -> comes_after cmp x y = false.
Proof.
  intros Hr Hx Hy Erx Ery.
  destruct (consistent_facts r x x Hr Hx Hx) as (_ & _ & Hsym & _).
  destruct (consistent_facts x r y Hx Hr Hy) as (_ & _ & _ & Htr & _).
  specialize (Htr (Hsym Erx) Ery).
  destruct (consistent_cases x y Hx Hy) as [(_ & _ & E) | [(_ & _ & E) | (_ & E & _)]];
    congruence.
Qed.

Lemma insert_sorted_sorted_on (x : A) (l : list A) :
  In x l0 -> incl l l0 ->
  StronglySorted (in_order cmp) l -> StronglySorted (in_order cmp) (insert_sorted cmp x l).
Proof.
  intros Hx Hl. induction 1 as [| y l Hs IH Hy]; simpl.
  - constructor; constructor.
  - assert (In y l0) as Hy0 by (apply Hl; now left).
    assert (incl l l0) as Hl' by (intros w Hw; apply Hl; now right).
    destruct (comes_after cmp x y) eqn:E.
    + constructor; [now apply IH |].
      apply Forall_forall. intros z Hz.
      apply (Permutation_in _ (insert_sorted_perm x l)) in Hz.
      destruct Hz as [<- | Hz]; [now apply consistent_asym |].
      now apply (proj1 (Forall_forall _ _) Hy).
    + constructor; [now constructor |].
      constructor; [exact E |].
      apply Forall_forall. intros z Hz.
      apply consistent_negtrans with y; auto.
      now apply (proj1 (Forall_forall _ _) Hy).
Qed.

Lemma sort_by_sorted_on (l : list A) :
  incl l l0 -> StronglySorted (in_order cmp) (sort_by cmp l).
Proof.
  induction l as [| x l IH]; intros Hl; simpl; [constructor |].
  apply insert_sorted_sorted_on.
  - apply Hl. now left.
  - intros w Hw. apply Hl. right.
    exact (Permutation_in _ (sort_by_perm l) Hw).
  - apply IH. intros w Hw. apply Hl. now right.
Qed.

Lemma insert_sorted_equals (r x : A) (l : list A) :
  In r l0 -> In x l0 -> incl l l0 ->
  filter (cmp_eq cmp r) (insert_sorted cmp x l) = filter (cmp_eq cmp r) (x :: l).
Proof.
  intros Hr Hx. induction l as [| y l IH]; intros Hl; [reflexivity |].
  cbn [insert_sorted].
  destruct (comes_after cmp x y) eqn:E; [| reflexivity].
  cbn [filter] in *. rewrite IH by (intros w Hw; apply Hl; now right).
  destruct (cmp_eq cmp r x) eqn:Px, (cmp_eq cmp r y) eqn:Py; try reflexivity.
  rewrite (consistent_equals r x y Hr Hx (Hl y (or_introl eq_refl)) Px Py) in E.
  discriminate.
Qed.

(** Stability: the equals of an element keep their order. *)
Lemma sort_by_equals (r : A) (l : list A) :
  In r l0 -> incl l l0 ->
  filter (cmp_eq cmp r) (sort_by cmp l) = filter (cmp_eq cmp r) l.
Proof.
  intros Hr. induction l as [| x l IH]; intros Hl; [reflexivity |].
  cbn [sort_by]. rewrite insert_sorted_equals.
  - cbn [filter]. rewrite IH; [reflexivity |]. intros w Hw. apply Hl. now right.
  - exact Hr.
  - apply Hl. now left.
  - intros w Hw. apply Hl. right. exact (Permutation_in _ (sort_by_perm l) Hw).
Qed.
End OnList.
End SortFacts.

Lemma forallb_ext_in {A} (f g : A -> bool) (l : list A) :
  (forall x, In x l -> f x = g x) -> forallb f l = forallb g l.
Proof.
  induction l as [| x l IH]; intros H; simpl; [reflexivity |].
  rewrite (H x) by now left. rewrite IH; [reflexivity |].
  intros; apply H; now right.
Qed.

(** Two comparators that agree on a list are consistent together. *)
Lemma consistent_comparator_ext {A} (f g : A -> A -> number) (l : list A) :
  (forall x y, In x l -> In y l -> f x y = g x y) ->
  consistent_comparator f l = consistent_comparator g l.
Proof.
  intros H. unfold consistent_comparator, cmp_eq, cmp_lt, comes_after.
  apply forallb_ext_in. intros a Ha. rewrite (H a a Ha Ha). f_equal.
  apply forallb_ext_in. intros b Hb. rewrite (H a b Ha Hb), (H b a Hb Ha). f_equal.
  apply forallb_ext_in. intros c Hc. now rewrite (H b c Hb Hc), (H a c Ha Hc).
Qed.

Lemma slice_to_count {A} (l : list A) (n : nat) :
  slice_to l (Fin (Z.of_nat n)) = firstn n l.
Proof.
  unfold slice_to; cbn [to_integer_or_infinity].
  destruct (Z.ltb_spec (Z.of_nat n) 0) as [H | _]; [lia |].
  destruct (Nat.le_gt_cases n (List.length l)) as [H | H].
  - rewrite Z.min_l by lia. now rewrite Nat2Z.id.
  - rewrite Z.min_r by lia. rewrite Nat2Z.id.
    rewrite firstn_all. symmetry. apply firstn_all2. lia.
Qed.

(** The order of strings. *)

Lemma ascii_compare_lt_trans (a b c : ascii) :
  Ascii.compare a b = Lt -> Ascii.compare b c = Lt -> Ascii.compare a c = Lt.
Proof.
  unfold Ascii.compare. rewrite !N.compare_lt_iff. apply N.lt_trans.
Qed.

Lemma string_compare_lt_trans (a b c : string) :
  String.compare a b = Lt -> String.compare b c = Lt -> String.compare a c = Lt.
Proof.
  revert b c. induction a as [| x a IH]; intros [| y b] [| z c]; simpl;
    try discriminate; auto.
  destruct (Ascii.compare x y) eqn:Exy; try discriminate.
  - apply Ascii.compare_eq_iff in Exy. subst y.
    destruct (Ascii.compare x z); auto. apply IH.
  - destruct (Ascii.compare y z) eqn:Eyz; try discriminate.
    + apply Ascii.compare_eq_iff in Eyz. subst z. now rewrite Exy.
    + now rewrite (ascii_compare_lt_trans _ _ _ Exy Eyz).
Qed.

Lemma string_leb_trans (a b c : string) :
  String.leb a b = true -> String.leb b c = true -> String.leb a c = true.
Proof.
  unfold String.leb.
  destruct (String.compare a b) eqn:Eab; try discriminate;
    destruct (String.compare b c) eqn:Ebc; try discriminate; intros _ _.
  - apply String.compare_eq_iff in Eab. subst b. now rewrite Ebc.
  - apply String.compare_eq_iff in Eab. subst b. now rewrite Ebc.
  - apply String.compare_eq_iff in Ebc. subst c. now rewrite Eab.
  - now rewrite (string_compare_lt_trans _ _ _ Eab Ebc).
Qed.

Lemma str_geb_leb (a b : string) : str_geb a b = String.leb b a.
Proof.
  unfold str_geb, String.ltb, String.leb.
  rewrite (String.compare_antisym b a).
  destruct (String.compare a b); reflexivity.
Qed.

Lemma localeCompare_after (a b : string) :
  num_ltb (Fin 0) (localeCompare a b) = negb (String.leb a b).
Proof.
  unfold localeCompare, String.leb. destruct (String.compare a b); reflexivity.
Qed.

(** ** The festival manager *)

Section FestivalFacts.
Import Festival.

Lemma copy_id (f : festival) : copy f = f.
Proof. now destruct f. Qed.

Lemma map_copy_id (l : list festival) : map copy l = l.
Proof. induction l as [| f l IH]; simpl; [| rewrite copy_id, IH]; reflexivity. Qed.

Lemma name_check_iff (name_ : value) :
  (negb (truthy name_) || negb (String.eqb (typeof name_) "string"))%bool = false
  <-> exists s, name_ = VStr s /\ s <> EmptyString.
Proof.
  destruct name_; simpl; try (split; [discriminate | now intros (s0 & H & _)]).
  - split; [destruct b; discriminate | now intros (s0 & H & _)].
  - split; [rewrite orb_true_r; discriminate | now intros (s0 & H & _)].
  - rewrite orb_false_r, negb_involutive. split.
    + intros H. exists s. split; [reflexivity |]. now apply String.eqb_neq.
    + intros (s0 & [= <-] & H). now apply String.eqb_neq.
Qed.

Lemma isValidDateStr_iff (d : value) :
  isValidDateStr d = true <-> exists s, d = VStr s /\ matches date_pattern s = true.
Proof.
  unfold isValidDateStr.
  destruct d; simpl; try (split; [discriminate | now intros (s0 & H & _)]).
  split; [intros H; now exists s | now intros (s0 & [= <-] & H)].
Qed.

Lemma validTypes_has_iff (type_ : value) :
  set_has validTypes type_ = true <-> In type_ validTypes.
Proof.
  unfold set_has, validTypes. rewrite existsb_exists. split.
  - intros (x & Hx & E). simpl in Hx.
    destruct Hx as [<- | [<- | [<- | []]]]; destruct type_; try discriminate;
      apply String.eqb_eq in E; subst; simpl; auto.
  - intros H. exists type_. split; [exact H |].
    simpl in H. destruct H as [<- | [<- | [<- | []]]]; reflexivity.
Qed.

Lemma name_exists_iff (name_ : value) (festivals : manager) :
  existsb (name_is name_) festivals = true
  <-> exists f, In f festivals /\ VStr (name f) = name_.
Proof.
  rewrite existsb_exists. split; intros (f & Hf & E); exists f; split; auto.
  - destruct name_; try discriminate. simpl in E.
    apply String.eqb_eq in E. now subst.
  - subst. simpl. apply String.eqb_refl.
Qed.

(** What the date pattern accepts: four digits, a hyphen, two digits, a
    hyphen, two digits, and nothing else. *)
Lemma date_pattern_shape (s : string) :
  matches date_pattern s = true
  <-> exists y1 y2 y3 y4 m1 m2 d1 d2,
      s = String y1 (String y2 (String y3 (String y4 (String "-"
            (String m1 (String m2 (String "-" (String d1 (String d2 EmptyString)))))))))
      /\ forallb is_digit [y1; y2; y3; y4; m1; m2; d1; d2] = true.
Proof.
  split.
  - intros H. unfold date_pattern in H. simpl in H.
    repeat (match type of H with
            | match ?x with EmptyString => _ | String _ _ => _ end = true =>
                destruct x; try discriminate
            | (_ && _)%bool = true =>
                apply andb_true_iff in H; destruct H as [? H]
            end).
    repeat match goal with
           | E : Ascii.eqb _ _ = true |- _ => apply Ascii.eqb_eq in E; subst
           end.
    do 8 eexists. split; [reflexivity |].
    cbn [forallb].
    repeat match goal with E : is_digit _ = true |- _ => rewrite E; clear E end.
    reflexivity.
  - intros (y1 & y2 & y3 & y4 & m1 & m2 & d1 & d2 & -> & H).
    cbn [forallb] in H.
    unfold date_pattern. cbn [repeat app matches atom_matches].
    repeat match goal with
           | |- context [is_digit ?c] =>
               destruct (is_digit c); try (simpl in H; discriminate)
           end.
    reflexivity.
Qed.

(** C8.  [addFestival] returns -1 and leaves the list alone when the name
    is not a non-empty string, or the date does not match the pattern, or
    the type is not one of the three, or a festival of that name exists;
    otherwise it appends the record and returns the new count, one more
    than before. *)
Theorem addFestival_spec (name_ date_ type_ : value) (festivals : manager) :
  let rejected :=
    ~ (exists s, name_ = VStr s /\ s <> EmptyString)
    \/ ~ (exists s, date_ = VStr s /\ matches date_pattern s = true)
    \/ ~ In type_ validTypes
    \/ (exists f, In f festivals /\ VStr (name f) = name_) in
  (rejected -> addFestival name_ date_ type_ festivals = (-1, festivals))
  /\ (~ rejected ->
      exists n d t,
        name_ = VStr n /\ date_ = VStr d /\ type_ = VStr t
        /\ addFestival name_ date_ type_ festivals
           = (getCount festivals + 1, festivals ++ [mkFestival n d t])).
Proof.
  intros rejected. unfold addFestival.
  destruct (negb (truthy name_) || negb (String.eqb (typeof name_) "string"))%bool eqn:E1.
  { split; [reflexivity |]. intros H. exfalso. apply H. left. intros Hn.
    apply name_check_iff in Hn. congruence. }
  destruct (isValidDateStr date_) eqn:E2; cycle 1.
  { split; [reflexivity |]. intros H. exfalso. apply H. right; left. intros Hd.
    apply isValidDateStr_iff in Hd. congruence. }
  destruct (set_has validTypes type_) eqn:E3; cycle 1.
  { split; [reflexivity |]. intros H. exfalso. apply H. right; right; left.
    intros Ht. apply validTypes_has_iff in Ht. congruence. }
  cbn [negb orb].
  destruct (existsb (name_is name_) festivals) eqn:E4.
  { split; [reflexivity |]. intros H. exfalso. apply H. right; right; right.
    now apply name_exists_iff. }
  apply name_check_iff in E1. apply isValidDateStr_iff in E2.
  apply validTypes_has_iff in E3.
  destruct E1 as (n & -> & Hn), E2 as (d & -> & Hd).
  split.
  - intros [H | [H | [H | H]]].
    + exfalso. apply H. now exists n.
    + exfalso. apply H. now exists d.
    + contradiction.
    + apply name_exists_iff in H. congruence.
  - intros _.
    assert (exists t, type_ = VStr t) as (t & ->).
    { simpl in E3. destruct E3 as [<- | [<- | [<- | []]]]; eauto. }
    exists n, d, t. repeat split.
    unfold getCount. rewrite length_app. simpl.
    do 2 f_equal. lia.
Qed.

(** Every date a manager holds has passed the date pattern. *)
Lemma addFestival_dates (name_ date_ type_ : value) (festivals : manager) :
  Forall (fun f => matches date_pattern (date f) = true) festivals ->
  Forall (fun f => matches date_pattern (date f) = true)
         (snd (addFestival name_ date_ type_ festivals)).
Proof.
  intros H. unfold addFestival.
  destruct (negb (truthy name_) || negb (String.eqb (typeof name_) "string")
            || negb (isValidDateStr date_) || negb (set_has validTypes type_))%bool eqn:E;
    [exact H |].
  destruct (existsb (name_is name_) festivals); [exact H |].
  cbn [snd]. apply Forall_app. split; [exact H |].
  constructor; [| constructor]. cbn [date].
  apply orb_false_iff in E. destruct E as [E _].
  apply orb_false_iff in E. destruct E as [_ E].
  apply negb_false_iff, isValidDateStr_iff in E.
  destruct E as (d & -> & Hd). exact Hd.
Qed.

(** The example of the specification: Diwali is accepted into a fresh
    manager and counted 1. *)
Lemma addFestival_spec_witness :
  exists n d t,
    VStr "Diwali" = VStr n /\ VStr "2025-10-20" = VStr d /\ VStr "religious" = VStr t
    /\ addFestival (VStr "Diwali") (VStr "2025-10-20") (VStr "religious")
         createFestivalManager
       = (getCount createFestivalManager + 1,
          createFestivalManager ++ [mkFestival n d t]).
Proof.
  apply (proj2 (addFestival_spec (VStr "Diwali") (VStr "2025-10-20")
                  (VStr "religious") createFestivalManager)).
  intros [H | [H | [H | H]]].
  - apply H. exists "Diwali"%string. split; [reflexivity | discriminate].
  - apply H. exists "2025-10-20"%string. split; reflexivity.
  - apply H. simpl. auto.
  - destruct H as (f & [] & _).
Defined.

Lemma StronglySorted_impl {A} (R R' : A -> A -> Prop) (l : list A) :
  (forall a b, R a b -> R' a b) -> StronglySorted R l -> StronglySorted R' l.
Proof.
  intros HR. induction 1 as [| x l Hl IH Hx]; constructor; auto.
  eapply Forall_impl; [| exact Hx]. auto.
Qed.

Lemma string_leb_refl (s : string) : String.leb s s = true.
Proof.
  unfold String.leb. pose proof (String.compare_antisym s s) as H.
  destruct (String.compare s s); try reflexivity; discriminate.
Qed.

Lemma by_date_after (a b : festival) :
  comes_after by_date a b = negb (String.leb (date a) (date b)).
Proof. apply localeCompare_after. Qed.

(** C9.  [getUpcoming] returns the empty list when [currentDate] is not a
    string matching the date pattern.  Otherwise, with [sorted] the
    festivals whose date is at least [currentDate], in ascending order of
    date (festivals of one date in their order of insertion), it returns
    the first [n] of [sorted], at most [n] records, and the first 3 when
    [n] is omitted. *)
Theorem getUpcoming_spec (currentDate : value) (n : nat) (festivals : manager) :
  (isValidDateStr currentDate = false ->
   forall m, getUpcoming currentDate m festivals = [])
  /\ (isValidDateStr currentDate = true ->
      exists d sorted,
        currentDate = VStr d
        /\ Permutation sorted (filter (fun f => String.leb d (date f)) festivals)
        /\ StronglySorted (fun a b => String.leb (date a) (date b) = true) sorted
        /\ (forall day,
               filter (fun f => String.eqb (date f) day) sorted
               = filter (fun f => String.eqb (date f) day)
                   (filter (fun f => String.leb d (date f)) festivals))
        /\ getUpcoming currentDate (Some (Fin (Z.of_nat n))) festivals = firstn n sorted
        /\ getUpcoming currentDate None festivals = firstn 3 sorted
        /\ (List.length (getUpcoming currentDate (Some (Fin (Z.of_nat n))) festivals)
            <= n)%nat).
Proof.
  split.
  - intros H m. unfold getUpcoming. now rewrite H.
  - intros H. unfold getUpcoming. rewrite H. cbn [negb].
    apply isValidDateStr_iff in H. destruct H as (d & -> & _).
    cbn [str]. rewrite map_copy_id.
    assert (filter (fun f => str_geb (date f) d) festivals
            = filter (fun f => String.leb d (date f)) festivals) as ->.
    { apply filter_ext. intros f. apply str_geb_leb. }
    set (upcoming := filter (fun f => String.leb d (date f)) festivals).
    exists d, (sort_by by_date upcoming).
    split; [reflexivity |].
    split; [apply sort_by_perm |].
    split.
    { apply StronglySorted_impl with (R := in_order by_date).
      - intros a b Hab. unfold in_order in Hab. rewrite by_date_after in Hab.
        now apply negb_false_iff in Hab.
      - apply sort_by_sorted.
        + intros x y. rewrite !by_date_after, negb_true_iff, negb_false_iff.
          intros Hxy. destruct (String.leb_total (date x) (date y)); congruence.
        + intros x y z. rewrite !by_date_after, !negb_false_iff.
          apply string_leb_trans. }
    split.
    { intros day. apply sort_by_filter.
      intros x y Hx Hy. apply String.eqb_eq in Hx, Hy.
      rewrite by_date_after, Hx, Hy, string_leb_refl. reflexivity. }
    split; [apply slice_to_count |].
    split; [apply (slice_to_count _ 3) |].
    rewrite slice_to_count. apply firstn_le_length.
Qed.

(** The example of the specification: of Diwali and Republic Day, the one
    festival asked for from 2025-01-01 on is Republic Day. *)
Lemma getUpcoming_spec_witness :
  exists d sorted,
    VStr "2025-01-01" = VStr d
    /\ Permutation sorted (filter (fun f => String.leb d (date f)) two_festivals)
    /\ StronglySorted (fun a b => String.leb (date a) (date b) = true) sorted
    /\ (forall day,
           filter (fun f => String.eqb (date f) day) sorted
           = filter (fun f => String.eqb (date f) day)
               (filter (fun f => String.leb d (date f)) two_festivals))
    /\ getUpcoming (VStr "2025-01-01") (Some (Fin (Z.of_nat 1))) two_festivals
       = firstn 1 sorted
    /\ getUpcoming (VStr "2025-01-01") None two_festivals = firstn 3 sorted
    /\ (List.length
          (getUpcoming (VStr "2025-01-01") (Some (Fin (Z.of_nat 1))) two_festivals)
        <= 1)%nat.
Proof.
  apply (proj2 (getUpcoming_spec (VStr "2025-01-01") 1 two_festivals)).
  reflexivity.
Defined.

Example getUpcoming_example :
  getUpcoming (VStr "2025-01-01") (Some (Fin 1)) two_festivals
  = [mkFestival "Republic Day" "2025-01-26" "national"].
Proof. reflexivity. Qed.

End FestivalFacts.

(** ** Plain objects used as maps *)

Section ObjectFacts.
Context {A : Type}.
Implicit Types (o : jsobj A) (k : string) (a : A).

Lemma own_get_app o1 o2 k :
  own_get (o1 ++ o2) k
  = match own_get o1 k with Some a => Some a | None => own_get o2 k end.
Proof.
  induction o1 as [| [k' a'] o1 IH]; simpl; [reflexivity |].
  destruct (String.eqb k k'); auto.
Qed.

Lemma own_get_None o k : own_get o k = None <-> ~ In k (keys o).
Proof.
  induction o as [| [k' a'] o IH]; simpl; [tauto |].
  destruct (String.eqb_spec k k') as [-> | Hne].
  - split; [discriminate | intros H; exfalso; apply H; now left].
  - rewrite IH. split; [intros H [E | I]; [congruence | tauto] | tauto].
Qed.

Lemma own_get_Some_In o k a : own_get o k = Some a -> In (k, a) o.
Proof.
  induction o as [| [k' a'] o IH]; simpl; [discriminate |].
  destruct (String.eqb_spec k k') as [-> | Hne].
  - intros [= ->]. now left.
  - intros H. right. auto.
Qed.

Lemma own_get_In o k : In k (keys o) -> exists a, own_get o k = Some a.
Proof.
  intros H. destruct (own_get o k) eqn:E; [eauto |].
  apply own_get_None in E. contradiction.
Qed.

Lemma own_get_NoDup o k a : NoDup (keys o) -> In (k, a) o -> own_get o k = Some a.
Proof.
  induction o as [| [k' a'] o IH]; simpl; [tauto |].
  intros Hnd [[= -> ->] | Hin].
  - now rewrite String.eqb_refl.
  - inversion Hnd as [| ? ? Hk Hnd']; subst.
    destruct (String.eqb_spec k k') as [-> | Hne]; [| auto].
    exfalso. apply Hk. change k' with (fst (k', a)). now apply in_map.
Qed.

Lemma keys_replace_own o k a : keys (replace_own k a o) = keys o.
Proof.
  induction o as [| [k' a'] o IH]; simpl; [reflexivity |].
  destruct (String.eqb k k'); simpl; [reflexivity | now rewrite IH].
Qed.

Lemma replace_own_app_l o1 o2 k a :
  In k (keys o1) -> replace_own k a (o1 ++ o2) = replace_own k a o1 ++ o2.
Proof.
  induction o1 as [| [k' a'] o1 IH]; simpl; [tauto |].
  destruct (String.eqb_spec k k') as [-> | Hne]; [reflexivity |].
  intros [E | H]; [congruence |]. now rewrite IH.
Qed.

Lemma replace_own_app_r o1 o2 k a :
  ~ In k (keys o1) -> replace_own k a (o1 ++ o2) = o1 ++ replace_own k a o2.
Proof.
  induction o1 as [| [k' a'] o1 IH]; simpl; [reflexivity |].
  destruct (String.eqb_spec k k') as [-> | Hne]; [tauto |].
  intros H. rewrite IH; tauto.
Qed.

Lemma own_get_replace_own o k a k' :
  own_get (replace_own k a o) k'
  = if (String.eqb k' k && is_some (own_get o k))%bool then Some a else own_get o k'.
Proof.
  induction o as [| [k0 a0] o IH]; simpl.
  - now rewrite andb_false_r.
  - destruct (String.eqb_spec k k0) as [-> | Hne]; simpl.
    + destruct (String.eqb_spec k' k0); reflexivity.
    + destruct (String.eqb_spec k' k0) as [-> | Hne'].
      * destruct (String.eqb_spec k0 k); [congruence | reflexivity].
      * apply IH.
Qed.

(** A key that is no array index is created last. *)
Lemma insert_new_last o k a :
  array_index k = None -> insert_new k a o = o ++ [(k, a)].
Proof.
  intros H. induction o as [| [k' a'] o IH]; simpl; [reflexivity |].
  unfold key_before. rewrite H. now rewrite IH.
Qed.

Lemma keys_app o1 o2 : keys (o1 ++ o2) = keys o1 ++ keys o2.
Proof. apply map_app. Qed.
End ObjectFacts.

Lemma prototype_function_not_index (k : string) :
  str_mem k object_prototype_functions = true -> array_index k = None.
Proof.
  unfold str_mem, object_prototype_functions. cbn [existsb].
  rewrite !orb_true_iff.
  intros H.
  repeat (destruct H as [H | H]; [apply String.eqb_eq in H; subst; reflexivity |]).
  discriminate.
Qed.

Lemma object_prototype_cases (k : string) (v : value) :
  object_prototype k = Some v ->
  (k = "__proto__" /\ v = VObjectPrototype)
  \/ (k <> "__proto__" /\ v = VNative k /\ array_index k = None).
Proof.
  unfold object_prototype.
  destruct (String.eqb_spec k "__proto__") as [-> | Hne].
  - intros [= <-]. now left.
  - destruct (str_mem k object_prototype_functions) eqn:E; [| discriminate].
    intros [= <-]. right. repeat split; auto.
    now apply prototype_function_not_index.
Qed.

(** Text with a character that no number contains. *)

Lemma has_never_numeric_app (s t : string) :
  has_never_numeric s = true -> has_never_numeric (String.append s t) = true.
Proof.
  induction s as [| c s IH]; simpl; [discriminate |].
  destruct (never_numeric c); simpl; auto.
Qed.

Lemma native_source_never_numeric (k : string) :
  has_never_numeric (native_source k) = true.
Proof. reflexivity. Qed.

Lemma has_never_numeric_nonempty (s : string) :
  has_never_numeric s = true -> String.eqb s "" = false.
Proof. destruct s; [discriminate | reflexivity]. Qed.

(** ** The enumeration order of keys *)

Lemma keys_insert_new {A} (k : string) (a : A) (o : jsobj A) :
  keys (insert_new k a o) = insert_key k (keys o).
Proof.
  induction o as [| [k' a'] o IH]; simpl; [reflexivity |].
  destruct (key_before k k'); simpl; [reflexivity | now rewrite IH].
Qed.

Lemma insert_new_perm {A} (k : string) (a : A) (o : jsobj A) :
  Permutation (insert_new k a o) ((k, a) :: o).
Proof.
  induction o as [| [k' a'] o IH]; simpl; [apply Permutation_refl |].
  destruct (key_before k k'); [apply Permutation_refl |].
  eapply Permutation_trans; [apply perm_skip, IH | apply perm_swap].
Qed.

Lemma insert_key_perm (k : string) (ks : list string) :
  Permutation (insert_key k ks) (k :: ks).
Proof.
  induction ks as [| k' ks IH]; simpl; [apply Permutation_refl |].
  destruct (key_before k k'); [apply Permutation_refl |].
  eapply Permutation_trans; [apply perm_skip, IH | apply perm_swap].
Qed.

Lemma insert_key_last (k : string) (ks : list string) :
  array_index k = None -> insert_key k ks = ks ++ [k].
Proof.
  intros H. induction ks as [| k' ks IH]; simpl; [reflexivity |].
  unfold key_before. rewrite H. now rewrite IH.
Qed.

Lemma insert_key_app (k : string) (idx strs : list string) :
  is_index k = true ->
  Forall (fun x => is_index x = false) strs ->
  insert_key k (idx ++ strs) = insert_key k idx ++ strs.
Proof.
  intros Hk Hs. induction idx as [| x idx IH]; simpl.
  - destruct strs as [| s strs]; [reflexivity |]. simpl.
    inversion Hs as [| ? ? Hs0 _]; subst.
    unfold key_before, is_index in *.
    destruct (array_index k); [| discriminate].
    destruct (array_index s); [discriminate | reflexivity].
  - destruct (key_before k x); [reflexivity | now rewrite IH].
Qed.

Lemma insert_key_sorted (k : string) (idx : list string) :
  is_index k = true ->
  Forall (fun x => is_index x = true) idx ->
  StronglySorted index_le idx ->
  StronglySorted index_le (insert_key k idx).
Proof.
  intros Hk Hidx Hs. induction Hs as [| y l Hl IH Hy]; simpl.
  - constructor; constructor.
  - inversion Hidx as [| ? ? Hyi Hli]; subst.
    unfold is_index in Hk, Hyi.
    destruct (array_index k) as [i |] eqn:Ek; [| discriminate].
    destruct (array_index y) as [j |] eqn:Ey; [| discriminate].
    unfold key_before. rewrite Ek, Ey.
    destruct (N.ltb_spec i j) as [Hij | Hij].
    + constructor; [now constructor |].
      constructor.
      * unfold index_le. rewrite Ek, Ey. lia.
      * eapply Forall_impl; [| exact Hy].
        intros z Hz. unfold index_le in *. rewrite Ek. rewrite Ey in Hz.
        destruct (array_index z); [lia | exact Hz].
    + constructor; [now apply IH |].
      apply Forall_forall. intros z Hz.
      apply (Permutation_in _ (insert_key_perm k l)) in Hz.
      destruct Hz as [<- | Hz].
      * unfold index_le. rewrite Ek, Ey. exact Hij.
      * now apply (proj1 (Forall_forall _ _) Hy).
Qed.

Lemma in_first_occurrences (x : string) (l : list string) :
  In x (first_occurrences l) <-> In x l.
Proof.
  induction l as [| y l IH]; simpl; [tauto |].
  rewrite filter_In, IH.
  destruct (String.eqb_spec y x) as [-> | Hne]; simpl; intuition congruence.
Qed.

Lemma first_occurrences_snoc (l : list string) (k : string) :
  first_occurrences (l ++ [k])
  = if str_mem k l then first_occurrences l else first_occurrences l ++ [k].
Proof.
  induction l as [| x l IH]; simpl; [reflexivity |].
  rewrite IH. unfold str_mem in *.
  destruct (String.eqb_spec k x) as [-> | Hne]; simpl.
  - destruct (existsb (String.eqb x) l); [reflexivity |].
    rewrite filter_app. simpl. rewrite String.eqb_refl. simpl.
    now rewrite app_nil_r.
  - destruct (existsb (String.eqb k) l); [reflexivity |].
    rewrite filter_app. simpl.
    destruct (String.eqb_spec x k); [congruence | reflexivity].
Qed.

Lemma str_mem_In (k : string) (l : list string) : str_mem k l = true <-> In k l.
Proof.
  unfold str_mem. rewrite existsb_exists. split.
  - intros (x & Hx & E). apply String.eqb_eq in E. now subst.
  - intros H. exists k. split; [exact H | apply String.eqb_refl].
Qed.

Lemma str_mem_filter (p : string -> bool) (k : string) (l : list string) :
  str_mem k (filter p l) = (p k && str_mem k l)%bool.
Proof.
  apply eq_true_iff_eq.
  rewrite andb_true_iff, !str_mem_In, filter_In. tauto.
Qed.

Lemma enumeration_of_nil : enumeration_of [] [].
Proof. exists [], []. repeat split; constructor. Qed.

Lemma enumeration_of_In (ids ks : list string) (x : string) :
  enumeration_of ids ks -> (In x ks <-> In x ids).
Proof.
  intros (idx & strs & -> & Hp & _ & ->).
  rewrite in_app_iff, in_first_occurrences, filter_In.
  split.
  - intros [H | [H _]]; [| exact H].
    apply (Permutation_in _ Hp), in_first_occurrences, filter_In in H. tauto.
  - intros H. destruct (is_index x) eqn:E; [left | right; split; auto].
    apply (Permutation_in _ (Permutation_sym Hp)), in_first_occurrences, filter_In.
    now split.
Qed.

(** Creating or overwriting a key keeps the enumeration in step. *)
Lemma enumeration_of_step (ids ks : list string) (k : string) :
  enumeration_of ids ks ->
  enumeration_of (ids ++ [k]) (if str_mem k ks then ks else insert_key k ks).
Proof.
  intros Henum.
  assert (str_mem k ks = str_mem k ids) as ->.
  { apply eq_true_iff_eq. rewrite !str_mem_In. now apply enumeration_of_In. }
  destruct Henum as (idx & strs & -> & Hp & Hs & ->).
  rewrite <- (app_nil_r (ids ++ [k])), <- app_assoc. cbn [app].
  unfold enumeration_of.
  rewrite !filter_app. cbn [filter].
  destruct (is_index k) eqn:Ek; cbn [negb]; rewrite !app_nil_r.
  - rewrite first_occurrences_snoc, str_mem_filter, Ek. cbn [andb].
    destruct (str_mem k ids) eqn:Em.
    + exists idx, (first_occurrences (filter (fun x => negb (is_index x)) ids)).
      repeat split; auto.
    + exists (insert_key k idx),
             (first_occurrences (filter (fun x => negb (is_index x)) ids)).
      split; [| split; [| split; [| reflexivity]]].
      * apply insert_key_app; [exact Ek |].
        apply Forall_forall. intros x Hx.
        apply in_first_occurrences, filter_In in Hx.
        now apply negb_true_iff.
      * eapply Permutation_trans; [apply insert_key_perm |].
        eapply Permutation_trans; [apply perm_skip, Hp |].
        apply Permutation_cons_append.
      * apply insert_key_sorted; auto.
        apply Forall_forall. intros x Hx.
        apply (Permutation_in _ Hp), in_first_occurrences, filter_In in Hx.
        tauto.
  - rewrite first_occurrences_snoc, str_mem_filter, Ek. cbn [negb andb].
    destruct (str_mem k ids) eqn:Em.
    + exists idx, (first_occurrences (filter (fun x => negb (is_index x)) ids)).
      repeat split; auto.
    + exists idx,
             (first_occurrences (filter (fun x => negb (is_index x)) ids) ++ [k]).
      split; [| repeat split; auto].
      rewrite insert_key_last, app_assoc; [reflexivity |].
      unfold is_index in Ek. now destruct (array_index k).
Qed.

(** ** The election: what createElection builds *)

Section ElectionFacts.
Import Election.

Lemma Forall_replace_own {A} (Q : string * A -> Prop) (k : string) (a : A) (o : jsobj A) :
  Forall Q o -> Q (k, a) -> Forall Q (replace_own k a o).
Proof.
  intros Ho Hq. induction Ho as [| [k' a'] o Hk Ho IH]; simpl; [constructor |].
  destruct (String.eqb_spec k k') as [<- | Hne]; constructor; auto.
Qed.

Lemma get_field_id_spread (c : value) (k : string) :
  get_field c f_id = VStr k -> own_get (spread c) "id" = Some (VStr k).
Proof.
  destruct c; simpl; try discriminate.
  destruct (own_get props0 "id"); [congruence | discriminate].
Qed.

Lemma add_candidate_built (c : value) (ids : list string)
      (cm cm' : jsobj props) (vs vs' : jsobj value) :
  built ids cm vs ->
  add_candidate c cm vs = Some (cm', vs') ->
  built (ids ++ match candidate_key c with Some k => [k] | None => [] end) cm' vs'.
Proof.
  intros [Hk Hz Hnd Hid He]. unfold add_candidate, candidate_key.
  destruct (truthy c && truthy (get_field c f_id))%bool eqn:Ec.
  2:{ intros [= <- <-]. rewrite app_nil_r. now constructor. }
  destruct (get_field c f_id) as [| | | | k | | | | |] eqn:Ef; try discriminate.
  cbn [to_property_key]. unfold obj_set.
  pose proof (enumeration_of_step ids (keys cm) k He) as He'.
  destruct (own_get cm k) as [old |] eqn:Ecm.
  - assert (In k (keys cm)) as Hin.
    { destruct (own_get_None cm k) as [_ H].
      destruct (in_dec string_dec k (keys cm)); [assumption |].
      rewrite H in Ecm by assumption. discriminate. }
    destruct (own_get_In vs k) as (z & ->); [now rewrite Hk |].
    intros [= <- <-].
    rewrite (proj2 (str_mem_In k (keys cm)) Hin) in He'.
    constructor; rewrite ?keys_replace_own; auto.
    + now apply Forall_replace_own.
    + apply Forall_replace_own; [assumption |]. now apply get_field_id_spread.
  - destruct (String.eqb k "__proto__"); [discriminate |].
    assert (~ In k (keys cm)) as Hnin by now apply own_get_None.
    assert (own_get vs k = None) as -> by (apply own_get_None; now rewrite Hk).
    intros [= <- <-].
    assert (str_mem k (keys cm) = false) as Em.
    { destruct (str_mem k (keys cm)) eqn:E; [| reflexivity].
      apply str_mem_In in E. contradiction. }
    rewrite Em in He'.
    constructor; rewrite ?keys_insert_new; auto.
    + now rewrite Hk.
    + apply (Permutation_Forall (Permutation_sym (insert_new_perm _ _ _))).
      now constructor.
    + apply (Permutation_NoDup (Permutation_sym (insert_key_perm _ _))).
      now constructor.
    + apply (Permutation_Forall (Permutation_sym (insert_new_perm _ _ _))).
      constructor; [| assumption]. now apply get_field_id_spread.
Qed.

Lemma add_candidates_built (cs : list value) :
  forall (ids : list string) (cm cm' : jsobj props) (vs vs' : jsobj value),
    built ids cm vs ->
    add_candidates cs cm vs = Some (cm', vs') ->
    built (ids ++ flat_map (fun c => match candidate_key c with
                                     | Some k => [k] | None => [] end) cs)
          cm' vs'.
Proof.
  induction cs as [| c cs IH]; intros ids cm cm' vs vs' Hb; simpl.
  - intros [= <- <-]. now rewrite app_nil_r.
  - destruct (add_candidate c cm vs) as [[cm1 vs1] |] eqn:E; [| discriminate].
    intros H. rewrite app_assoc.
    eapply IH; [| exact H]. eapply add_candidate_built; eauto.
Qed.

(** A fresh election: one zero count per candidate, the candidates in
    enumeration order, nobody registered, nobody has voted. *)
Lemma createElection_built (candidates : value) (st : election) :
  createElection candidates = Some st ->
  built (candidate_ids candidates) (candidateMap st) (votes st)
  /\ registered st = [] /\ voted st = [].
Proof.
  unfold createElection.
  set (cs := match candidates with VArr _ l => l | _ => [] end).
  destruct (add_candidates cs [] []) as [[cm vs] |] eqn:E; [| discriminate].
  intros [= <-]. cbn. split; [| split; reflexivity].
  replace (candidate_ids candidates)
    with ([] ++ flat_map (fun c => match candidate_key c with
                                   | Some k => [k] | None => [] end) cs)
    by (unfold candidate_ids, cs; now destruct candidates).
  eapply add_candidates_built; [| exact E].
  constructor; try constructor. apply enumeration_of_nil.
Qed.

Lemma count_cell_zero : count_cell (VNum (Fin 0)).
Proof. now exists 0%nat. Qed.

Lemma createElection_consistent (candidates : value) (st : election) :
  createElection candidates = Some st -> consistent st.
Proof.
  intros H. destruct (createElection_built _ _ H) as ([Hk Hz Hnd Hid He] & Hr & Hv).
  constructor; auto.
  - exists (votes st), []. rewrite app_nil_r. repeat split; auto.
    eapply Forall_impl; [| exact Hz]. intros kv ->. apply count_cell_zero.
  - rewrite Hv. discriminate.
Qed.

(** *** Sets *)

Lemma num_same_refl (n : number) : num_same n n = true.
Proof.
  destruct n as [| [] | z]; simpl; auto. apply Z.eqb_refl.
Qed.

Lemma num_same_sym (n m : number) : num_same n m = num_same m n.
Proof.
  destruct n as [| [] | x], m as [| [] | y]; simpl; auto. apply Z.eqb_sym.
Qed.

Lemma same_value_zero_refl (v : value) : same_value_zero v v = true.
Proof.
  destruct v; simpl; auto using num_same_refl, String.eqb_refl, N.eqb_refl.
  now destruct b.
Qed.

Lemma same_value_zero_sym (v w : value) : same_value_zero v w = same_value_zero w v.
Proof.
  destruct v, w; simpl; auto using num_same_sym, String.eqb_sym, N.eqb_sym.
  now destruct b, b0.
Qed.

Lemma set_has_app (s t : list value) (v : value) :
  set_has (s ++ t) v = (set_has s v || set_has t v)%bool.
Proof. apply existsb_app. Qed.

Lemma same_value_zero_trans (a b c : value) :
  same_value_zero a b = true -> same_value_zero b c = true ->
  same_value_zero a c = true.
Proof.
  intros Hab Hbc.
  destruct a, b; try discriminate; destruct c; try discriminate; simpl in *;
    repeat match goal with
      | H : Bool.eqb _ _ = true |- _ => apply Bool.eqb_prop in H; subst
      | H : String.eqb _ _ = true |- _ => apply String.eqb_eq in H; subst
      | H : N.eqb _ _ = true |- _ => apply N.eqb_eq in H; subst
      end;
    auto using String.eqb_refl, N.eqb_refl, eqb_reflx.
  destruct n as [| [] | x], n0 as [| [] | y]; try discriminate;
    destruct n1 as [| [] | z]; try discriminate; simpl in *; auto.
  apply Z.eqb_eq in Hab, Hbc. subst. apply Z.eqb_refl.
Qed.

Lemma set_has_same (s : list value) (v w : value) :
  same_value_zero v w = true -> set_has s w = true -> set_has s v = true.
Proof.
  unfold set_has. rewrite !existsb_exists.
  intros Hvw (y & Hy & Hwy). exists y. split; [exact Hy |].
  now apply same_value_zero_trans with w.
Qed.

Lemma set_has_add (s : list value) (x v : value) :
  set_has (set_add s x) v = (set_has s v || same_value_zero v x)%bool.
Proof.
  unfold set_add. destruct (set_has s x) eqn:E.
  - destruct (same_value_zero v x) eqn:Evx; [| now rewrite orb_false_r].
    rewrite orb_true_r. now apply set_has_same with x.
  - rewrite set_has_app. simpl. now rewrite orb_false_r.
Qed.

Lemma is_set_add (s : list value) (x : value) : is_set s -> is_set (set_add s x).
Proof.
  unfold set_add. destruct (set_has s x) eqn:E; [auto |].
  intros Hs. unfold is_set in *.
  induction Hs as [| a l Ha Hl IH]; simpl.
  - constructor; constructor.
  - simpl in E. apply orb_false_iff in E. destruct E as [Exa Exl].
    constructor; [| now apply IH].
    apply Forall_app. split; [exact Ha |].
    constructor; [| constructor]. now rewrite same_value_zero_sym.
Qed.

(** *** The cells of votes under [+ 1] *)

Lemma bump_count (v : value) :
  count_cell v ->
  js_add (js_or v (VNum (Fin 0))) (VNum (Fin 1)) = Some (VNum (Fin (cell_number v + 1)))
  /\ count_cell (VNum (Fin (cell_number v + 1))).
Proof.
  intros (n & ->). split.
  - unfold js_or. simpl. destruct (Z.of_nat n =? 0) eqn:E; simpl; [| reflexivity].
    apply Z.eqb_eq in E. now rewrite E.
  - exists (S n). simpl cell_number. do 2 f_equal. lia.
Qed.

Lemma bump_text (v : value) :
  text_cell v ->
  exists s', js_add (js_or v (VNum (Fin 0))) (VNum (Fin 1)) = Some (VStr s')
             /\ has_never_numeric s' = true.
Proof.
  intros (s & -> & Hs). exists (String.append s "1"). split.
  - unfold js_or. simpl. now rewrite (has_never_numeric_nonempty s Hs).
  - now apply has_never_numeric_app.
Qed.

Lemma bump_inherited (k : string) (v : value) :
  object_prototype k = Some v ->
  exists s', js_add (js_or v (VNum (Fin 0))) (VNum (Fin 1)) = Some (VStr s')
             /\ has_never_numeric s' = true.
Proof.
  intros H. apply object_prototype_cases in H.
  destruct H as [(-> & ->) | (_ & -> & _)].
  - eexists. split; reflexivity.
  - exists (String.append (native_source k) "1"). split; reflexivity.
Qed.

(** *** What a recorded vote does to [votes] *)

Lemma Forall_snd_own_get {A} (Q : A -> Prop) (o : jsobj A) (k : string) (a : A) :
  Forall (fun kv => Q (snd kv)) o -> own_get o k = Some a -> Q a.
Proof.
  intros Ho Hk. apply own_get_Some_In in Hk.
  now apply (proj1 (Forall_forall _ _) Ho (k, a)).
Qed.

Lemma cast_updates (st : election) (k : string) :
  consistent st ->
  found (obj_get (candidateMap st) k) = true ->
  exists v votes',
    js_add (js_or (read_value (obj_get (votes st) k)) (VNum (Fin 0))) (VNum (Fin 1))
    = Some v
    /\ obj_set object_or_null (votes st) k v = Some votes'
    /\ (exists counts texts,
          votes' = counts ++ texts
          /\ keys counts = keys (candidateMap st)
          /\ Forall (fun kv => count_cell (snd kv)) counts
          /\ Forall (fun kv => text_cell (snd kv)) texts)
    /\ (forall k', known st k' ->
          exists c c',
            own_get (votes st) k' = Some c /\ own_get votes' k' = Some c'
            /\ cell_number c' = cell_number c + (if String.eqb k' k then 1 else 0)).
Proof.
  intros [(counts & texts & Hv & Hk & Hc & Ht) Hnd _ _] Hf.
  assert (forall k', known st k' -> exists c, own_get counts k' = Some c) as Hown.
  { intros k' Hk'. apply own_get_In. now rewrite Hk. }
  unfold obj_get in *. rewrite Hv, own_get_app. unfold obj_set. rewrite own_get_app.
  destruct (own_get (candidateMap st) k) as [c |] eqn:Ecm.
  - (* a candidate *)
    assert (known st k) as Hkn.
    { unfold known. destruct (in_dec string_dec k (keys (candidateMap st))); auto.
      apply own_get_None in n. congruence. }
    destruct (Hown k Hkn) as (cell & Ecell). rewrite Ecell. cbn [read_value].
    destruct (bump_count cell (Forall_snd_own_get _ _ _ _ Hc Ecell)) as (Hadd & Hcc).
    rewrite Hadd. do 2 eexists. split; [reflexivity |]. split; [reflexivity |].
    rewrite replace_own_app_l by (rewrite Hk; exact Hkn).
    split.
    + exists (replace_own k (VNum (Fin (cell_number cell + 1))) counts), texts.
      rewrite keys_replace_own. repeat split; auto.
      now apply Forall_replace_own.
    + intros k' Hk'. destruct (Hown k' Hk') as (c0 & Ec0).
      rewrite !own_get_app, own_get_replace_own, Ec0, Ecell. cbn [is_some].
      rewrite andb_true_r.
      destruct (String.eqb_spec k' k) as [-> | Hne].
      * exists c0, (VNum (Fin (cell_number cell + 1))).
        repeat split. simpl. congruence.
      * exists c0, c0. repeat split. lia.
  - (* a member of Object.prototype *)
    destruct (object_prototype k) as [pv |] eqn:Ep; [| discriminate].
    assert (~ In k (keys counts)) as Hnk.
    { rewrite Hk. now apply own_get_None. }
    rewrite (proj2 (own_get_None counts k) Hnk).
    assert (forall k' (x : value), known st k' ->
              exists c, own_get (counts ++ texts) k' = Some c
                        /\ own_get (counts ++ replace_own k x texts) k' = Some c
                        /\ own_get ((counts ++ texts) ++ [(k, x)]) k' = Some c) as Hsame.
    { intros k' x Hk'. destruct (Hown k' Hk') as (c0 & Ec0).
      exists c0. rewrite !own_get_app, Ec0. auto. }
    destruct (own_get texts k) as [cell |] eqn:Et.
    + cbn [read_value].
      destruct (bump_text cell (Forall_snd_own_get _ _ _ _ Ht Et)) as (s' & Hadd & Hs').
      rewrite Hadd. do 2 eexists. split; [reflexivity |]. split; [reflexivity |].
      rewrite replace_own_app_r by exact Hnk.
      split.
      * exists counts, (replace_own k (VStr s') texts). repeat split; auto.
        apply Forall_replace_own; [exact Ht |]. now exists s'.
      * intros k' Hk'. destruct (Hsame k' (VStr s') Hk') as (c0 & E1 & E2 & _).
        exists c0, c0.
        split; [exact E1 |]. split; [exact E2 |].
        destruct (String.eqb_spec k' k) as [-> | _]; [| lia].
        exfalso. apply Hnk. rewrite Hk. exact Hk'.
    + cbn [read_value].
      destruct (bump_inherited k pv Ep) as (s' & Hadd & Hs').
      rewrite Hadd. cbn [object_or_null typeof String.eqb Ascii.eqb Bool.eqb orb].
      destruct (object_prototype_cases k pv Ep) as [(-> & _) | (Hne & _ & Hidx)].
      * cbn [String.eqb Ascii.eqb Bool.eqb].
        do 2 eexists. split; [reflexivity |]. split; [reflexivity |].
        split.
        -- exists counts, texts. repeat split; auto.
        -- intros k' Hk'. destruct (Hsame k' VNull Hk') as (c0 & E1 & _).
           exists c0, c0. repeat split; auto.
           destruct (String.eqb_spec k' "__proto__") as [-> | _]; [| lia].
           exfalso. apply Hnk. rewrite Hk. exact Hk'.
      * apply String.eqb_neq in Hne. rewrite Hne.
        do 2 eexists. split; [reflexivity |]. split; [reflexivity |].
        rewrite insert_new_last by exact Hidx.
        split.
        -- exists counts, (texts ++ [(k, VStr s')]).
           rewrite app_assoc. repeat split; auto.
           apply Forall_app. split; [exact Ht |].
           constructor; [now exists s' | constructor].
        -- intros k' Hk'. destruct (Hsame k' (VStr s') Hk') as (c0 & E1 & _ & E3).
           exists c0, c0.
           split; [exact E1 |]. split; [exact E3 |].
           destruct (String.eqb_spec k' k) as [-> | _]; [| lia].
           exfalso. apply Hnk. rewrite Hk. exact Hk'.
Qed.

(** *** The two calls keep the state consistent *)

Lemma found_iff (st : election) (k : string) :
  found (obj_get (candidateMap st) k) = true
  <-> known st k \/ inherited_only st k = true.
Proof.
  unfold obj_get, inherited_only, known.
  destruct (own_get (candidateMap st) k) as [c |] eqn:E.
  - split; [intros _; left | reflexivity].
    destruct (in_dec string_dec k (keys (candidateMap st))) as [| n]; auto.
    apply own_get_None in n. congruence.
  - apply own_get_None in E.
    destruct (object_prototype k) as [pv |] eqn:Ep; simpl.
    + split; [now right |]. intros _.
      apply object_prototype_cases in Ep.
      destruct Ep as [(_ & ->) | (_ & -> & _)]; reflexivity.
    + split; [discriminate | intros [H | H]; [contradiction | discriminate]].
Qed.

Lemma registerVoter_consistent (st : election) (voter : value) :
  consistent st -> consistent (snd (registerVoter st voter)).
Proof.
  intros Hc. unfold registerVoter.
  match goal with |- context [if ?b then _ else _] => destruct b end;
    [exact Hc |].
  destruct Hc as [Hv Hnd Hid Hvoted]. constructor; auto.
  cbn [snd voted registered]. intros v H. rewrite set_has_add, (Hvoted v H). reflexivity.
Qed.

Ltac error_case Hc :=
  eexists; split; [reflexivity |]; cbn [after invoked returned];
  split; [exact Hc |]; split; [reflexivity |]; split; [reflexivity |];
  right; eexists; split; [reflexivity |]; split; [reflexivity |];
  split; [reflexivity |].

(** The behaviour of [castVote] on a consistent state: it returns, having
    invoked one handler once, and returns what that handler returned.  The
    success handler is the one invoked exactly when the voter is
    registered, has not voted, and [candidateId] is a candidate or the name
    of a member of [Object.prototype]; otherwise the error handler gets the
    first reason that applies. *)
Lemma castVote_spec (st : election) (v : value) (k : string)
      (onSuccess : handler ballot) (onError : handler string) :
  consistent st ->
  exists r,
    castVote st v k onSuccess onError = Some r
    /\ consistent (after r)
    /\ candidateMap (after r) = candidateMap st
    /\ registered (after r) = registered st
    /\ ((set_has (registered st) v = true
         /\ (known st k \/ inherited_only st k = true)
         /\ set_has (voted st) v = false
         /\ invoked r = [SuccessCalled (mkBallot v k)]
         /\ returned r = or_noop onSuccess (mkBallot v k)
         /\ voted (after r) = voted st ++ [v]
         /\ (forall k', known st k' ->
               cell_number (count_of (after r) k')
               = cell_number (count_of st k') + (if String.eqb k' k then 1 else 0)))
        \/ (exists reason,
              invoked r = [ErrorCalled reason]
              /\ returned r = or_noop onError reason
              /\ after r = st
              /\ ((set_has (registered st) v = false
                   /\ reason = "voter_not_registered")
                  \/ (set_has (registered st) v = true
                      /\ ~ known st k /\ inherited_only st k = false
                      /\ reason = "candidate_not_found")
                  \/ (set_has (registered st) v = true
                      /\ (known st k \/ inherited_only st k = true)
                      /\ set_has (voted st) v = true
                      /\ reason = "already_voted")))).
Proof.
  intros Hc. unfold castVote.
  destruct (set_has (registered st) v) eqn:Er; cbn [negb].
  2:{ error_case Hc. left. auto. }
  destruct (found (obj_get (candidateMap st) k)) eqn:Ef; cbn [negb].
  2:{ error_case Hc. right; left.
      assert (~ (known st k \/ inherited_only st k = true)) as Hn.
      { intros H. apply found_iff in H. congruence. }
      split; [reflexivity |]. split; [tauto |]. split; [| reflexivity].
      destruct (inherited_only st k); [exfalso; auto | reflexivity]. }
  apply found_iff in Ef.
  destruct (set_has (voted st) v) eqn:Ev.
  { error_case Hc. right; right. auto. }
  destruct (cast_updates st k Hc (proj2 (found_iff st k) Ef))
    as (x & votes' & -> & -> & Hsplit & Hcounts).
  eexists. split; [reflexivity |].
  cbn [after invoked returned candidateMap registered voted].
  split; [| split; [reflexivity | split; [reflexivity |]]].
  - destruct Hc as [_ Hnd Hid Hvoted]. constructor; auto.
    cbn [voted registered]. intros w. rewrite set_has_add. intros H.
    apply orb_true_iff in H. destruct H as [H | H]; [auto |].
    now apply set_has_same with v.
  - left. split; [reflexivity |]. split; [exact Ef |]. split; [reflexivity |].
    split; [reflexivity |]. split; [reflexivity |]. split.
    + unfold set_add. now rewrite Ev.
    + intros k' Hk'. destruct (Hcounts k' Hk') as (c & c' & E1 & E2 & E3).
      unfold count_of, obj_get. cbn [votes]. now rewrite E1, E2.
Qed.

Lemma step_consistent (st st' : election) (c : call) :
  consistent st -> step st c = Some st' ->
  consistent st' /\ candidateMap st' = candidateMap st.
Proof.
  intros Hc. destruct c as [voter | v k s e]; simpl.
  - intros [= <-]. split; [now apply registerVoter_consistent |].
    unfold registerVoter.
    match goal with |- context [if ?b then _ else _] => destruct b end; reflexivity.
  - destruct (castVote_spec st v k s e Hc) as (r & -> & Hr & Hm & _).
    intros [= <-]. auto.
Qed.

Lemma step_defined (st : election) (c : call) :
  consistent st -> exists st', step st c = Some st'.
Proof.
  intros Hc. destruct c as [voter | v k s e]; simpl; [eauto |].
  destruct (castVote_spec st v k s e Hc) as (r & -> & _). eauto.
Qed.

Lemma run_consistent (cs : list call) :
  forall st st', consistent st -> run st cs = Some st' ->
                 consistent st' /\ candidateMap st' = candidateMap st.
Proof.
  induction cs as [| c cs IH]; intros st st' Hc; simpl.
  - intros [= <-]. auto.
  - destruct (step st c) as [st1 |] eqn:E; [| discriminate].
    destruct (step_consistent _ _ _ Hc E) as (Hc1 & Hm1).
    intros H. destruct (IH _ _ Hc1 H) as (Hc' & Hm'). split; congruence.
Qed.

(** Whatever the calls, they all return. *)
Lemma run_defined (cs : list call) :
  forall st, consistent st -> exists st', run st cs = Some st'.
Proof.
  induction cs as [| c cs IH]; intros st Hc; simpl; [eauto |].
  destruct (step_defined st c Hc) as (st1 & E). rewrite E.
  apply IH. now apply (step_consistent _ _ _ Hc E).
Qed.

Lemma reachable_consistent (candidates : value) (st : election) :
  reachable candidates st ->
  consistent st /\ enumeration_of (candidate_ids candidates) (keys (candidateMap st)).
Proof.
  intros (st0 & cs & H0 & Hrun).
  destruct (run_consistent cs st0 st (createElection_consistent _ _ H0) Hrun)
    as (Hc & Hm).
  split; [exact Hc |]. rewrite Hm.
  now destruct (createElection_built _ _ H0) as ([_ _ _ _ He] & _).
Qed.

(** *** getWinner *)

Lemma known_count (st : election) (id : string) :
  consistent st -> known st id ->
  exists n : nat, count_of st id = VNum (Fin (Z.of_nat n)).
Proof.
  intros [(counts & texts & Hv & Hk & Hc & _) _ _ _] Hid.
  unfold count_of, obj_get. rewrite Hv, own_get_app.
  destruct (own_get_In counts id) as (c & Ec); [now rewrite Hk |].
  rewrite Ec. simpl. exact (Forall_snd_own_get _ _ _ _ Hc Ec).
Qed.

Lemma js_lt_text (m : number) (v : value) :
  text_cell v -> js_lt (VNum m) v = Some false.
Proof.
  intros (s & -> & Hs). unfold js_lt. simpl. unfold string_to_number.
  rewrite Hs. now destruct m as [| [] | z].
Qed.

Lemma winner_loop_texts (cm : jsobj props) (texts : jsobj value)
      (w : option (read props)) (m : number) :
  Forall (fun kv => text_cell (snd kv)) texts ->
  winner_loop cm texts w (VNum m) = Some (w, VNum m).
Proof.
  induction 1 as [| [k v] texts Hv _ IH]; simpl; [reflexivity |].
  now rewrite (js_lt_text m v Hv).
Qed.

Lemma winner_loop_counts (cm : jsobj props) (rest : jsobj value) (counts : jsobj value) :
  Forall (fun kv => count_cell (snd kv)) counts ->
  forall (w : option (read props)) (m : Z),
  exists w' m',
    winner_loop cm (counts ++ rest) w (VNum (Fin m))
    = winner_loop cm rest w' (VNum (Fin m'))
    /\ ((Forall (fun kv => cell_number (snd kv) <= m) counts /\ w' = w /\ m' = m)
        \/ (exists l1 k c l2,
              counts = l1 ++ (k, c) :: l2
              /\ cell_number c = m' /\ m < m'
              /\ Forall (fun kv => cell_number (snd kv) < m') l1
              /\ Forall (fun kv => cell_number (snd kv) <= m') l2
              /\ w' = Some (obj_get cm k))).
Proof.
  induction 1 as [| [k v] counts (n & Hv) _ IH]; intros w m.
  - exists w, m. split; [reflexivity |]. left. auto.
  - simpl in Hv. subst v. cbn [app winner_loop].
    change (js_lt (VNum (Fin m)) (VNum (Fin (Z.of_nat n))))
      with (Some (Z.ltb m (Z.of_nat n))).
    destruct (Z.ltb_spec m (Z.of_nat n)) as [Hlt | Hge].
    + destruct (IH (Some (obj_get cm k)) (Z.of_nat n))
        as (w' & m' & -> & [(Hall & -> & ->) | (l1 & k2 & c2 & l2 & -> & Hc & Hm & H1 & H2 & ->)]).
      * do 2 eexists. split; [reflexivity |]. right.
        exists [], k, (VNum (Fin (Z.of_nat n))), counts. repeat split; auto.
      * do 2 eexists. split; [reflexivity |]. right.
        exists ((k, VNum (Fin (Z.of_nat n))) :: l1), k2, c2, l2.
        repeat split; auto; try lia;
          try (constructor; [simpl; lia | exact H1]).
    + destruct (IH w m)
        as (w' & m' & -> & [(Hall & -> & ->) | (l1 & k2 & c2 & l2 & -> & Hc & Hm & H1 & H2 & ->)]).
      * do 2 eexists. split; [reflexivity |]. left. repeat split; auto.
      * do 2 eexists. split; [reflexivity |]. right.
        exists ((k, VNum (Fin (Z.of_nat n))) :: l1), k2, c2, l2.
        repeat split; auto; try lia;
          try (constructor; [simpl; lia | exact H1]).
Qed.

Lemma votes_for_entry (st : election) (counts texts : jsobj value) (k : string) (c : value) :
  votes st = counts ++ texts -> NoDup (keys counts) -> In (k, c) counts ->
  votes_for st k = cell_number c.
Proof.
  intros Hv Hnd Hin. unfold votes_for, count_of, obj_get.
  rewrite Hv, own_get_app, (own_get_NoDup counts k c Hnd Hin). reflexivity.
Qed.

(** [getWinner] on a consistent state. *)
Lemma getWinner_consistent (st : election) :
  consistent st ->
  ((forall id, known st id -> votes_for st id = 0) /\ getWinner st = Some None)
  \/ (exists before id later c,
        keys (candidateMap st) = before ++ id :: later
        /\ own_get (candidateMap st) id = Some c
        /\ 0 < votes_for st id
        /\ (forall x, In x before -> votes_for st x < votes_for st id)
        /\ (forall x, In x later -> votes_for st x <= votes_for st id)
        /\ getWinner st = Some (Some c)).
Proof.
  intros Hc. pose proof Hc as [(counts & texts & Hv & Hk & Hcc & Htt) Hnd _ _].
  assert (NoDup (keys counts)) as Hndc by now rewrite Hk.
  unfold getWinner. rewrite Hv.
  destruct (winner_loop_counts (candidateMap st) texts counts Hcc None 0)
    as (w' & m' & -> & [(Hall & -> & ->) | (l1 & k & c & l2 & -> & Hcm & Hm & H1 & H2 & ->)]);
    rewrite (winner_loop_texts _ _ _ _ Htt).
  - left. split; [| reflexivity].
    intros id Hid. destruct (known_count st id Hc Hid) as (n & Hn).
    assert (votes_for st id = Z.of_nat n) as E1
        by (unfold votes_for; now rewrite Hn).
    unfold known in Hid. rewrite <- Hk in Hid.
    apply in_map_iff in Hid. destruct Hid as ([k c] & Hfst & Hin).
    simpl in Hfst. subst k.
    pose proof (votes_for_entry st counts texts id c Hv Hndc Hin) as E2.
    pose proof (proj1 (Forall_forall _ _) Hall _ Hin) as E3.
    simpl in E3. lia.
  - right.
    assert (forall x y, In (x, y) (l1 ++ (k, c) :: l2) -> votes_for st x = cell_number y) as Hvf.
    { intros x y. now apply votes_for_entry with texts. }
    assert (votes_for st k = m') as Hvk.
    { rewrite (Hvf k c); [exact Hcm |]. apply in_elt. }
    destruct (own_get_In (candidateMap st) k) as (cand & Ecand).
    { rewrite <- Hk, keys_app. apply in_or_app. right. now left. }
    exists (keys l1), k, (keys l2), cand.
    split; [now rewrite <- Hk, keys_app |].
    split; [exact Ecand |]. split; [lia |].
    split; [| split].
    + intros x Hx. apply in_map_iff in Hx. destruct Hx as ([x' y] & Hfst & Hin).
      simpl in Hfst. subst x'.
      rewrite (Hvf x y), Hvk by (apply in_or_app; now left).
      exact (proj1 (Forall_forall _ _) H1 _ Hin).
    + intros x Hx. apply in_map_iff in Hx. destruct Hx as ([x' y] & Hfst & Hin).
      simpl in Hfst. subst x'.
      rewrite (Hvf x y), Hvk by (apply in_or_app; right; now right).
      exact (proj1 (Forall_forall _ _) H2 _ Hin).
    + unfold strict_eq_number, num_strict_eqb. unfold obj_get. rewrite Ecand.
      destruct (Z.eqb_spec m' 0); [lia | reflexivity].
Qed.

Lemma reachable_tie_fresh : reachable tie_candidates tie_fresh.
Proof. exists tie_fresh, []. split; reflexivity. Qed.

Lemma reachable_tie_state : reachable tie_candidates tie_state.
Proof. exists tie_fresh, tie_calls. split; reflexivity. Qed.

(** *** getResults *)

Lemma insert_sorted_ext {A} (f g : A -> A -> number) (x : A) (l : list A) :
  (forall y, In y l -> f x y = g x y) ->
  insert_sorted f x l = insert_sorted g x l.
Proof.
  induction l as [| y l IH]; intros H; simpl; [reflexivity |].
  unfold comes_after. rewrite (H y) by now left.
  rewrite IH; [reflexivity |]. intros z Hz. apply H. now right.
Qed.

Lemma sort_by_ext {A} (f g : A -> A -> number) (l : list A) :
  (forall x y, In x l -> In y l -> f x y = g x y) ->
  sort_by f l = sort_by g l.
Proof.
  induction l as [| x l IH]; intros H; simpl; [reflexivity |].
  rewrite IH by (intros; apply H; now right).
  apply insert_sorted_ext. intros y Hy.
  apply (Permutation_in _ (sort_by_perm g l)) in Hy.
  apply H; [now left | now right].
Qed.

Lemma result_of_line (st : election) (entry : string * props) :
  consistent st -> In entry (candidateMap st) -> result_of st entry = line_of st entry.
Proof.
  intros Hc Hin. destruct entry as [k c]. unfold result_of, line_of. cbn [fst snd].
  f_equal.
  - pose proof (proj1 (Forall_forall _ _) (con_ids st Hc) _ Hin) as Hid.
    cbn [fst snd] in Hid. unfold prop_get, obj_get. now rewrite Hid.
  - assert (known st k) as Hk.
    { unfold known. change k with (fst (k, c)). now apply in_map. }
    destruct (known_count st k Hc Hk) as (n & Hn).
    unfold votes_for. fold (count_of st k). rewrite Hn.
    unfold js_or. simpl. destruct (Z.eqb_spec (Z.of_nat n) 0) as [-> | _]; reflexivity.
Qed.

Lemma results_lines (st : election) :
  consistent st ->
  map (result_of st) (candidateMap st) = map (line_of st) (candidateMap st).
Proof.
  intros Hc. apply map_ext_in. intros e He. now apply result_of_line.
Qed.

Lemma by_votes_desc_line (st : election) (a b : result) :
  In a (map (line_of st) (candidateMap st)) ->
  In b (map (line_of st) (candidateMap st)) ->
  by_votes_desc a b = Some (votes_desc a b).
Proof.
  intros Ha Hb. apply in_map_iff in Ha, Hb.
  destruct Ha as (ea & <- & _), Hb as (eb & <- & _).
  unfold by_votes_desc, votes_desc, line_votes, line_of. cbn.
  now rewrite Z.add_opp_r.
Qed.

Lemma votes_desc_after (a b : result) :
  comes_after votes_desc a b = Z.ltb (line_votes a) (line_votes b).
Proof.
  unfold comes_after, votes_desc. cbn.
  destruct (Z.ltb_spec 0 (line_votes b - line_votes a)),
           (Z.ltb_spec (line_votes a) (line_votes b)); auto; lia.
Qed.

(** The default comparator is consistent, on whatever lines. *)
Lemma votes_desc_consistent (l : list result) :
  consistent_comparator votes_desc l = true.
Proof.
  unfold consistent_comparator, cmp_eq, cmp_lt, comes_after, votes_desc.
  apply forallb_forall. intros a _. cbn [num_strict_eqb num_ltb is_nan negb].
  apply andb_true_iff. split; [apply Z.eqb_eq; lia |].
  apply forallb_forall. intros b _. cbn [andb].
  apply andb_true_iff. split.
  - destruct (Z.eqb_spec (line_votes b - line_votes a) 0),
             (Z.eqb_spec (line_votes a - line_votes b) 0); auto; lia.
  - apply forallb_forall. intros c _.
    destruct (Z.eqb_spec (line_votes b - line_votes a) 0),
             (Z.eqb_spec (line_votes c - line_votes b) 0),
             (Z.eqb_spec (line_votes c - line_votes a) 0),
             (Z.ltb_spec (line_votes b - line_votes a) 0),
             (Z.ltb_spec (line_votes c - line_votes b) 0),
             (Z.ltb_spec (line_votes c - line_votes a) 0),
             (Z.ltb_spec 0 (line_votes b - line_votes a)),
             (Z.ltb_spec 0 (line_votes c - line_votes b)),
             (Z.ltb_spec 0 (line_votes c - line_votes a)); auto; lia.
Qed.

Lemma getResults_default (st : election) :
  consistent st ->
  getResults st None = Some (sort_by votes_desc (map (line_of st) (candidateMap st))).
Proof.
  intros Hc. unfold getResults. rewrite (results_lines st Hc).
  set (lines := map (line_of st) (candidateMap st)).
  unfold sort_with.
  assert (defined_on by_votes_desc lines = true) as ->.
  { unfold defined_on. apply forallb_forall. intros a Ha.
    apply forallb_forall. intros b Hb.
    now rewrite (by_votes_desc_line st a b Ha Hb). }
  assert (forall a b, In a lines -> In b lines ->
            match by_votes_desc a b with Some n => n | None => NaN end
            = votes_desc a b) as Hext.
  { intros a b Ha Hb. now rewrite (by_votes_desc_line st a b Ha Hb). }
  unfold sort_consistent.
  rewrite (consistent_comparator_ext _ votes_desc lines Hext), votes_desc_consistent.
  f_equal. now apply sort_by_ext.
Qed.

Lemma lines_ids (st : election) :
  map r_id (map (line_of st) (candidateMap st)) = map VStr (keys (candidateMap st)).
Proof. unfold keys. rewrite !map_map. reflexivity. Qed.

(** C4, as amended.  In every state of an election, [getResults] with no
    comparator returns one line {id, name, party, votes} per candidate, in
    descending order of votes, the lines of equal votes in the enumeration
    order of the candidate map: the ids that are array indices in ascending
    numeric order, then the other ids in the order of their first
    insertion.  With a comparator that is consistent on the lines, the
    lines are sorted by it instead: no line comes after a later one, and
    the lines it holds equal keep the enumeration order. *)
Theorem getResults_spec (candidates : value) (st : election) :
  reachable candidates st ->
  let lines := map (line_of st) (candidateMap st) in
  enumeration_of (candidate_ids candidates) (keys (candidateMap st))
  /\ NoDup (keys (candidateMap st))
  /\ map r_id lines = map VStr (keys (candidateMap st))
  /\ (exists rs,
        getResults st None = Some rs
        /\ Permutation rs lines
        /\ StronglySorted (fun a b => line_votes a >= line_votes b) rs
        /\ (forall n, filter (fun r => Z.eqb (line_votes r) n) rs
                      = filter (fun r => Z.eqb (line_votes r) n) lines))
  /\ (forall sortFn : result -> result -> number,
        consistent_comparator sortFn lines = true ->
        exists rs,
          getResults st (Some sortFn) = Some rs
          /\ Permutation rs lines
          /\ StronglySorted (in_order sortFn) rs
          /\ (forall r, In r lines ->
                        filter (cmp_eq sortFn r) rs = filter (cmp_eq sortFn r) lines)).
Proof.
  intros Hr lines. destruct (reachable_consistent _ _ Hr) as (Hc & He).
  split; [exact He |]. split; [exact (con_nodup st Hc) |].
  split; [apply lines_ids |]. split.
  - exists (sort_by votes_desc lines).
    split; [now apply getResults_default |].
    split; [apply sort_by_perm |]. split.
    + apply StronglySorted_impl with (R := in_order votes_desc).
      * intros a b Hab. unfold in_order in Hab. rewrite votes_desc_after in Hab.
        apply Z.ltb_ge in Hab. lia.
      * apply sort_by_sorted.
        -- intros x y. rewrite !votes_desc_after, Z.ltb_lt, Z.ltb_ge. lia.
        -- intros x y z. rewrite !votes_desc_after, !Z.ltb_ge. lia.
    + intros n. apply sort_by_filter. intros x y Hx Hy.
      apply Z.eqb_eq in Hx, Hy. rewrite votes_desc_after. apply Z.ltb_ge. lia.
  - intros sortFn Hcons. exists (sort_by sortFn lines). split; [| split; [| split]].
    + unfold getResults, sort_consistent. rewrite (results_lines st Hc).
      fold lines. now rewrite Hcons.
    + apply sort_by_perm.
    + apply (sort_by_sorted_on sortFn lines Hcons). apply incl_refl.
    + intros r Hin. apply (sort_by_equals sortFn lines Hcons); [exact Hin |].
      apply incl_refl.
Qed.

Lemma getResults_spec_witness :
  let lines := map (line_of tie_state) (candidateMap tie_state) in
  enumeration_of (candidate_ids tie_candidates) (keys (candidateMap tie_state))
  /\ NoDup (keys (candidateMap tie_state))
  /\ map r_id lines = map VStr (keys (candidateMap tie_state))
  /\ (exists rs,
        getResults tie_state None = Some rs
        /\ Permutation rs lines
        /\ StronglySorted (fun a b => line_votes a >= line_votes b) rs
        /\ (forall n, filter (fun r => Z.eqb (line_votes r) n) rs
                      = filter (fun r => Z.eqb (line_votes r) n) lines))
  /\ (forall sortFn : result -> result -> number,
        consistent_comparator sortFn lines = true ->
        exists rs,
          getResults tie_state (Some sortFn) = Some rs
          /\ Permutation rs lines
          /\ StronglySorted (in_order sortFn) rs
          /\ (forall r, In r lines ->
                        filter (cmp_eq sortFn r) rs = filter (cmp_eq sortFn r) lines)).
Proof.
  apply (getResults_spec tie_candidates tie_state).
  exists tie_fresh, tie_calls. split; reflexivity.
Defined.

(** The candidates "2" and "1", inserted in that order and without a
    vote: the results list "1" before "2". *)
Lemma getResults_order_counterexample :
  reachable tie_candidates tie_fresh
  /\ candidate_ids tie_candidates = ["2"; "1"]
  /\ getResults tie_fresh None
     = Some [ mkResult (VStr "1") (VStr "Sita") (VStr "Lok") (VNum (Fin 0));
              mkResult (VStr "2") (VStr "Ram") (VStr "Janata") (VNum (Fin 0)) ].
Proof.
  split; [exact reachable_tie_fresh |]. split; reflexivity.
Qed.

(** A comparator that is consistent sorts the lines, here by ascending
    votes; for one that is not, such as the one that never answers 0, the
    order is the implementation's and [getResults] is not represented. *)
Example getResults_comparators :
  getResults village_one_vote (Some votes_asc)
  = Some [ mkResult (VStr "C1") (VStr "Sarpanch Ram") (VStr "Janata") (VNum (Fin 0));
           mkResult (VStr "C2") (VStr "Pradhan Sita") (VStr "Lok") (VNum (Fin 1)) ]
  /\ getResults village_one_vote None
     = Some [ mkResult (VStr "C2") (VStr "Pradhan Sita") (VStr "Lok") (VNum (Fin 1));
              mkResult (VStr "C1") (VStr "Sarpanch Ram") (VStr "Janata") (VNum (Fin 0)) ]
  /\ consistent_comparator never_equal
       (map (line_of village_one_vote) (candidateMap village_one_vote)) = false
  /\ getResults village_one_vote (Some never_equal) = None.
Proof. repeat split; reflexivity. Qed.

(** X24.  In every state of an election, [getWinner] returns [null]
    exactly when the count of every candidate is zero; otherwise it returns
    the copy held for the first candidate, in the enumeration order of the
    candidate map, whose count is the maximum.  That order is: the ids that
    are array indices in ascending numeric order, then the other ids in the
    order of their first insertion. *)
Theorem getWinner_spec (candidates : value) (st : election) :
  reachable candidates st ->
  enumeration_of (candidate_ids candidates) (keys (candidateMap st))
  /\ (getWinner st = Some None <-> forall id, known st id -> votes_for st id = 0)
  /\ (getWinner st = Some None
      \/ exists before id later c,
          keys (candidateMap st) = before ++ id :: later
          /\ own_get (candidateMap st) id = Some c
          /\ 0 < votes_for st id
          /\ (forall x, In x before -> votes_for st x < votes_for st id)
          /\ (forall x, In x later -> votes_for st x <= votes_for st id)
          /\ getWinner st = Some (Some c)).
Proof.
  intros Hr. destruct (reachable_consistent _ _ Hr) as (Hc & He).
  split; [exact He |].
  destruct (getWinner_consistent st Hc)
    as [(Hz & Hw) | (before & id & later & c & Hk & Hown & Hpos & Hb & Hl & Hw)].
  - split; [tauto | now left].
  - split.
    + rewrite Hw. split; [discriminate |]. intros Hz. exfalso.
      assert (known st id) as Hid.
      { unfold known. rewrite Hk. apply in_elt. }
      specialize (Hz id Hid). lia.
    + right. exists before, id, later, c. repeat split; auto.
Qed.

Lemma getWinner_spec_witness :
  enumeration_of (candidate_ids tie_candidates) (keys (candidateMap tie_state))
  /\ (getWinner tie_state = Some None
      <-> forall id, known tie_state id -> votes_for tie_state id = 0)
  /\ (getWinner tie_state = Some None
      \/ exists before id later c,
          keys (candidateMap tie_state) = before ++ id :: later
          /\ own_get (candidateMap tie_state) id = Some c
          /\ 0 < votes_for tie_state id
          /\ (forall x, In x before -> votes_for tie_state x < votes_for tie_state id)
          /\ (forall x, In x later -> votes_for tie_state x <= votes_for tie_state id)
          /\ getWinner tie_state = Some (Some c)).
Proof.
  apply (getWinner_spec tie_candidates tie_state).
  exists tie_fresh, tie_calls. split; reflexivity.
Defined.

(** C2, on the failing input.  The candidates "2" (Ram) and "1" (Sita),
    handed over in that order, hold one vote each: the winner returned is
    Sita, not Ram, the first of the tied candidates.  The loop of
    [getWinner] goes through [votes] with for-in, which visits the ids
    that are array indices in ascending numeric order before it follows
    the order of insertion.  Besides, after the vote of V1 for
    "constructor" a vote has been cast and [getWinner] still returns
    [null]. *)
Theorem getWinner_tie_not_first :
  createElection tie_candidates = Some tie_fresh
  /\ run tie_fresh tie_calls = Some tie_state
  /\ candidate_ids tie_candidates = ["2"; "1"]
  /\ votes_for tie_state "2" = 1
  /\ votes_for tie_state "1" = 1
  /\ getWinner tie_state
     = Some (Some [("id", VStr "1"); ("name", VStr "Sita"); ("party", VStr "Lok")])
  /\ run village_fresh
       [ CallRegister (voter 4%N "V1" (Fin 25));
         CallCast (VStr "V1") "constructor" (says "voted!") (says "error") ]
     = Some village_spoiled
  /\ voted village_spoiled = [VStr "V1"]
  /\ getWinner village_spoiled = Some None.
Proof. repeat split; reflexivity. Qed.

(** *** registerVoter *)

(** [a < b] fails when [a >= b] holds, and when one side is [NaN]. *)
Lemma num_ltb_false (a b : number) :
  num_ltb a b = false <-> num_geb a b = true \/ a = NaN \/ b = NaN.
Proof.
  destruct a as [| s | x], b as [| t | y]; simpl;
    try (split; [auto | reflexivity]);
    (split; [intros ->; now left
            | intros [H | [H | H]]; try discriminate; now apply negb_true_iff in H]).
Qed.

(** [n < 18] fails for the numbers from 18 on, for +Infinity, and for NaN. *)
Lemma not_under_18 (n : number) :
  num_ltb n (Fin 18) = false
  <-> n = NaN \/ n = Inf false \/ exists z, n = Fin z /\ 18 <= z.
Proof.
  destruct n as [| [] | z]; simpl.
  - split; auto.
  - split; [discriminate |].
    intros [H | [H | (z & H & _)]]; discriminate.
  - split; auto.
  - rewrite Z.ltb_ge. split.
    + intros H. right; right. now exists z.
    + intros [H | [H | (z' & E & H)]]; try discriminate.
      injection E as <-. exact H.
Qed.

(** What [registerVoter] accepts: a non-null object whose [id] is truthy
    and not yet registered, and whose [age] is a number that is not below
    18.  It returns without an error in every case, and the voter's id is
    added to the set exactly when it returns [true]. *)
Lemma registerVoter_spec (st : election) (voter : value) :
  let accepted :=
    truthy voter = true
    /\ typeof voter = "object"
    /\ truthy (get_field voter f_id) = true
    /\ (exists n, get_field voter f_age = VNum n /\ num_ltb n (Fin 18) = false)
    /\ set_has (registered st) (get_field voter f_id) = false in
  (accepted ->
   registerVoter st voter
   = (true, mkElection (candidateMap st) (votes st)
              (registered st ++ [get_field voter f_id]) (voted st)))
  /\ (~ accepted -> registerVoter st voter = (false, st)).
Proof.
  intros accepted. unfold registerVoter, accepted. split.
  - intros (H1 & H2 & H3 & (n & H4 & H5) & H6).
    rewrite H1, H2, H3, H4, H6. cbn [as_number]. rewrite H5. cbn.
    unfold set_add. now rewrite H6.
  - intros Hn.
    destruct (truthy voter) eqn:E1; [| reflexivity].
    destruct (String.eqb_spec (typeof voter) "object") as [E2 | E2]; [| reflexivity].
    destruct (truthy (get_field voter f_id)) eqn:E3; [| reflexivity].
    destruct (get_field voter f_age) as [| | | n | | | | | |] eqn:E4;
      try reflexivity.
    cbn [typeof as_number negb orb String.eqb Ascii.eqb Bool.eqb].
    destruct (num_ltb n (Fin 18)) eqn:E5; [reflexivity |].
    destruct (set_has (registered st) (get_field voter f_id)) eqn:E6; [reflexivity |].
    exfalso. apply Hn. repeat split; auto. now exists n.
Qed.

(** C3, on the failing input.  A voter whose age is [NaN] passes both
    [typeof voter.age !== "number"] and [voter.age < 18]: [registerVoter]
    returns [true] and registers the id, although [NaN] is not an age of 18
    or more. *)
Theorem registerVoter_accepts_NaN_age :
  registerVoter village_fresh (voter 4%N "V1" NaN)
  = (true, mkElection (candidateMap village_fresh) (votes village_fresh)
             [VStr "V1"] [])
  /\ typeof (VNum NaN) = "number"
  /\ num_ltb NaN (Fin 18) = false
  /\ num_geb NaN (Fin 18) = false.
Proof. repeat split. Qed.

(** *** castVote *)

(** The call of the documentation: V1 votes for C1. *)
Example castVote_example :
  createElection village_candidates = Some village_fresh
  /\ registerVoter village_fresh (voter 4%N "V1" (Fin 25)) = (true, village_registered)
  /\ castVote village_registered (VStr "V1") "C1" (says "voted!") (says "error")
     = Some (mkCast (VStr "voted!") [SuccessCalled (mkBallot (VStr "V1") "C1")]
               (mkElection (candidateMap village_fresh)
                  [("C1", VNum (Fin 1)); ("C2", VNum (Fin 0))]
                  [VStr "V1"] [VStr "V1"])).
Proof. repeat split. Qed.

(** C1, on the failing input.  "constructor" is no candidate of the
    election, yet [candidateMap["constructor"]] finds the member inherited
    from [Object.prototype]: the success handler is invoked, the voter is
    marked as having voted, and no candidate's count moves. *)
Theorem castVote_accepts_inherited_name :
  createElection village_candidates = Some village_fresh
  /\ registerVoter village_fresh (voter 4%N "V1" (Fin 25)) = (true, village_registered)
  /\ ~ known village_registered "constructor"
  /\ castVote village_registered (VStr "V1") "constructor" (says "voted!") (says "error")
     = Some (mkCast (VStr "voted!")
               [SuccessCalled (mkBallot (VStr "V1") "constructor")]
               village_spoiled).
Proof.
  repeat split.
  unfold known. simpl. intros [H | [H | []]]; discriminate.
Qed.

(** *** The ledger: votes counted against voters *)

Lemma sum_bump (f g : string -> Z) (k : string) (ks : list string) :
  NoDup ks ->
  (forall x, In x ks -> g x = f x + (if String.eqb x k then 1 else 0)) ->
  fold_right Z.add 0 (map g ks)
  = fold_right Z.add 0 (map f ks) + (if str_mem k ks then 1 else 0).
Proof.
  induction 1 as [| x ks Hx Hnd IH]; intros H; simpl; [reflexivity |].
  rewrite IH by (intros; apply H; now right).
  rewrite (H x) by now left.
  rewrite (String.eqb_sym k x).
  destruct (String.eqb_spec x k) as [-> | Hne]; simpl; [| lia].
  assert (str_mem k ks = false) as ->; [| lia].
  destruct (str_mem k ks) eqn:E; [| reflexivity].
  apply str_mem_In in E. contradiction.
Qed.

Lemma inherited_only_not_known (st : election) (k : string) :
  inherited_only st k = true -> str_mem k (keys (candidateMap st)) = false.
Proof.
  unfold inherited_only. intros H. apply andb_true_iff in H. destruct H as [H _].
  destruct (str_mem k (keys (candidateMap st))) eqn:E; [| reflexivity].
  apply str_mem_In, own_get_In in E. destruct E as (a & E).
  rewrite E in H. discriminate.
Qed.

Lemma step_ledger (st st' : election) (c : call) :
  consistent st -> is_set (voted st) -> step st c = Some st' ->
  is_set (voted st')
  /\ 0 <= total_votes st' - total_votes st
     <= Z.of_nat (List.length (voted st')) - Z.of_nat (List.length (voted st))
  /\ (plain_call st c = true ->
      total_votes st' - total_votes st
      = Z.of_nat (List.length (voted st')) - Z.of_nat (List.length (voted st))).
Proof.
  intros Hc Hs. destruct c as [w | v k s e]; simpl.
  - intros [= <-]. unfold registerVoter.
    match goal with |- context [if ?b then _ else _] => destruct b end;
      cbn [snd voted]; (split; [exact Hs |]);
      change (total_votes (mkElection (candidateMap st) (votes st)
                (set_add (registered st) (get_field w f_id)) (voted st)))
        with (total_votes st); split; intros; lia.
  - destruct (castVote_spec st v k s e Hc) as (r & -> & Hr & Hm & _ & Hcase).
    intros [= <-].
    destruct Hcase as [(_ & Hk & Hv & _ & _ & Hvoted & Hcount) | (reason & _ & _ & -> & _)].
    2:{ split; [exact Hs |]. split; intros; lia. }
    assert (total_votes (after r)
            = total_votes st + (if str_mem k (keys (candidateMap st)) then 1 else 0)) as Ht.
    { unfold total_votes. rewrite Hm.
      apply sum_bump; [exact (con_nodup st Hc) |]. intros x Hx. now apply Hcount. }
    rewrite Hvoted, length_app. cbn [List.length].
    split.
    { change (is_set (voted st ++ [v])). rewrite <- Hvoted.
      pose proof (is_set_add (voted st) v Hs) as H.
      unfold set_add in H. rewrite Hv in H. now rewrite Hvoted. }
    rewrite Ht. split.
    + destruct (str_mem k (keys (candidateMap st))); lia.
    + intros Hp. apply negb_true_iff in Hp.
      destruct Hk as [Hk | Hk]; [| congruence].
      rewrite (proj2 (str_mem_In _ _) Hk). lia.
Qed.

Lemma run_ledger (cs : list call) :
  forall st st',
    consistent st -> is_set (voted st) -> run st cs = Some st' ->
    is_set (voted st')
    /\ 0 <= total_votes st' - total_votes st
       <= Z.of_nat (List.length (voted st')) - Z.of_nat (List.length (voted st))
    /\ (Forall (fun c => plain_call st c = true) cs ->
        total_votes st' - total_votes st
        = Z.of_nat (List.length (voted st')) - Z.of_nat (List.length (voted st))).
Proof.
  induction cs as [| c cs IH]; intros st st' Hc Hs; simpl.
  - intros [= <-]. split; [exact Hs |]. split; intros; lia.
  - destruct (step st c) as [st1 |] eqn:E; [| discriminate]. intros Hrun.
    destruct (step_consistent _ _ _ Hc E) as (Hc1 & Hm1).
    destruct (step_ledger _ _ _ Hc Hs E) as (Hs1 & Hle1 & Heq1).
    destruct (IH _ _ Hc1 Hs1 Hrun) as (Hs' & Hle' & Heq').
    split; [exact Hs' |]. split; [lia |].
    intros Hp. inversion Hp as [| ? ? Hpc Hpcs]; subst.
    specialize (Heq1 Hpc).
    assert (Forall (fun c0 => plain_call st1 c0 = true) cs) as Hp1.
    { eapply Forall_impl; [| exact Hpcs]. intros [w | v k s e]; auto.
      unfold plain_call, inherited_only. now rewrite Hm1. }
    specialize (Heq' Hp1). lia.
Qed.

Lemma total_votes_fresh (candidates : value) (st : election) :
  createElection candidates = Some st -> total_votes st = 0.
Proof.
  intros H. destruct (createElection_built _ _ H) as ([Hk Hz Hnd _ _] & _).
  unfold total_votes. rewrite <- Hk.
  assert (forall id, In id (keys (votes st)) -> cell_number (count_of st id) = 0) as Hzero.
  { intros id Hid. unfold count_of, obj_get.
    destruct (own_get_In _ _ Hid) as (c & Ec). rewrite Ec.
    now rewrite (Forall_snd_own_get (fun v => v = VNum (Fin 0)) _ _ _ Hz Ec). }
  revert Hzero. generalize (keys (votes st)) as ks.
  induction ks as [| id ks IH]; intros Hzero; simpl; [reflexivity |].
  rewrite Hzero by now left. rewrite IH; [reflexivity |].
  intros; apply Hzero; now right.
Qed.

(** X18.  What does hold in every state of an election: the voters who have voted
    are registered and pairwise different, every candidate's count is a
    natural number, and the counts sum to at most the number of voters who
    have voted -- to exactly that number when no vote was cast for the
    mere name of a member of [Object.prototype]. *)
Lemma election_invariants (candidates : value) (st0 st : election) (cs : list call) :
  createElection candidates = Some st0 ->
  run st0 cs = Some st ->
  (forall v, set_has (voted st) v = true -> set_has (registered st) v = true)
  /\ is_set (voted st)
  /\ (forall id, known st id -> exists n : nat, count_of st id = VNum (Fin (Z.of_nat n)))
  /\ 0 <= total_votes st <= Z.of_nat (List.length (voted st))
  /\ (Forall (fun c => plain_call st0 c = true) cs ->
      total_votes st = Z.of_nat (List.length (voted st))).
Proof.
  intros H0 Hrun.
  pose proof (createElection_consistent _ _ H0) as Hc0.
  destruct (createElection_built _ _ H0) as (_ & _ & Hv0).
  destruct (run_consistent cs _ _ Hc0 Hrun) as (Hc & _).
  assert (is_set (voted st0)) as Hs0 by (rewrite Hv0; constructor).
  destruct (run_ledger cs _ _ Hc0 Hs0 Hrun) as (Hs & Hle & Heq).
  rewrite (total_votes_fresh _ _ H0), Hv0 in Hle, Heq. cbn [List.length] in Hle, Heq.
  split; [exact (con_voted st Hc) |]. split; [exact Hs |].
  split; [intros id Hid; now apply known_count |].
  split; [lia |]. intros Hp. specialize (Heq Hp). lia.
Qed.

(** C10, on the failing input.  After V1 has voted for "constructor", one
    voter has voted and the counts of the candidates sum to 0. *)
Theorem votes_sum_misses_inherited_name :
  createElection village_candidates = Some village_fresh
  /\ run village_fresh
       [ CallRegister (voter 4%N "V1" (Fin 25));
         CallCast (VStr "V1") "constructor" (says "voted!") (says "error") ]
     = Some village_spoiled
  /\ voted village_spoiled = [VStr "V1"]
  /\ total_votes village_spoiled = 0.
Proof. repeat split. Qed.

End ElectionFacts.

(** ** createVoteValidator *)

Section ValidatorFacts.
Import Validator.

Lemma check_required_strings (r : ref) (ps : props) (fields : list string) :
  check_required (map VStr fields) (VObj r ps)
  = Some (match find (fun f => negb (present ps f)) fields with
          | Some f => Some (String.append "missing_" f)
          | None => None
          end).
Proof.
  induction fields as [| f fields IH]; simpl; [reflexivity |].
  fold (present ps f). destruct (present ps f); simpl; [exact IH | reflexivity].
Qed.

(** Whatever is not a non-null object is an invalid voter. *)
Lemma createVoteValidator_invalid (rules voter : value) :
  truthy voter = false \/ typeof voter <> "object" ->
  createVoteValidator rules voter = Some (mkVerdict false "invalid_voter").
Proof.
  intros H. unfold createVoteValidator.
  destruct (truthy voter); [| reflexivity].
  destruct (String.eqb_spec (typeof voter) "object"); [| reflexivity].
  destruct H; [discriminate | contradiction].
Qed.

(** The defaults: 18 and no required field. *)
Lemma createVoteValidator_defaults :
  minAge_of VUndefined = VNum (Fin 18) /\ required_of VUndefined = []
  /\ minAge_of (VObj 1%N []) = VNum (Fin 18) /\ required_of (VObj 1%N []) = [].
Proof. repeat split. Qed.

(** X19.  The verdict on a plain object, for rules whose required fields are
    strings and whose minimal age is a number: the first required field
    that the voter lacks is reported missing; else the voter is underage
    when [age] is not a number or is below the minimal age; else valid. *)
Lemma createVoteValidator_spec (rules : value) (r : ref) (ps : props)
      (fields : list string) (minAge : number) :
  required_of rules = map VStr fields ->
  minAge_of rules = VNum minAge ->
  createVoteValidator rules (VObj r ps)
  = Some
      match find (fun f => negb (present ps f)) fields with
      | Some f => mkVerdict false (String.append "missing_" f)
      | None =>
          match get_field (VObj r ps) f_age with
          | VNum age =>
              if num_ltb age minAge then mkVerdict false "underage"
              else mkVerdict true ""
          | _ => mkVerdict false "underage"
          end
      end.
Proof.
  intros Hreq Hmin. unfold createVoteValidator. rewrite Hreq, Hmin.
  change (truthy (VObj r ps)) with true.
  change (typeof (VObj r ps)) with "object".
  cbn [negb orb String.eqb Ascii.eqb Bool.eqb].
  rewrite check_required_strings.
  destruct (find (fun f => negb (present ps f)) fields); [reflexivity |].
  destruct (get_field (VObj r ps) f_age) as [| | | age | | | | | |]; try reflexivity.
  cbn [typeof negb String.eqb Ascii.eqb Bool.eqb].
  change (js_lt (VNum age) (VNum minAge)) with (Some (num_ltb age minAge)).
  cbn. now destruct (num_ltb age minAge).
Qed.

(** C7, on the failing input.  A voter whose age is [NaN] passes both
    [typeof voter.age !== "number"] and [voter.age < minAge]: the verdict is
    valid, under the rules of the documentation as under the defaults,
    although [NaN] is not a number that is at least the minimal age. *)
Theorem validator_accepts_NaN_age :
  createVoteValidator example_rules (example_voter (VNum NaN))
  = Some (mkVerdict true "")
  /\ createVoteValidator VUndefined (example_voter (VNum NaN))
     = Some (mkVerdict true "")
  /\ typeof (VNum NaN) = "number"
  /\ num_ltb NaN (Fin 18) = false
  /\ num_geb NaN (Fin 18) = false.
Proof. repeat split. Qed.

Example validator_examples :
  createVoteValidator example_rules (example_voter (VNum (Fin 25)))
  = Some (mkVerdict true "")
  /\ createVoteValidator example_rules (example_voter (VNum (Fin 17)))
     = Some (mkVerdict false "underage")
  /\ createVoteValidator example_rules (example_voter (VStr "25"))
     = Some (mkVerdict false "underage")
  /\ createVoteValidator example_rules (VObj 3%N [("id", VStr "V1"); ("age", VNum (Fin 25))])
     = Some (mkVerdict false "missing_name")
  /\ createVoteValidator example_rules VNull = Some (mkVerdict false "invalid_voter").
Proof. repeat split. Qed.

End ValidatorFacts.

(** ** tallyPure *)

Section TallyFacts.
Import Tally.

Lemma own_get_insert_new {A} (o : jsobj A) (k k' : string) (a : A) :
  own_get o k = None ->
  own_get (insert_new k a o) k' = if String.eqb k' k then Some a else own_get o k'.
Proof.
  induction o as [| [k0 a0] o IH]; simpl.
  - intros _. reflexivity.
  - destruct (String.eqb_spec k k0) as [-> | Hne]; [discriminate |]. intros H.
    destruct (key_before k k0); simpl.
    + destruct (String.eqb_spec k' k); reflexivity.
    + rewrite (IH H).
      destruct (String.eqb_spec k' k0) as [-> | Hne'].
      * destruct (String.eqb_spec k0 k); [congruence | reflexivity].
      * reflexivity.
Qed.

(** [(count || 0) + 1] on a count below 2^53. *)
Lemma count_up (z : Z) :
  0 <= z -> z < two_53 ->
  js_add_double (js_or (VNum (Fin z)) (VNum (Fin 0))) (VNum (Fin 1))
  = Some (VNum (Fin (z + 1))).
Proof.
  intros Hz Hb.
  assert (double_add (Fin z) (Fin 1) = Fin (z + 1)) as Hadd
      by (apply double_add_exact; lia).
  assert (double_add (Fin 0) (Fin 1) = Fin 1) as Hadd0 by reflexivity.
  unfold js_or. cbn [truthy num_truthy].
  destruct (Z.eqb_spec z 0) as [-> | _]; cbn [negb].
  - unfold js_add_double. cbn [to_primitive is_string orb prim_to_number].
    now rewrite Hadd0.
  - unfold js_add_double. cbn [to_primitive is_string orb prim_to_number].
    now rewrite Hadd.
Qed.

Lemma is_count_number (v : value) :
  is_count v = true -> exists z, v = VNum (Fin z) /\ 0 <= z.
Proof.
  destruct v as [| | | [| | z] | | | | | |]; try discriminate.
  simpl. intros H. exists z. split; [reflexivity | now apply Z.leb_le].
Qed.

(** On a tally of counts and an id that is in the tally, or that is not
    the name of a member of [Object.prototype], and whose count is below
    2^53: the new tally holds one more for the id (1 when it held none)
    and what the old one holds for every other key. *)
Lemma tallyPure_spec (r : ref) (ps : props) (c : string) :
  is_tally (VObj r ps) = true ->
  c <> "" ->
  (own_get ps c <> None \/ object_prototype c = None) ->
  count_in ps c < two_53 ->
  exists ps',
    tallyPure (VObj r ps) (VStr c) = Some ps'
    /\ own_get ps' c = Some (VNum (Fin (count_in ps c + 1)))
    /\ forall k, k <> c -> own_get ps' k = own_get ps k.
Proof.
  intros Ht Hc Hown Hbound. unfold tallyPure.
  change (truthy (VObj r ps)) with true.
  change (typeof (VObj r ps)) with "object".
  cbn [andb String.eqb Ascii.eqb Bool.eqb spread truthy to_property_key].
  apply String.eqb_neq in Hc. rewrite Hc. cbn [negb].
  unfold prop_get, obj_get, obj_set, count_in in *.
  destruct (own_get ps c) as [v |] eqn:E.
  - assert (is_count v = true) as Hv.
    { simpl in Ht. rewrite forallb_forall in Ht.
      exact (Ht (c, v) (own_get_Some_In _ _ _ E)). }
    destruct (is_count_number v Hv) as (z & -> & Hz).
    cbn [read_value].
    rewrite (count_up z Hz Hbound).
    eexists. split; [reflexivity |]. split.
    + rewrite own_get_replace_own, String.eqb_refl, E. reflexivity.
    + intros k Hk. rewrite own_get_replace_own.
      apply String.eqb_neq in Hk. now rewrite Hk.
  - destruct Hown as [H | H]; [congruence |]. rewrite H. cbn [read_value].
    assert (String.eqb c "__proto__" = false) as ->.
    { apply String.eqb_neq. intros ->. discriminate. }
    change (js_add_double (js_or VUndefined (VNum (Fin 0))) (VNum (Fin 1)))
      with (Some (VNum (Fin 1))).
    eexists. split; [reflexivity |]. split.
    + rewrite own_get_insert_new by exact E. now rewrite String.eqb_refl.
    + intros k Hk. rewrite own_get_insert_new by exact E.
      apply String.eqb_neq in Hk. now rewrite Hk.
Qed.

(** A falsy id gives the copy; what is no object counts as the empty
    tally. *)
Lemma tallyPure_copy (currentTally candidateId : value) :
  truthy candidateId = false ->
  tallyPure currentTally candidateId
  = Some (if (truthy currentTally && String.eqb (typeof currentTally) "object")%bool
          then spread currentTally else []).
Proof.
  intros H. unfold tallyPure. rewrite H. cbn [negb].
  now destruct (truthy currentTally && String.eqb (typeof currentTally) "object")%bool.
Qed.

Lemma tallyPure_no_tally (currentTally candidateId : value) :
  (truthy currentTally && String.eqb (typeof currentTally) "object")%bool = false ->
  tallyPure currentTally candidateId = tallyPure empty_object candidateId.
Proof. intros H. unfold tallyPure. now rewrite H. Qed.

Example tallyPure_examples :
  tallyPure example_tally (VStr "cand1")
  = Some [("cand1", VNum (Fin 6)); ("cand2", VNum (Fin 3))]
  /\ tallyPure example_tally (VStr "cand3")
     = Some [("cand1", VNum (Fin 5)); ("cand2", VNum (Fin 3)); ("cand3", VNum (Fin 1))]
  /\ tallyPure example_tally (VStr "")
     = Some [("cand1", VNum (Fin 5)); ("cand2", VNum (Fin 3))]
  /\ tallyPure VNull (VStr "cand1") = Some [("cand1", VNum (Fin 1))].
Proof. repeat split. Qed.

(** C5, on the failing input.  "constructor" is not in the tally, yet
    [newTally["constructor"]] finds the member inherited from
    [Object.prototype]: the new tally holds a text for it, not the count 1.
    For "__proto__" the assignment is ignored and the new tally holds
    nothing for the id. *)
Theorem tallyPure_inherited_name :
  own_get (spread example_tally) "constructor" = None
  /\ tallyPure example_tally (VStr "constructor")
     = Some [ ("cand1", VNum (Fin 5)); ("cand2", VNum (Fin 3));
              ("constructor", VStr "function Object() { [native code] }1") ]
  /\ tallyPure example_tally (VStr "__proto__")
     = Some [("cand1", VNum (Fin 5)); ("cand2", VNum (Fin 3))].
Proof. repeat split. Qed.

End TallyFacts.

(** ** The festival manager: the other methods *)

Section FestivalMore.
Import Festival.

Lemma removeFestival_absent (name_ : value) (festivals : manager) :
  existsb (name_is name_) festivals = false ->
  removeFestival name_ festivals = (false, festivals).
Proof.
  induction festivals as [| f fs IH]; simpl; [reflexivity |].
  intros H. apply orb_false_iff in H. destruct H as [Hf Hfs].
  now rewrite Hf, (IH Hfs).
Qed.

Lemma removeFestival_first (name_ : value) (before after : manager) (f : festival) :
  existsb (name_is name_) before = false ->
  name_is name_ f = true ->
  removeFestival name_ (before ++ f :: after) = (true, before ++ after).
Proof.
  induction before as [| g before IH]; simpl; intros Hb Hf.
  - now rewrite Hf.
  - apply orb_false_iff in Hb. destruct Hb as [Hg Hb].
    now rewrite Hg, (IH Hb Hf).
Qed.

Lemma first_named (name_ : value) (festivals : manager) :
  existsb (name_is name_) festivals = true ->
  exists before f after,
    festivals = before ++ f :: after
    /\ existsb (name_is name_) before = false
    /\ name_is name_ f = true.
Proof.
  induction festivals as [| g fs IH]; simpl; [discriminate |].
  destruct (name_is name_ g) eqn:Eg.
  - intros _. exists [], g, fs. auto.
  - intros H. destruct (IH H) as (before & f & after & -> & Hb & Hf).
    exists (g :: before), f, after. simpl. rewrite Eg. auto.
Qed.

Lemma name_is_iff (name_ : value) (f : festival) :
  name_is name_ f = true <-> VStr (name f) = name_.
Proof.
  destruct name_; simpl; try (split; [discriminate | intros [=]]).
  rewrite String.eqb_eq. split; [now intros -> | now intros [=]].
Qed.

Lemma not_named_iff (name_ : value) (festivals : manager) :
  existsb (name_is name_) festivals = false
  <-> forall g, In g festivals -> VStr (name g) <> name_.
Proof.
  split.
  - intros H g Hg E. apply name_is_iff in E.
    assert (existsb (name_is name_) festivals = true) as H'
        by (apply existsb_exists; eauto).
    congruence.
  - intros H. destruct (existsb (name_is name_) festivals) eqn:E; [| reflexivity].
    apply existsb_exists in E. destruct E as (g & Hg & Eg).
    apply name_is_iff in Eg. exfalso. exact (H g Hg Eg).
Qed.

(** X1.  [removeFestival] returns [true] exactly when a festival of that
    name is listed.  If none is, the list is left as it is; otherwise the
    first festival of that name is taken out and the others keep their
    order, so that the count goes down by one. *)
Theorem removeFestival_spec (name_ : value) (festivals : manager) :
  (fst (removeFestival name_ festivals) = true
   <-> exists f, In f festivals /\ VStr (name f) = name_)
  /\ (fst (removeFestival name_ festivals) = false ->
      snd (removeFestival name_ festivals) = festivals)
  /\ (fst (removeFestival name_ festivals) = true ->
      exists before f after,
        festivals = before ++ f :: after
        /\ VStr (name f) = name_
        /\ (forall g, In g before -> VStr (name g) <> name_)
        /\ snd (removeFestival name_ festivals) = before ++ after
        /\ getCount (snd (removeFestival name_ festivals)) = getCount festivals - 1).
Proof.
  destruct (existsb (name_is name_) festivals) eqn:E.
  - destruct (first_named _ _ E) as (before & f & after & -> & Hb & Hf).
    rewrite (removeFestival_first _ _ _ _ Hb Hf). cbn [fst snd].
    split; [| split; [discriminate |]].
    + split; [intros _ | reflexivity].
      exists f. split; [apply in_elt | now apply name_is_iff].
    + intros _. exists before, f, after.
      split; [reflexivity |]. split; [now apply name_is_iff |].
      split; [now apply not_named_iff |]. split; [reflexivity |].
      unfold getCount. rewrite !length_app. cbn [List.length]. lia.
  - rewrite (removeFestival_absent _ _ E). cbn [fst snd].
    split; [| split; [reflexivity | discriminate]].
    split; [discriminate |]. intros (f & Hf & Ef). exfalso.
    exact (proj1 (not_named_iff _ _) E f Hf Ef).
Qed.

(** The two outcomes of [addFestival]. *)
Lemma addFestival_cases (name_ date_ type_ : value) (festivals : manager) :
  addFestival name_ date_ type_ festivals = (-1, festivals)
  \/ (exists n d t,
        name_ = VStr n /\ date_ = VStr d /\ type_ = VStr t
        /\ admissible (mkFestival n d t)
        /\ existsb (name_is name_) festivals = false
        /\ addFestival name_ date_ type_ festivals
           = (getCount festivals + 1, festivals ++ [mkFestival n d t])).
Proof.
  unfold addFestival.
  destruct (negb (truthy name_) || negb (String.eqb (typeof name_) "string"))%bool eqn:E1;
    [now left |].
  destruct (isValidDateStr date_) eqn:E2; [| now left].
  destruct (set_has validTypes type_) eqn:E3; [| now left].
  cbn [negb orb].
  destruct (existsb (name_is name_) festivals) eqn:E4; [now left |].
  right.
  apply name_check_iff in E1. apply isValidDateStr_iff in E2.
  apply validTypes_has_iff in E3.
  destruct E1 as (n & -> & Hn), E2 as (d & -> & Hd).
  assert (exists t, type_ = VStr t) as (t & ->).
  { simpl in E3. destruct E3 as [<- | [<- | [<- | []]]]; eauto. }
  exists n, d, t. repeat split; auto.
  unfold getCount. rewrite length_app. cbn [List.length str]. do 2 f_equal. lia.
Qed.

Lemma apply_op_admissible (festivals : manager) (o : op) :
  NoDup (map name festivals) /\ Forall admissible festivals ->
  NoDup (map name (apply_op festivals o)) /\ Forall admissible (apply_op festivals o).
Proof.
  intros (Hnd & Hadm). destruct o as [n d t | n]; cbn [apply_op].
  - destruct (addFestival_cases n d t festivals)
      as [-> | (n' & d' & t' & -> & -> & -> & Ha & Hnew & ->)]; [now split |].
    cbn [snd]. split.
    + rewrite map_app. cbn [map name].
      apply (Permutation_NoDup (Permutation_cons_append _ _)).
      constructor; [| exact Hnd].
      intros Hin. apply in_map_iff in Hin. destruct Hin as (g & Hg & Hgin).
      apply (proj1 (not_named_iff _ _) Hnew g Hgin). now rewrite Hg.
    + apply Forall_app. split; [exact Hadm |]. now constructor.
  - destruct (existsb (name_is n) festivals) eqn:E.
    + destruct (first_named _ _ E) as (before & f & after & -> & Hb & Hf).
      rewrite (removeFestival_first _ _ _ _ Hb Hf). cbn [snd]. split.
      * rewrite map_app in *. cbn [map] in Hnd. now apply NoDup_remove_1 in Hnd.
      * apply Forall_app in Hadm. destruct Hadm as (H1 & H2).
        inversion H2; subst. apply Forall_app. now split.
    + rewrite (removeFestival_absent _ _ E). now split.
Qed.

Lemma run_ops_admissible (os : list op) :
  forall festivals,
    NoDup (map name festivals) /\ Forall admissible festivals ->
    NoDup (map name (run_ops festivals os)) /\ Forall admissible (run_ops festivals os).
Proof.
  induction os as [| o os IH]; intros festivals H; cbn [run_ops]; [exact H |].
  apply IH. now apply apply_op_admissible.
Qed.

Lemma managed_admissible (festivals : manager) :
  managed festivals -> NoDup (map name festivals) /\ Forall admissible festivals.
Proof.
  intros (os & <-). apply run_ops_admissible. split; constructor.
Qed.

(** X2.  Whatever additions and removals a manager has gone through,
    [getAll] lists festivals of pairwise different names, each with a
    non-empty name, a date of the pattern and one of the three types, and
    as many of them as [getCount] says. *)
Theorem getAll_managed (festivals : manager) :
  managed festivals ->
  NoDup (map name (getAll festivals))
  /\ Forall admissible (getAll festivals)
  /\ Z.of_nat (List.length (getAll festivals)) = getCount festivals.
Proof.
  intros H. unfold getAll. rewrite map_copy_id.
  destruct (managed_admissible _ H). auto.
Qed.

Lemma getAll_managed_witness :
  NoDup (map name (getAll two_festivals))
  /\ Forall admissible (getAll two_festivals)
  /\ Z.of_nat (List.length (getAll two_festivals)) = getCount two_festivals.
Proof.
  apply (getAll_managed two_festivals).
  exists [ Add (VStr "Diwali") (VStr "2025-10-20") (VStr "religious");
           Add (VStr "Republic Day") (VStr "2025-01-26") (VStr "national") ].
  reflexivity.
Defined.

(** X3.  A festival that [addFestival] has just accepted is the one
    [removeFestival] takes out under that name: the list is back to what it
    was before the addition. *)
Theorem add_then_remove (name_ date_ type_ : value) (festivals : manager) :
  fst (addFestival name_ date_ type_ festivals) <> -1 ->
  removeFestival name_ (snd (addFestival name_ date_ type_ festivals))
  = (true, festivals).
Proof.
  intros Hacc.
  destruct (addFestival_cases name_ date_ type_ festivals)
    as [E | (n & d & t & -> & -> & -> & _ & Hnew & E)]; rewrite E in *.
  - now cbn in Hacc.
  - cbn [snd]. rewrite removeFestival_first with (after := []).
    + now rewrite app_nil_r.
    + exact Hnew.
    + apply name_is_iff. reflexivity.
Qed.

Lemma add_then_remove_witness :
  removeFestival (VStr "Diwali")
    (snd (addFestival (VStr "Diwali") (VStr "2025-10-20") (VStr "religious")
            createFestivalManager))
  = (true, createFestivalManager).
Proof.
  apply (add_then_remove (VStr "Diwali") (VStr "2025-10-20") (VStr "religious")
           createFestivalManager).
  discriminate.
Defined.

(** X4.  Once [removeFestival] has taken a festival out of a manager's
    list its name is free again: [addFestival] under that name, with a date
    of the pattern and one of the three types, is accepted, and the count
    is back to what it was before the removal. *)
Theorem remove_then_add (name_ date_ type_ : value) (festivals : manager) :
  managed festivals ->
  fst (removeFestival name_ festivals) = true ->
  isValidDateStr date_ = true ->
  set_has validTypes type_ = true ->
  addFestival name_ date_ type_ (snd (removeFestival name_ festivals))
  = (getCount festivals,
     snd (removeFestival name_ festivals)
     ++ [mkFestival (str name_) (str date_) (str type_)]).
Proof.
  intros Hm Hrem Hd Ht.
  destruct (managed_admissible _ Hm) as (Hnd & Hadm).
  destruct (existsb (name_is name_) festivals) eqn:E;
    [| rewrite (removeFestival_absent _ _ E) in Hrem; discriminate].
  destruct (first_named _ _ E) as (before & f & after & -> & Hb & Hf).
  rewrite (removeFestival_first _ _ _ _ Hb Hf). cbn [snd].
  apply name_is_iff in Hf. subst name_.
  assert (name f <> EmptyString) as Hne.
  { apply Forall_app in Hadm. destruct Hadm as (_ & H2).
    inversion H2 as [| ? ? (Hn & _) _]; subst. exact Hn. }
  assert (existsb (name_is (VStr (name f))) (before ++ after) = false) as Hfree.
  { apply not_named_iff. intros g Hg [= Eg].
    rewrite map_app in Hnd. cbn [map] in Hnd.
    apply NoDup_remove_2 in Hnd. apply Hnd.
    rewrite <- map_app, <- Eg. now apply in_map. }
  unfold addFestival. rewrite Hd, Ht, Hfree. cbn [truthy typeof str].
  apply String.eqb_neq in Hne. rewrite Hne.
  cbn [negb orb String.eqb Ascii.eqb Bool.eqb].
  f_equal. unfold getCount. rewrite !length_app. cbn [List.length]. lia.
Qed.

Lemma remove_then_add_witness :
  addFestival (VStr "Diwali") (VStr "2026-11-08") (VStr "religious")
    (snd (removeFestival (VStr "Diwali") two_festivals))
  = (getCount two_festivals,
     snd (removeFestival (VStr "Diwali") two_festivals)
     ++ [mkFestival (str (VStr "Diwali")) (str (VStr "2026-11-08"))
           (str (VStr "religious"))]).
Proof.
  apply (remove_then_add (VStr "Diwali") (VStr "2026-11-08") (VStr "religious")
           two_festivals).
  - exists [ Add (VStr "Diwali") (VStr "2025-10-20") (VStr "religious");
             Add (VStr "Republic Day") (VStr "2025-01-26") (VStr "national") ].
    reflexivity.
  - reflexivity.
  - reflexivity.
  - reflexivity.
Defined.

Lemma apply_op_count (festivals : manager) (o : op) :
  getCount (apply_op festivals o) = getCount festivals + effect festivals o.
Proof.
  destruct o as [n d t | n]; cbn [apply_op effect].
  - destruct (addFestival_cases n d t festivals)
      as [-> | (n' & d' & t' & _ & _ & _ & _ & _ & ->)]; cbn [fst snd].
    + simpl. lia.
    + unfold getCount. rewrite length_app. cbn [List.length].
      destruct (Z.eqb_spec (Z.of_nat (List.length festivals) + 1) (-1)); lia.
  - destruct (existsb (name_is n) festivals) eqn:E.
    + destruct (first_named _ _ E) as (before & f & after & -> & Hb & Hf).
      rewrite (removeFestival_first _ _ _ _ Hb Hf). cbn [fst snd].
      unfold getCount. rewrite !length_app. cbn [List.length]. lia.
    + rewrite (removeFestival_absent _ _ E). cbn [fst snd]. lia.
Qed.

(** X5.  Over any sequence of additions and removals, [getCount] moves by
    the number of additions that were accepted less the number of removals
    that found their festival; in particular a rejected addition and a
    removal of an unknown name leave it as it is. *)
Theorem getCount_run (os : list op) (festivals : manager) :
  getCount (run_ops festivals os) = getCount festivals + net_effect festivals os.
Proof.
  revert festivals. induction os as [| o os IH]; intros festivals;
    cbn [run_ops net_effect]; [lia |].
  rewrite IH, apply_op_count. lia.
Qed.

(** X6.  In a manager's list every festival is of one of the three types:
    [getByType] of the three types splits the list, so the three results
    add up to [getCount], and [getByType] of anything else is empty.  What
    it returns is always listed and of the type asked for. *)
Theorem getByType_partition (festivals : manager) :
  managed festivals ->
  Z.of_nat (List.length (getByType (VStr "religious") festivals)
            + List.length (getByType (VStr "national") festivals)
            + List.length (getByType (VStr "cultural") festivals))
  = getCount festivals
  /\ (forall type_, ~ In type_ validTypes -> getByType type_ festivals = [])
  /\ (forall type_ f, In f (getByType type_ festivals) ->
                      In f festivals /\ VStr (type f) = type_).
Proof.
  intros Hm. destruct (managed_admissible _ Hm) as (_ & Hadm). clear Hm.
  unfold getByType, getCount. rewrite !map_copy_id.
  split; [| split].
  - f_equal. induction Hadm as [| f fs (_ & _ & Hty) _ IH]; [reflexivity |].
    cbn [filter List.length].
    simpl in Hty. destruct Hty as [[= <-] | [[= <-] | [[= <-] | []]]];
      cbn [String.eqb Ascii.eqb Bool.eqb List.length]; lia.
  - intros type_ Hty. rewrite map_copy_id.
    induction Hadm as [| f fs (_ & _ & Hf) _ IH]; [reflexivity |].
    cbn [filter]. destruct type_; try exact IH.
    destruct (String.eqb_spec (type f) s) as [<- | _]; [contradiction | exact IH].
  - intros type_ f. rewrite map_copy_id, filter_In. intros (Hin & Hty).
    split; [exact Hin |]. destruct type_; try discriminate.
    apply String.eqb_eq in Hty. now subst.
Qed.

Lemma getByType_partition_witness :
  Z.of_nat (List.length (getByType (VStr "religious") two_festivals)
            + List.length (getByType (VStr "national") two_festivals)
            + List.length (getByType (VStr "cultural") two_festivals))
  = getCount two_festivals
  /\ (forall type_, ~ In type_ validTypes -> getByType type_ two_festivals = [])
  /\ (forall type_ f, In f (getByType type_ two_festivals) ->
                      In f two_festivals /\ VStr (type f) = type_).
Proof.
  apply (getByType_partition two_festivals).
  exists [ Add (VStr "Diwali") (VStr "2025-10-20") (VStr "religious");
           Add (VStr "Republic Day") (VStr "2025-01-26") (VStr "national") ].
  reflexivity.
Defined.

(** *** getUpcoming *)

Lemma slice_to_firstn {A} (l : list A) (end_ : number) :
  exists k, slice_to l end_ = firstn k l.
Proof. unfold slice_to. eauto. Qed.

Lemma firstn_incl {A} (k : nat) (l : list A) (x : A) : In x (firstn k l) -> In x l.
Proof.
  revert l. induction k as [| k IH]; intros [| y l]; simpl; try tauto.
  intros [H | H]; auto.
Qed.

Lemma by_date_sorted (festivals : manager) :
  StronglySorted (fun a b => String.leb (date a) (date b) = true)
                 (sort_by by_date festivals).
Proof.
  apply StronglySorted_impl with (R := in_order by_date).
  - intros a b Hab. unfold in_order in Hab. rewrite by_date_after in Hab.
    now apply negb_false_iff in Hab.
  - apply sort_by_sorted.
    + intros x y. rewrite !by_date_after, negb_true_iff, negb_false_iff.
      intros Hxy. destruct (String.leb_total (date x) (date y)); congruence.
    + intros x y z. rewrite !by_date_after, !negb_false_iff.
      apply string_leb_trans.
Qed.

Lemma getUpcoming_form (currentDate : value) (n : option number) (festivals : manager) :
  isValidDateStr currentDate = true ->
  getUpcoming currentDate n festivals
  = slice_to (sort_by by_date
                (filter (fun f => String.leb (str currentDate) (date f)) festivals))
             (match n with Some n => n | None => Fin 3 end).
Proof.
  intros H. unfold getUpcoming. rewrite H. cbn [negb]. rewrite map_copy_id.
  do 2 f_equal. apply filter_ext. intros f. apply str_geb_leb.
Qed.

(** X7.  Whatever [n] is -- a count, a negative number, [NaN], an infinity
    or left out -- every record that [getUpcoming] returns is a festival
    of the list whose date is not before [currentDate]. *)
Theorem getUpcoming_sound (currentDate : value) (n : option number)
        (festivals : manager) (f : festival) :
  In f (getUpcoming currentDate n festivals) ->
  In f festivals
  /\ exists d, currentDate = VStr d /\ String.leb d (date f) = true.
Proof.
  destruct (isValidDateStr currentDate) eqn:E.
  - rewrite (getUpcoming_form _ n _ E).
    destruct (slice_to_firstn
                (sort_by by_date
                   (filter (fun f => String.leb (str currentDate) (date f)) festivals))
                (match n with Some n => n | None => Fin 3 end)) as (k & ->).
    intros H. apply firstn_incl in H.
    apply (Permutation_in _ (sort_by_perm _ _)), filter_In in H.
    destruct H as (Hin & Hd). split; [exact Hin |].
    apply isValidDateStr_iff in E. destruct E as (d & -> & _). now exists d.
  - unfold getUpcoming. rewrite E. intros [].
Qed.

Lemma getUpcoming_sound_witness :
  In (mkFestival "Republic Day" "2025-01-26" "national") two_festivals
  /\ exists d, VStr "2025-01-01" = VStr d
               /\ String.leb d (date (mkFestival "Republic Day" "2025-01-26" "national"))
                  = true.
Proof.
  apply (getUpcoming_sound (VStr "2025-01-01") (Some (Fin 1)) two_festivals).
  simpl. auto.
Defined.

Lemma StronglySorted_app_cross {A} (R : A -> A -> Prop) (l1 l2 : list A) :
  StronglySorted R (l1 ++ l2) ->
  forall a b, In a l1 -> In b l2 -> R a b.
Proof.
  induction l1 as [| x l1 IH]; simpl; intros Hs a b Ha Hb; [contradiction |].
  inversion Hs as [| ? ? Hs' Hx]; subst.
  destruct Ha as [<- | Ha]; [| now apply IH].
  apply (proj1 (Forall_forall _ _) Hx). apply in_or_app. now right.
Qed.

(** X8.  [getUpcoming], asked for [n] festivals, returns the [n] nearest
    ones: a listed festival that is not before [currentDate] is left out
    only when [n] records are returned, none of them dated after it. *)
Theorem getUpcoming_nearest (currentDate : value) (n : nat)
        (festivals : manager) (f : festival) :
  isValidDateStr currentDate = true ->
  In f festivals ->
  String.leb (str currentDate) (date f) = true ->
  ~ In f (getUpcoming currentDate (Some (Fin (Z.of_nat n))) festivals) ->
  List.length (getUpcoming currentDate (Some (Fin (Z.of_nat n))) festivals) = n
  /\ forall g, In g (getUpcoming currentDate (Some (Fin (Z.of_nat n))) festivals) ->
               String.leb (date g) (date f) = true.
Proof.
  intros Hv Hin Hd. rewrite (getUpcoming_form _ _ _ Hv), slice_to_count.
  set (sorted := sort_by by_date
                   (filter (fun f => String.leb (str currentDate) (date f)) festivals)).
  intros Hout.
  assert (In f sorted) as Hs.
  { apply (Permutation_in _ (Permutation_sym (sort_by_perm _ _))), filter_In. auto. }
  rewrite <- (firstn_skipn n sorted) in Hs.
  apply in_app_or in Hs. destruct Hs as [Hs | Hs]; [contradiction |].
  split.
  - apply firstn_length_le.
    destruct (Nat.le_gt_cases n (List.length sorted)) as [H | H]; [exact H |].
    rewrite skipn_all2 in Hs by lia. contradiction.
  - intros g Hg.
    pose proof (by_date_sorted
                  (filter (fun f => String.leb (str currentDate) (date f)) festivals))
      as Hsorted.
    fold sorted in Hsorted. rewrite <- (firstn_skipn n sorted) in Hsorted.
    exact (StronglySorted_app_cross _ _ _ Hsorted g f Hg Hs).
Qed.

Lemma getUpcoming_nearest_witness :
  List.length (getUpcoming (VStr "2025-01-01") (Some (Fin (Z.of_nat 1))) two_festivals)
  = 1%nat
  /\ forall g, In g (getUpcoming (VStr "2025-01-01") (Some (Fin (Z.of_nat 1)))
                       two_festivals) ->
               String.leb (date g) (date (mkFestival "Diwali" "2025-10-20" "religious"))
               = true.
Proof.
  apply (getUpcoming_nearest (VStr "2025-01-01") 1 two_festivals
           (mkFestival "Diwali" "2025-10-20" "religious")).
  - reflexivity.
  - simpl. auto.
  - reflexivity.
  - simpl. intros [H | []]. discriminate.
Defined.

(** X9.  [isValidDateStr] accepts exactly the strings of ten characters
    made of four digits, a hyphen, two digits, a hyphen and two digits;
    any digits will do: neither the month nor the day is checked against
    the calendar. *)
Theorem isValidDateStr_shape (d : value) :
  isValidDateStr d = true
  <-> exists y1 y2 y3 y4 m1 m2 d1 d2,
      d = VStr (String y1 (String y2 (String y3 (String y4 (String "-"
                 (String m1 (String m2 (String "-"
                    (String d1 (String d2 EmptyString))))))))))
      /\ forallb is_digit [y1; y2; y3; y4; m1; m2; d1; d2] = true.
Proof.
  rewrite isValidDateStr_iff. split.
  - intros (s & -> & H). apply date_pattern_shape in H.
    destruct H as (y1 & y2 & y3 & y4 & m1 & m2 & d1 & d2 & -> & H).
    now exists y1, y2, y3, y4, m1, m2, d1, d2.
  - intros (y1 & y2 & y3 & y4 & m1 & m2 & d1 & d2 & -> & H).
    eexists. split; [reflexivity |]. apply date_pattern_shape.
    now exists y1, y2, y3, y4, m1, m2, d1, d2.
Qed.

End FestivalMore.

(** ** The election: more on its methods *)

Section ElectionMore.
Import Election.

(** *** createElection *)

Lemma own_get_obj_set {A} (is_object : A -> bool) (o o' : jsobj A) (k id : string) (a : A) :
  is_object a = true ->
  obj_set is_object o k a = Some o' ->
  own_get o' id = if String.eqb id k then Some a else own_get o id.
Proof.
  intros Ha. unfold obj_set. destruct (own_get o k) as [old |] eqn:E.
  - intros [= <-]. rewrite own_get_replace_own, E. cbn [is_some].
    now rewrite andb_true_r.
  - destruct (String.eqb k "__proto__"); [rewrite Ha; discriminate |].
    intros [= <-]. now apply own_get_insert_new.
Qed.

Lemma add_candidate_copy (c : value) (cm cm' : jsobj props) (vs vs' : jsobj value)
      (id : string) :
  add_candidate c cm vs = Some (cm', vs') ->
  own_get cm' id
  = match candidate_key c with
    | Some k => if String.eqb id k then Some (spread c) else own_get cm id
    | None => own_get cm id
    end.
Proof.
  unfold add_candidate, candidate_key.
  destruct (truthy c && truthy (get_field c f_id))%bool; [| now intros [= <- <-]].
  destruct (to_property_key (get_field c f_id)) as [k |]; [| discriminate].
  destruct (obj_set (fun _ => true) cm k (spread c)) as [cm1 |] eqn:E; [| discriminate].
  destruct (obj_set object_or_null vs k (VNum (Fin 0))); [| discriminate].
  intros [= <- <-]. exact (own_get_obj_set _ _ _ _ _ _ eq_refl E).
Qed.

Lemma add_candidates_copy (cs : list value) :
  forall (cm cm' : jsobj props) (vs vs' : jsobj value) (id : string),
    add_candidates cs cm vs = Some (cm', vs') ->
    own_get cm' id
    = match last_copy cs id with Some p => Some p | None => own_get cm id end.
Proof.
  induction cs as [| c cs IH]; intros cm cm' vs vs' id; simpl.
  - now intros [= <- <-].
  - destruct (add_candidate c cm vs) as [[cm1 vs1] |] eqn:E; [| discriminate].
    intros H. rewrite (IH _ _ _ _ id H). cbn [fst snd].
    destruct (last_copy cs id); [reflexivity |].
    rewrite (add_candidate_copy _ _ _ _ _ id E).
    destruct (candidate_key c) as [k |]; [| reflexivity].
    now destruct (String.eqb id k).
Qed.

(** X10.  [createElection] files each candidate that is truthy and has a
    truthy id under that id, and skips the others: the candidates known to
    the election are those ids, and the copy held for an id is that of the
    last candidate handed over under it.  Anything that is not an array
    gives the election without candidates. *)
Theorem createElection_candidates (candidates : value) (st : election) :
  createElection candidates = Some st ->
  (forall id, known st id <-> In id (candidate_ids candidates))
  /\ (forall id,
        own_get (candidateMap st) id
        = last_copy (match candidates with VArr _ l => l | _ => [] end) id)
  /\ (isArray candidates = false -> st = no_candidates).
Proof.
  intros H. split; [| split].
  - intros id. destruct (createElection_built _ _ H) as ([_ _ _ _ He] & _).
    now apply enumeration_of_In.
  - intros id. unfold createElection in H.
    destruct (add_candidates (match candidates with VArr _ l => l | _ => [] end) [] [])
      as [[cm vs] |] eqn:E; [| discriminate].
    injection H as <-. cbn [candidateMap fst].
    rewrite (add_candidates_copy _ _ _ _ _ id E). cbn [own_get].
    now destruct (last_copy _ id).
  - intros Ha. destruct candidates; try discriminate; cbn in H; now injection H as <-.
Qed.

Lemma createElection_candidates_witness :
  (forall id, known tie_fresh id <-> In id (candidate_ids tie_candidates))
  /\ (forall id,
        own_get (candidateMap tie_fresh) id
        = last_copy (match tie_candidates with VArr _ l => l | _ => [] end) id)
  /\ (isArray tie_candidates = false -> tie_fresh = no_candidates).
Proof.
  apply (createElection_candidates tie_candidates tie_fresh). reflexivity.
Defined.

Lemma filter_all {A} (P : A -> bool) (l : list A) :
  (forall x, In x l -> P x = true) -> filter P l = l.
Proof.
  induction l as [| x l IH]; intros H; simpl; [reflexivity |].
  rewrite (H x) by now left. rewrite IH; [reflexivity |].
  intros; apply H; now right.
Qed.

Lemma fresh_counts (candidates : value) (st : election) (id : string) :
  createElection candidates = Some st -> known st id ->
  count_of st id = VNum (Fin 0).
Proof.
  intros H Hid. destruct (createElection_built _ _ H) as ([Hk Hz _ _ _] & _).
  unfold count_of, obj_get. unfold known in Hid. rewrite <- Hk in Hid.
  destruct (own_get_In _ _ Hid) as (c & Ec). rewrite Ec. cbn [read_value].
  exact (Forall_snd_own_get (fun v => v = VNum (Fin 0)) _ _ _ Hz Ec).
Qed.

(** X11.  A freshly created election has nobody registered and nobody who
    has voted, every candidate at zero votes, no winner, and results that
    list the candidates, each with 0 votes, in the enumeration order of
    the candidate map. *)
Theorem createElection_fresh (candidates : value) (st : election) :
  createElection candidates = Some st ->
  registered st = [] /\ voted st = []
  /\ (forall id, known st id -> count_of st id = VNum (Fin 0))
  /\ getWinner st = Some None
  /\ getResults st None = Some (map (line_of st) (candidateMap st))
  /\ Forall (fun r => r_votes r = VNum (Fin 0)) (map (line_of st) (candidateMap st)).
Proof.
  intros H. destruct (createElection_built _ _ H) as (_ & Hr & Hv).
  pose proof (createElection_consistent _ _ H) as Hc.
  assert (forall id, known st id -> votes_for st id = 0) as Hzero.
  { intros id Hid. unfold votes_for. now rewrite (fresh_counts _ _ _ H Hid). }
  assert (forall r, In r (map (line_of st) (candidateMap st)) -> line_votes r = 0)
    as Hlines.
  { intros r Hr'. apply in_map_iff in Hr'. destruct Hr' as ([k c] & <- & Hin).
    unfold line_votes, line_of. cbn. apply Hzero. unfold known.
    change k with (fst (k, c)). now apply in_map. }
  split; [exact Hr |]. split; [exact Hv |].
  split; [intros id Hid; now apply (fresh_counts candidates) |].
  split; [| split].
  - destruct (getWinner_consistent st Hc)
      as [(_ & Hw) | (before & id & later & c & Hk & _ & Hpos & _)]; [exact Hw |].
    exfalso. rewrite Hzero in Hpos; [lia |].
    unfold known. rewrite Hk. apply in_elt.
  - rewrite (getResults_default st Hc). f_equal.
    set (lines := map (line_of st) (candidateMap st)) in *.
    rewrite <- (filter_all (fun r => Z.eqb (line_votes r) 0) (sort_by votes_desc lines)).
    + rewrite sort_by_filter.
      * apply filter_all. intros r Hr'. apply Z.eqb_eq. now apply Hlines.
      * intros x y Hx Hy. apply Z.eqb_eq in Hx, Hy.
        rewrite votes_desc_after. apply Z.ltb_ge. lia.
    + intros r Hr'. apply Z.eqb_eq. apply Hlines.
      exact (Permutation_in _ (sort_by_perm _ _) Hr').
  - apply Forall_forall. intros r Hr'.
    apply in_map_iff in Hr'. destruct Hr' as ([k c] & <- & Hin).
    unfold line_of. cbn [r_votes fst]. rewrite Hzero; [reflexivity |].
    unfold known. change k with (fst (k, c)). now apply in_map.
Qed.

Lemma createElection_fresh_witness :
  registered village_fresh = [] /\ voted village_fresh = []
  /\ (forall id, known village_fresh id -> count_of village_fresh id = VNum (Fin 0))
  /\ getWinner village_fresh = Some None
  /\ getResults village_fresh None
     = Some (map (line_of village_fresh) (candidateMap village_fresh))
  /\ Forall (fun r => r_votes r = VNum (Fin 0))
            (map (line_of village_fresh) (candidateMap village_fresh)).
Proof.
  apply (createElection_fresh village_candidates village_fresh). reflexivity.
Defined.

End ElectionMore.

(** ** The election: its calls, one after the other *)

Section ElectionCalls.
Import Election.

Ltac rejected :=
  cbn; split;
  [ split; [discriminate | intros (H1 & H2 & H3 & (n' & H4 & H5) & H6); congruence]
  | auto ].

(** X12.  [registerVoter] returns [true] exactly for a truthy object with
    a truthy id that is not yet registered and an [age] that is a number
    not below 18 (which [NaN] is not).  It never touches the candidates,
    the counts or the set of those who have voted, and it appends the id
    to the registered ones exactly when it returns [true]. *)
Theorem registerVoter_outcome (st : election) (voter : value) :
  (fst (registerVoter st voter) = true
   <-> truthy voter = true
       /\ typeof voter = "object"
       /\ truthy (get_field voter f_id) = true
       /\ (exists n, get_field voter f_age = VNum n /\ num_ltb n (Fin 18) = false)
       /\ set_has (registered st) (get_field voter f_id) = false)
  /\ candidateMap (snd (registerVoter st voter)) = candidateMap st
  /\ votes (snd (registerVoter st voter)) = votes st
  /\ voted (snd (registerVoter st voter)) = voted st
  /\ registered (snd (registerVoter st voter))
     = (if fst (registerVoter st voter)
        then registered st ++ [get_field voter f_id] else registered st).
Proof.
  unfold registerVoter.
  destruct (truthy voter) eqn:E1; [| rejected].
  destruct (String.eqb_spec (typeof voter) "object") as [E2 | E2]; [| rejected].
  destruct (truthy (get_field voter f_id)) eqn:E3; [| rejected].
  destruct (get_field voter f_age) as [| | | n | | | | | |] eqn:E4; try rejected.
  cbn [typeof as_number negb orb String.eqb Ascii.eqb Bool.eqb].
  destruct (num_ltb n (Fin 18)) eqn:E5; [rejected |].
  destruct (set_has (registered st) (get_field voter f_id)) eqn:E6; [rejected |].
  cbn [fst snd candidateMap votes voted registered].
  split; [| unfold set_add; rewrite E6; auto].
  split; [intros _ | reflexivity].
  repeat split; auto. now exists n.
Qed.

(** X13.  Once a voter is registered, registering anybody under the same
    id again returns [false] and changes nothing. *)
Theorem registerVoter_twice (st : election) (first again : value) :
  fst (registerVoter st first) = true ->
  get_field again f_id = get_field first f_id ->
  registerVoter (snd (registerVoter st first)) again
  = (false, snd (registerVoter st first)).
Proof.
  intros Hfirst Hid.
  assert (set_has (registered (snd (registerVoter st first))) (get_field first f_id) = true)
    as Hhas.
  { revert Hfirst. unfold registerVoter.
    match goal with |- context [if ?b then _ else _] => destruct b end;
      [discriminate | intros _].
    cbn [snd registered]. rewrite set_has_add, same_value_zero_refl.
    apply orb_true_r. }
  unfold registerVoter at 1. rewrite Hid, Hhas, orb_true_r. reflexivity.
Qed.

Lemma registerVoter_twice_witness :
  registerVoter (snd (registerVoter village_fresh (voter 4%N "V1" (Fin 25))))
                (voter 5%N "V1" (Fin 40))
  = (false, snd (registerVoter village_fresh (voter 4%N "V1" (Fin 25)))).
Proof.
  apply (registerVoter_twice village_fresh (voter 4%N "V1" (Fin 25))
                             (voter 5%N "V1" (Fin 40))); reflexivity.
Defined.

(** X14.  In every state of an election, [castVote] returns, having
    invoked one handler once (the given one, or the no-op that stands in
    for a handler that is no function), and returns what that handler
    returned.  The checks come in the order registered, candidate, voted:
    the error handler gets the first reason that applies and the state
    stays as it was; otherwise the success handler gets the ballot, the
    voter joins those who have voted, and the candidate's count, and no
    other, goes up by one. *)
Theorem castVote_outcome (candidates : value) (st : election) (v : value) (k : string)
        (onSuccess : handler ballot) (onError : handler string) :
  reachable candidates st ->
  exists r,
    castVote st v k onSuccess onError = Some r
    /\ candidateMap (after r) = candidateMap st
    /\ registered (after r) = registered st
    /\ ((set_has (registered st) v = true
         /\ (In k (candidate_ids candidates) \/ inherited_only st k = true)
         /\ set_has (voted st) v = false
         /\ invoked r = [SuccessCalled (mkBallot v k)]
         /\ returned r = or_noop onSuccess (mkBallot v k)
         /\ voted (after r) = voted st ++ [v]
         /\ (forall k', In k' (candidate_ids candidates) ->
               votes_for (after r) k'
               = votes_for st k' + (if String.eqb k' k then 1 else 0)))
        \/ (exists reason,
              invoked r = [ErrorCalled reason]
              /\ returned r = or_noop onError reason
              /\ after r = st
              /\ ((set_has (registered st) v = false
                   /\ reason = "voter_not_registered")
                  \/ (set_has (registered st) v = true
                      /\ ~ In k (candidate_ids candidates)
                      /\ inherited_only st k = false
                      /\ reason = "candidate_not_found")
                  \/ (set_has (registered st) v = true
                      /\ (In k (candidate_ids candidates) \/ inherited_only st k = true)
                      /\ set_has (voted st) v = true
                      /\ reason = "already_voted")))).
Proof.
  intros Hr. destruct (reachable_consistent _ _ Hr) as (Hc & He).
  assert (forall id, known st id <-> In id (candidate_ids candidates)) as Hknown
      by (intros id; now apply enumeration_of_In).
  destruct (castVote_spec st v k onSuccess onError Hc)
    as (r & Hcast & _ & Hm & Hreg & Hcase).
  exists r. split; [exact Hcast |]. split; [exact Hm |]. split; [exact Hreg |].
  destruct Hcase as [(H1 & H2 & H3 & H4 & H5 & H6 & H7) | (reason & H1 & H2 & H3 & H4)].
  - left. split; [exact H1 |]. split; [now rewrite <- Hknown |].
    split; [exact H3 |]. split; [exact H4 |]. split; [exact H5 |].
    split; [exact H6 |]. intros k' Hk'. apply H7. now apply Hknown.
  - right. exists reason. split; [exact H1 |]. split; [exact H2 |].
    split; [exact H3 |].
    destruct H4 as [H4 | [(Ha & Hb & Hd & He') | (Ha & Hb & Hd & He')]].
    + now left.
    + right; left. split; [exact Ha |]. split; [now rewrite <- Hknown |]. auto.
    + right; right. split; [exact Ha |]. split; [now rewrite <- Hknown |]. auto.
Qed.

Lemma castVote_outcome_witness :
  exists r,
    castVote village_registered (VStr "V1") "C1" (says "voted!") (says "error") = Some r
    /\ candidateMap (after r) = candidateMap village_registered
    /\ registered (after r) = registered village_registered
    /\ ((set_has (registered village_registered) (VStr "V1") = true
         /\ (In "C1" (candidate_ids village_candidates)
             \/ inherited_only village_registered "C1" = true)
         /\ set_has (voted village_registered) (VStr "V1") = false
         /\ invoked r = [SuccessCalled (mkBallot (VStr "V1") "C1")]
         /\ returned r = or_noop (says "voted!") (mkBallot (VStr "V1") "C1")
         /\ voted (after r) = voted village_registered ++ [VStr "V1"]
         /\ (forall k', In k' (candidate_ids village_candidates) ->
               votes_for (after r) k'
               = votes_for village_registered k'
                 + (if String.eqb k' "C1" then 1 else 0)))
        \/ (exists reason,
              invoked r = [ErrorCalled reason]
              /\ returned r = or_noop (says "error") reason
              /\ after r = village_registered
              /\ ((set_has (registered village_registered) (VStr "V1") = false
                   /\ reason = "voter_not_registered")
                  \/ (set_has (registered village_registered) (VStr "V1") = true
                      /\ ~ In "C1" (candidate_ids village_candidates)
                      /\ inherited_only village_registered "C1" = false
                      /\ reason = "candidate_not_found")
                  \/ (set_has (registered village_registered) (VStr "V1") = true
                      /\ (In "C1" (candidate_ids village_candidates)
                          \/ inherited_only village_registered "C1" = true)
                      /\ set_has (voted village_registered) (VStr "V1") = true
                      /\ reason = "already_voted")))).
Proof.
  apply (castVote_outcome village_candidates village_registered (VStr "V1") "C1"
                          (says "voted!") (says "error")).
  exists village_fresh, [CallRegister (voter 4%N "V1" (Fin 25))].
  split; reflexivity.
Defined.

Lemma step_monotone (st st' : election) (c : call) :
  consistent st -> step st c = Some st' ->
  (forall v, set_has (registered st) v = true -> set_has (registered st') v = true)
  /\ (forall v, set_has (voted st) v = true -> set_has (voted st') v = true)
  /\ (forall id, known st id -> votes_for st id <= votes_for st' id).
Proof.
  intros Hc. destruct c as [w | v k s e]; simpl.
  - intros [= <-]. unfold registerVoter.
    match goal with |- context [if ?b then _ else _] => destruct b end;
      cbn [snd registered voted]; (split; [| split; [auto | intros; apply Z.le_refl]]);
      [auto |].
    intros x Hx. rewrite set_has_add, Hx. reflexivity.
  - destruct (castVote_spec st v k s e Hc) as (r & -> & _ & _ & Hreg & Hcase).
    intros [= <-]. split; [now rewrite Hreg |].
    destruct Hcase as [(_ & _ & _ & _ & _ & Hv & Hcount) | (reason & _ & _ & -> & _)].
    + split.
      * intros x Hx. rewrite Hv, set_has_app, Hx. reflexivity.
      * intros id Hid. unfold votes_for. rewrite (Hcount id Hid).
        destruct (String.eqb id k); lia.
    + split; [auto | intros; apply Z.le_refl].
Qed.

Lemma run_monotone_consistent (cs : list call) :
  forall st st', consistent st -> run st cs = Some st' ->
  (forall v, set_has (registered st) v = true -> set_has (registered st') v = true)
  /\ (forall v, set_has (voted st) v = true -> set_has (voted st') v = true)
  /\ (forall id, known st id -> votes_for st id <= votes_for st' id).
Proof.
  induction cs as [| c cs IH]; intros st st' Hc; simpl.
  - intros [= <-]. split; [auto | split; [auto | intros; apply Z.le_refl]].
  - destruct (step st c) as [st1 |] eqn:E; [| discriminate]. intros Hrun.
    destruct (step_consistent _ _ _ Hc E) as (Hc1 & Hm1).
    destruct (step_monotone _ _ _ Hc E) as (Hr1 & Hv1 & Hn1).
    destruct (IH _ _ Hc1 Hrun) as (Hr' & Hv' & Hn').
    split; [auto | split; [auto |]].
    intros id Hid. apply Z.le_trans with (votes_for st1 id); [auto |].
    apply Hn'. unfold known in *. now rewrite Hm1.
Qed.

(** X15.  Whatever calls are made on an election, in whatever order, they
    all return; the candidates stay what they were, nobody leaves the
    registered voters or those who have voted, and no candidate's count
    ever goes down. *)
Theorem run_monotone (candidates : value) (st : election) (cs : list call) :
  reachable candidates st ->
  exists st',
    run st cs = Some st'
    /\ candidateMap st' = candidateMap st
    /\ (forall v, set_has (registered st) v = true -> set_has (registered st') v = true)
    /\ (forall v, set_has (voted st) v = true -> set_has (voted st') v = true)
    /\ (forall id, In id (candidate_ids candidates) ->
                   votes_for st id <= votes_for st' id).
Proof.
  intros Hr. destruct (reachable_consistent _ _ Hr) as (Hc & He).
  destruct (run_defined cs st Hc) as (st' & Hrun). exists st'.
  split; [exact Hrun |].
  destruct (run_consistent cs st st' Hc Hrun) as (_ & Hm).
  destruct (run_monotone_consistent cs st st' Hc Hrun) as (H1 & H2 & H3).
  split; [exact Hm |]. split; [exact H1 |]. split; [exact H2 |].
  intros id Hid. apply H3. exact (proj2 (enumeration_of_In _ _ id He) Hid).
Qed.

Lemma run_monotone_witness :
  exists st',
    run tie_fresh tie_calls = Some st'
    /\ candidateMap st' = candidateMap tie_fresh
    /\ (forall v, set_has (registered tie_fresh) v = true
                  -> set_has (registered st') v = true)
    /\ (forall v, set_has (voted tie_fresh) v = true -> set_has (voted st') v = true)
    /\ (forall id, In id (candidate_ids tie_candidates) ->
                   votes_for tie_fresh id <= votes_for st' id).
Proof.
  apply (run_monotone tie_candidates tie_fresh tie_calls).
  exists tie_fresh, []. split; reflexivity.
Defined.

(** X16.  Nobody votes twice: once [castVote] has taken a voter's ballot,
    then after any further calls whatsoever every [castVote] of that voter
    ends in the error handler, with "candidate_not_found" or
    "already_voted", and leaves the state as it was. *)
Theorem no_second_vote (candidates : value) (st st2 : election) (v : value)
        (k k' : string) (s s' : handler ballot) (e e' : handler string)
        (r : cast) (b : ballot) (cs : list call) :
  reachable candidates st ->
  castVote st v k s e = Some r ->
  invoked r = [SuccessCalled b] ->
  run (after r) cs = Some st2 ->
  exists r2 reason,
    castVote st2 v k' s' e' = Some r2
    /\ invoked r2 = [ErrorCalled reason]
    /\ returned r2 = or_noop e' reason
    /\ after r2 = st2
    /\ (reason = "candidate_not_found" \/ reason = "already_voted").
Proof.
  intros Hr Hcast Hinv Hrun.
  destruct (reachable_consistent _ _ Hr) as (Hc & _).
  destruct (castVote_spec st v k s e Hc) as (r0 & Hcast0 & Hc1 & _ & Hreg & Hcase).
  rewrite Hcast in Hcast0. injection Hcast0 as <-.
  destruct Hcase as [(Hin & _ & _ & _ & _ & Hv & _) | (reason & Hinv' & _)];
    [| rewrite Hinv in Hinv'; discriminate].
  assert (set_has (voted (after r)) v = true) as Hvoted.
  { rewrite Hv, set_has_app. cbn. rewrite same_value_zero_refl.
    now rewrite orb_true_r. }
  assert (set_has (registered (after r)) v = true) as Hregd by now rewrite Hreg.
  destruct (run_consistent cs _ _ Hc1 Hrun) as (Hc2 & _).
  destruct (run_monotone_consistent cs _ _ Hc1 Hrun) as (Hr2 & Hv2 & _).
  specialize (Hr2 v Hregd). specialize (Hv2 v Hvoted).
  destruct (castVote_spec st2 v k' s' e' Hc2) as (r2 & Hcast2 & _ & _ & _ & Hcase2).
  exists r2.
  destruct Hcase2 as [(_ & _ & Hno & _) | (reason & H1 & H2 & H3 & H4)];
    [congruence |].
  exists reason. split; [exact Hcast2 |]. split; [exact H1 |]. split; [exact H2 |].
  split; [exact H3 |].
  destruct H4 as [(Hno & _) | [(_ & _ & _ & ->) | (_ & _ & _ & ->)]]; auto.
  congruence.
Qed.

Lemma no_second_vote_witness :
  exists r2 reason,
    castVote village_spoiled (VStr "V1") "C1" (says "voted!") (says "error") = Some r2
    /\ invoked r2 = [ErrorCalled reason]
    /\ returned r2 = or_noop (says "error") reason
    /\ after r2 = village_spoiled
    /\ (reason = "candidate_not_found" \/ reason = "already_voted").
Proof.
  apply (no_second_vote village_candidates village_registered village_spoiled
           (VStr "V1") "constructor" "C1" (says "voted!") (says "voted!")
           (says "error") (says "error")
           (mkCast (VStr "voted!")
                   [SuccessCalled (mkBallot (VStr "V1") "constructor")] village_spoiled)
           (mkBallot (VStr "V1") "constructor") []).
  - exists village_fresh, [CallRegister (voter 4%N "V1" (Fin 25))].
    split; reflexivity.
  - reflexivity.
  - reflexivity.
  - reflexivity.
Defined.

Lemma filter_none {A} (P : A -> bool) (l : list A) :
  (forall x, In x l -> P x = false) -> filter P l = [].
Proof.
  induction l as [| x l IH]; intros H; simpl; [reflexivity |].
  rewrite (H x) by now left. apply IH. intros; apply H; now right.
Qed.

Lemma entries_split {A} (o : jsobj A) (before later : list string) (id : string) :
  keys o = before ++ id :: later ->
  exists b a l, o = b ++ (id, a) :: l /\ keys b = before /\ keys l = later.
Proof.
  unfold keys. intros H. apply map_eq_app in H.
  destruct H as (b & rest & -> & Hb & Hrest).
  apply map_eq_cons in Hrest. destruct Hrest as ([id' a] & l & -> & Hid & Hl).
  cbn in Hid. subst id'. now exists b, a, l.
Qed.

(** X17.  The winner heads the results: in every state of an election in
    which [getWinner] returns a candidate, the default [getResults]
    is not empty and its first line is the line of that candidate, with a
    positive number of votes that no other line exceeds. *)
Theorem winner_heads_results (candidates : value) (st : election) (c : props) :
  reachable candidates st ->
  getWinner st = Some (Some c) ->
  exists id rest,
    getResults st None = Some (line_of st (id, c) :: rest)
    /\ own_get (candidateMap st) id = Some c
    /\ 0 < votes_for st id
    /\ Forall (fun r => line_votes r <= votes_for st id) rest.
Proof.
  intros Hr Hw. destruct (reachable_consistent _ _ Hr) as (Hc & _).
  destruct (getWinner_consistent st Hc)
    as [(_ & Hw') | (before & id & later & c' & Hk & Hown & Hpos & Hb & Hl & Hw')];
    rewrite Hw in Hw'; [discriminate |].
  injection Hw' as <-.
  exists id. rewrite (getResults_default st Hc).
  destruct (entries_split _ _ _ _ Hk) as (b & a & l & Hcm & Hkb & Hkl).
  assert (a = c) as ->.
  { assert (In (id, a) (candidateMap st)) as Hin by (rewrite Hcm; apply in_elt).
    pose proof (own_get_NoDup _ _ _ (con_nodup st Hc) Hin). congruence. }
  set (m := votes_for st id) in *.
  set (P := fun r => Z.eqb (line_votes r) m).
  set (lines := map (line_of st) (candidateMap st)).
  assert (forall e, line_votes (line_of st e) = votes_for st (fst e)) as Hlv
      by reflexivity.
  assert (forall r, In r lines -> line_votes r <= m) as Hmax.
  { intros r Hin. apply in_map_iff in Hin. destruct Hin as ([x cx] & <- & Hin).
    rewrite Hlv. cbn [fst]. rewrite Hcm in Hin. apply in_app_or in Hin.
    destruct Hin as [Hin | [Hin | Hin]].
    - apply Z.lt_le_incl, Hb. rewrite <- Hkb. change x with (fst (x, cx)).
      now apply in_map.
    - injection Hin as <- _. apply Z.le_refl.
    - apply Hl. rewrite <- Hkl. change x with (fst (x, cx)). now apply in_map. }
  assert (filter P lines = line_of st (id, c) :: filter P (map (line_of st) l)) as Hf.
  { unfold lines. rewrite Hcm, map_app, filter_app. cbn [map filter].
    rewrite filter_none.
    - unfold P at 1. rewrite Hlv. cbn [fst]. fold m. now rewrite Z.eqb_refl.
    - intros r Hin. apply in_map_iff in Hin. destruct Hin as ([x cx] & <- & Hin).
      unfold P. rewrite Hlv. cbn [fst]. apply Z.eqb_neq.
      assert (votes_for st x < m); [| lia].
      apply Hb. rewrite <- Hkb. change x with (fst (x, cx)). now apply in_map. }
  assert (filter P (sort_by votes_desc lines) = filter P lines) as Hs.
  { apply sort_by_filter. intros x y Hx Hy. unfold P in Hx, Hy.
    apply Z.eqb_eq in Hx, Hy. rewrite votes_desc_after. apply Z.ltb_ge. lia. }
  assert (StronglySorted (in_order votes_desc) (sort_by votes_desc lines)) as Hsorted.
  { apply sort_by_sorted.
    - intros x y. rewrite !votes_desc_after. intros H. apply Z.ltb_lt in H.
      apply Z.ltb_ge. lia.
    - intros x y z. rewrite !votes_desc_after. intros H1 H2.
      apply Z.ltb_ge in H1, H2. apply Z.ltb_ge. lia. }
  pose proof (sort_by_perm votes_desc lines) as Hperm.
  destruct (sort_by votes_desc lines) as [| h t] eqn:Es.
  { rewrite Hf in Hs. discriminate. }
  inversion Hsorted as [| ? ? _ Hh]; subst.
  assert (forall r, In r t -> line_votes r <= line_votes h) as Hhead.
  { intros r Hin. pose proof (proj1 (Forall_forall _ _) Hh r Hin) as Ho.
    unfold in_order in Ho. rewrite votes_desc_after in Ho.
    now apply Z.ltb_ge in Ho. }
  assert (line_votes h = m) as Hhm.
  { assert (line_votes h <= m) by (apply Hmax, (Permutation_in _ Hperm); now left).
    assert (In (line_of st (id, c)) (h :: t)) as Hin.
    { apply (Permutation_in _ (Permutation_sym Hperm)).
      unfold lines. apply in_map. rewrite Hcm. apply in_elt. }
    destruct Hin as [Hin | Hin]; [now rewrite Hin |].
    specialize (Hhead _ Hin). rewrite Hlv in Hhead. cbn [fst] in Hhead. fold m in Hhead.
    lia. }
  cbn [filter] in Hs. unfold P at 1 in Hs. rewrite Hhm, Z.eqb_refl, Hf in Hs.
  injection Hs as -> _.
  exists t. split; [reflexivity |]. split; [exact Hown |]. split; [exact Hpos |].
  apply Forall_forall. intros r Hin. specialize (Hhead r Hin).
  rewrite Hlv in Hhead. exact Hhead.
Qed.

Lemma winner_heads_results_witness :
  exists id rest,
    getResults tie_state None
    = Some (line_of tie_state
              (id, [("id", VStr "1"); ("name", VStr "Sita"); ("party", VStr "Lok")])
            :: rest)
    /\ own_get (candidateMap tie_state) id
       = Some [("id", VStr "1"); ("name", VStr "Sita"); ("party", VStr "Lok")]
    /\ 0 < votes_for tie_state id
    /\ Forall (fun r => line_votes r <= votes_for tie_state id) rest.
Proof.
  apply (winner_heads_results tie_candidates tie_state).
  - exists tie_fresh, tie_calls. split; reflexivity.
  - reflexivity.
Defined.

End ElectionCalls.

(** ** The rest: ledger, validator, regions, tally *)

Section MoreFacts.
Import Election Validator Regions Tally.

Lemma election_invariants_witness :
  (forall v, set_has (voted tie_state) v = true -> set_has (registered tie_state) v = true)
  /\ is_set (voted tie_state)
  /\ (forall id, known tie_state id ->
                 exists n : nat, count_of tie_state id = VNum (Fin (Z.of_nat n)))
  /\ 0 <= total_votes tie_state <= Z.of_nat (List.length (voted tie_state))
  /\ (Forall (fun c => plain_call tie_fresh c = true) tie_calls ->
      total_votes tie_state = Z.of_nat (List.length (voted tie_state))).
Proof.
  apply (election_invariants tie_candidates tie_fresh tie_state tie_calls); reflexivity.
Defined.

Lemma createVoteValidator_spec_witness :
  createVoteValidator example_rules (example_voter (VNum (Fin 25)))
  = Some
      match find (fun f => negb (present [("id", VStr "V1"); ("name", VStr "Mohan");
                                          ("age", VNum (Fin 25))] f))
                 ["id"; "name"; "age"] with
      | Some f => mkVerdict false (String.append "missing_" f)
      | None =>
          match get_field (example_voter (VNum (Fin 25))) f_age with
          | VNum age =>
              if num_ltb age (Fin 18) then mkVerdict false "underage"
              else mkVerdict true ""
          | _ => mkVerdict false "underage"
          end
      end.
Proof.
  apply (createVoteValidator_spec example_rules 3%N
           [("id", VStr "V1"); ("name", VStr "Mohan"); ("age", VNum (Fin 25))]
           ["id"; "name"; "age"] (Fin 18)); reflexivity.
Defined.

Lemma check_required_sound (required : list value) (voter : value) :
  forall m, check_required required voter = Some m ->
  match m with
  | Some r =>
      exists k, In (VStr k) required /\ has_property voter k = Some false
                /\ r = String.append "missing_" k
  | None =>
      Forall (fun field => exists k, field = VStr k /\ has_property voter k = Some true)
             required
  end.
Proof.
  induction required as [| field rest IH]; intros m; simpl.
  - intros [= <-]. constructor.
  - destruct field as [| | | | k | | | | |]; simpl; try discriminate.
    destruct (has_property voter k) as [[|] |] eqn:E; simpl; try discriminate.
    + intros H. specialize (IH m H). destruct m as [r |].
      * destruct IH as (k' & Hin & Hk'). exists k'. split; [now right | exact Hk'].
      * constructor; [now exists k | exact IH].
    + intros [= <-]. exists k. split; [now left | auto].
Qed.

(** X20.  Whatever the rules and whatever the voter, a verdict of the
    validator is valid exactly when its reason is empty; the reason is
    "invalid_voter" exactly for what is not a non-null object; a valid
    verdict means every required field is in the voter and [age] is a
    number that is not below the minimal age; an invalid one carries
    "invalid_voter", "underage" or "missing_" with a required field that
    the voter lacks. *)
Theorem createVoteValidator_verdicts (rules voter : value) (v : verdict) :
  createVoteValidator rules voter = Some v ->
  (valid v = true <-> reason v = "")
  /\ (reason v = "invalid_voter" <-> truthy voter = false \/ typeof voter <> "object")
  /\ (valid v = true ->
      Forall (fun field => exists k, field = VStr k /\ has_property voter k = Some true)
             (required_of rules)
      /\ exists age, get_field voter f_age = VNum age
                     /\ js_lt (VNum age) (minAge_of rules) = Some false)
  /\ (valid v = false ->
      reason v = "invalid_voter" \/ reason v = "underage"
      \/ exists k, In (VStr k) (required_of rules)
                   /\ has_property voter k = Some false
                   /\ reason v = String.append "missing_" k).
Proof.
  unfold createVoteValidator.
  destruct (truthy voter) eqn:E1; cbn [negb orb].
  2:{ intros [= <-]. cbn. repeat split; auto; discriminate. }
  destruct (String.eqb_spec (typeof voter) "object") as [E2 | E2]; cbn [negb].
  2:{ intros [= <-]. cbn. repeat split; auto; discriminate. }
  assert (~ (true = false \/ typeof voter <> "object")) as Hobj
      by (intros [H | H]; [discriminate | contradiction]).
  destruct (check_required (required_of rules) voter) as [m |] eqn:Ec;
    [| discriminate].
  pose proof (check_required_sound _ _ _ Ec) as Hm.
  destruct m as [r |].
  { intros [= <-]. cbn [valid reason]. destruct Hm as (k & Hin & Hk & ->).
    split; [split; [discriminate | destruct k; discriminate] |].
    split; [split; [destruct k; discriminate | contradiction] |].
    split; [discriminate |]. intros _. right; right. now exists k. }
  destruct (get_field voter f_age) as [| | | age | | | | | |] eqn:E4;
    cbn [typeof negb String.eqb Ascii.eqb Bool.eqb];
    try (intros [= <-]; cbn [valid reason];
         split; [split; discriminate |];
         split; [split; [discriminate | contradiction] |];
         split; [discriminate | auto]).
  destruct (js_lt (VNum age) (minAge_of rules)) as [[|] |] eqn:E5;
    cbn; [| | discriminate]; intros [= <-]; cbn [valid reason].
  - split; [split; discriminate |].
    split; [split; [discriminate | contradiction] |].
    split; [discriminate | auto].
  - split; [split; reflexivity |].
    split; [split; [discriminate | contradiction] |].
    split; [| discriminate]. intros _. split; [exact Hm |]. now exists age.
Qed.

Lemma createVoteValidator_verdicts_witness :
  (valid (mkVerdict false "missing_name") = true
   <-> reason (mkVerdict false "missing_name") = "")
  /\ (reason (mkVerdict false "missing_name") = "invalid_voter"
      <-> truthy (VObj 3%N [("id", VStr "V1"); ("age", VNum (Fin 25))]) = false
          \/ typeof (VObj 3%N [("id", VStr "V1"); ("age", VNum (Fin 25))]) <> "object")
  /\ (valid (mkVerdict false "missing_name") = true ->
      Forall (fun field =>
                exists k, field = VStr k
                          /\ has_property (VObj 3%N [("id", VStr "V1");
                                                     ("age", VNum (Fin 25))]) k
                             = Some true)
             (required_of example_rules)
      /\ exists age,
          get_field (VObj 3%N [("id", VStr "V1"); ("age", VNum (Fin 25))]) f_age = VNum age
          /\ js_lt (VNum age) (minAge_of example_rules) = Some false)
  /\ (valid (mkVerdict false "missing_name") = false ->
      reason (mkVerdict false "missing_name") = "invalid_voter"
      \/ reason (mkVerdict false "missing_name") = "underage"
      \/ exists k, In (VStr k) (required_of example_rules)
                   /\ has_property (VObj 3%N [("id", VStr "V1");
                                              ("age", VNum (Fin 25))]) k = Some false
                   /\ reason (mkVerdict false "missing_name")
                      = String.append "missing_" k).
Proof.
  apply (createVoteValidator_verdicts example_rules
           (VObj 3%N [("id", VStr "V1"); ("age", VNum (Fin 25))])
           (mkVerdict false "missing_name")).
  reflexivity.
Defined.

Lemma region_induction (P : region -> Prop) :
  (forall r name_ votes_ subs, Forall P subs -> P (Region r name_ votes_ subs)) ->
  forall t, P t.
Proof.
  intros H. fix IH 1. intros [r name_ votes_ subs]. apply H.
  induction subs as [| t subs IHsubs]; constructor; [apply IH | exact IHsubs].
Qed.

Lemma region_total_bound (t : region) : Z.abs (region_total t) <= region_weight t.
Proof.
  induction t as [r name_ votes_ subs IH] using region_induction.
  cbn [region_total region_weight].
  assert (Z.abs (fold_right Z.add 0 (map region_total subs))
          <= fold_right Z.add 0 (map region_weight subs)); [| lia].
  induction IH as [| t subs Ht _ IHsubs]; cbn [map fold_right]; lia.
Qed.

(** The loop over the sub-regions, when every sum it forms stays within
    2^53. *)
Lemma loop_exact (subs : list region) :
  Forall (fun t => region_weight t <= two_53 ->
                   countVotesInRegions (region_value t) = Fin (region_total t)) subs ->
  forall total : Z,
    Z.abs total + fold_right Z.add 0 (map region_weight subs) <= two_53 ->
    fold_left (fun total sub => double_add total (countVotesInRegions sub))
              (map region_value subs) (Fin total)
    = Fin (total + fold_right Z.add 0 (map region_total subs)).
Proof.
  induction 1 as [| t subs Ht _ IH]; intros total Hb; cbn [map fold_left fold_right] in *.
  - now rewrite Z.add_0_r.
  - pose proof (region_total_bound t) as Hbt.
    assert (0 <= fold_right Z.add 0 (map region_weight subs)) as Hpos.
    { clear. induction subs as [| u subs IHs]; cbn [map fold_right]; [lia |].
      pose proof (region_total_bound u). lia. }
    rewrite Ht by lia.
    rewrite double_add_exact by lia.
    rewrite IH by lia. f_equal. lia.
Qed.

(** X21.  On a tree of regions, countVotesInRegions is the sum of the votes
    of all its nodes, provided the magnitudes of these votes sum to at most
    2^53, so that no sum on the way is rounded. *)
Theorem countVotesInRegions_total (t : region) :
  region_weight t <= two_53 ->
  countVotesInRegions (region_value t) = Fin (region_total t).
Proof.
  induction t as [r name_ votes_ subs IH] using region_induction.
  intros Hw. cbn [region_weight] in Hw.
  rewrite countVotesInRegions_unfold.
  change (countVotesInRegions_body countVotesInRegions
            (region_value (Region r name_ votes_ subs)))
    with (fold_left (fun total sub => double_add total (countVotesInRegions sub))
                    (map region_value subs) (Fin votes_)).
  rewrite (loop_exact subs IH votes_ Hw). reflexivity.
Qed.

Lemma countVotesInRegions_total_witness :
  countVotesInRegions
    (region_value (Region 1%N "Zila" 5 [Region 3%N "Gaon" 3 [];
                                        Region 5%N "Kasba" 2 [Region 7%N "Tola" 1 []]]))
  = Fin (region_total (Region 1%N "Zila" 5 [Region 3%N "Gaon" 3 [];
                                            Region 5%N "Kasba" 2 [Region 7%N "Tola" 1 []]])).
Proof.
  apply (countVotesInRegions_total
           (Region 1%N "Zila" 5 [Region 3%N "Gaon" 3 [];
                                 Region 5%N "Kasba" 2 [Region 7%N "Tola" 1 []]])).
  vm_compute. discriminate.
Defined.

Lemma forallb_replace_own {A} (Q : A -> bool) (k : string) (a : A) (o : jsobj A) :
  Q a = true -> forallb (fun kv => Q (snd kv)) o = true ->
  forallb (fun kv => Q (snd kv)) (replace_own k a o) = true.
Proof.
  intros Ha. induction o as [| [k' a'] o IH]; simpl; [auto |].
  intros H. apply andb_true_iff in H. destruct H as [H1 H2].
  destruct (String.eqb k k'); simpl.
  - now rewrite Ha, H2.
  - now rewrite H1, IH.
Qed.

Lemma forallb_insert_new {A} (Q : A -> bool) (k : string) (a : A) (o : jsobj A) :
  Q a = true -> forallb (fun kv => Q (snd kv)) o = true ->
  forallb (fun kv => Q (snd kv)) (insert_new k a o) = true.
Proof.
  intros Ha. induction o as [| [k' a'] o IH]; simpl; [now rewrite Ha |].
  intros H. destruct (key_before k k'); simpl.
  - now rewrite Ha, H.
  - apply andb_true_iff in H. destruct H as [H1 H2]. now rewrite H1, IH.
Qed.

Lemma tallyPure_form (r : ref) (ps : props) (c : string) :
  is_tally (VObj r ps) = true ->
  c <> "" ->
  (own_get ps c <> None \/ object_prototype c = None) ->
  count_in ps c < two_53 ->
  tallyPure (VObj r ps) (VStr c)
  = Some (match own_get ps c with
          | Some _ => replace_own c (VNum (Fin (count_in ps c + 1))) ps
          | None => insert_new c (VNum (Fin 1)) ps
          end)
  /\ 0 <= count_in ps c.
Proof.
  intros Ht Hc Hown Hbound. unfold tallyPure.
  change (truthy (VObj r ps)) with true.
  change (typeof (VObj r ps)) with "object".
  cbn [andb String.eqb Ascii.eqb Bool.eqb spread truthy to_property_key].
  apply String.eqb_neq in Hc. rewrite Hc. cbn [negb].
  unfold prop_get, obj_get, obj_set, count_in in *.
  destruct (own_get ps c) as [v |] eqn:E.
  - assert (is_count v = true) as Hv.
    { simpl in Ht. rewrite forallb_forall in Ht.
      exact (Ht (c, v) (own_get_Some_In _ _ _ E)). }
    destruct (is_count_number v Hv) as (z & -> & Hz).
    cbn [read_value].
    rewrite (count_up z Hz Hbound).
    split; [reflexivity | exact Hz].
  - destruct Hown as [H | H]; [congruence |]. rewrite H. cbn [read_value].
    assert (String.eqb c "__proto__" = false) as ->.
    { apply String.eqb_neq. intros ->. discriminate. }
    split; [reflexivity | apply Z.le_refl].
Qed.

Lemma tallyPure_keeps_tally (r r' : ref) (ps ps' : props) (c : string) :
  is_tally (VObj r ps) = true ->
  c <> "" ->
  (own_get ps c <> None \/ object_prototype c = None) ->
  count_in ps c < two_53 ->
  tallyPure (VObj r ps) (VStr c) = Some ps' ->
  is_tally (VObj r' ps') = true.
Proof.
  intros Ht Hc Hown Hbound H.
  destruct (tallyPure_form r ps c Ht Hc Hown Hbound) as (Hform & Hpos).
  rewrite Hform in H. injection H as <-. cbn [is_tally] in *.
  destruct (own_get ps c).
  - apply forallb_replace_own; [| exact Ht]. cbn. apply Z.leb_le. lia.
  - apply forallb_insert_new; [reflexivity | exact Ht].
Qed.

Lemma count_in_step (ps ps' : props) (c k : string) :
  own_get ps' c = Some (VNum (Fin (count_in ps c + 1))) ->
  (forall k', k' <> c -> own_get ps' k' = own_get ps k') ->
  count_in ps' k = count_in ps k + (if String.eqb c k then 1 else 0).
Proof.
  intros Hc Hother. destruct (String.eqb_spec c k) as [<- | Hne].
  - unfold count_in at 1. now rewrite Hc.
  - unfold count_in. rewrite Hother by congruence. lia.
Qed.

(** X22.  On a tally of counts, and an id that is in the tally or that is
    neither empty nor the name of a member of [Object.prototype], and whose
    count is below 2^53, [tallyPure] returns a tally of counts again, in
    which the id has one more than before (1 when it had none) and every
    other id exactly what it had. *)
Theorem tallyPure_counts (r : ref) (ps : props) (c : string) :
  is_tally (VObj r ps) = true ->
  c <> "" ->
  (own_get ps c <> None \/ object_prototype c = None) ->
  count_in ps c < two_53 ->
  exists ps',
    tallyPure (VObj r ps) (VStr c) = Some ps'
    /\ (forall r', is_tally (VObj r' ps') = true)
    /\ own_get ps' c = Some (VNum (Fin (count_in ps c + 1)))
    /\ (forall k, k <> c -> own_get ps' k = own_get ps k)
    /\ (forall k, count_in ps' k = count_in ps k + (if String.eqb c k then 1 else 0)).
Proof.
  intros Ht Hc Hown Hbound.
  destruct (tallyPure_spec r ps c Ht Hc Hown Hbound) as (ps' & H & H1 & H2).
  exists ps'. split; [exact H |].
  split; [intros r'; exact (tallyPure_keeps_tally r r' ps ps' c Ht Hc Hown Hbound H) |].
  split; [exact H1 |]. split; [exact H2 |].
  intros k. now apply count_in_step.
Qed.

Lemma tallyPure_counts_witness :
  exists ps',
    tallyPure example_tally (VStr "cand3") = Some ps'
    /\ (forall r', is_tally (VObj r' ps') = true)
    /\ own_get ps' "cand3"
       = Some (VNum (Fin (count_in [("cand1", VNum (Fin 5)); ("cand2", VNum (Fin 3))]
                                   "cand3" + 1)))
    /\ (forall k, k <> "cand3" ->
                  own_get ps' k
                  = own_get [("cand1", VNum (Fin 5)); ("cand2", VNum (Fin 3))] k)
    /\ (forall k, count_in ps' k
                  = count_in [("cand1", VNum (Fin 5)); ("cand2", VNum (Fin 3))] k
                    + (if String.eqb "cand3" k then 1 else 0)).
Proof.
  apply (tallyPure_counts 1%N [("cand1", VNum (Fin 5)); ("cand2", VNum (Fin 3))] "cand3").
  - reflexivity.
  - discriminate.
  - right. reflexivity.
  - reflexivity.
Defined.

(** At 2^53 a count stays where it is: the next vote is lost in the
    rounding. *)
Example tallyPure_saturates :
  tallyPure (VObj 1%N [("cand1", VNum (Fin two_53))]) (VStr "cand1")
  = Some [("cand1", VNum (Fin two_53))].
Proof. vm_compute. reflexivity. Qed.

Lemma ordinary_spec (id : string) :
  ordinary id = true -> id <> "" /\ object_prototype id = None.
Proof.
  unfold ordinary. intros H. apply andb_true_iff in H. destruct H as [H1 H2].
  apply negb_true_iff in H1, H2. split; [now apply String.eqb_neq |].
  now destruct (object_prototype id).
Qed.

(** X23.  Tallying votes one after the other, each call of [tallyPure] on
    what the call before returned, counts them: for ids that are neither
    empty nor names of members of [Object.prototype], and as long as no
    count passes 2^53, the outcome is a tally of counts in which every id
    has what it had at the start plus the number of times it occurs among
    the votes. *)
Theorem tally_votes_counts (ids : list string) :
  forall tally : props,
    is_tally (VObj 0%N tally) = true ->
    forallb ordinary ids = true ->
    (forall k, count_in tally k + Z.of_nat (count_occ string_dec ids k) <= two_53) ->
    exists tally',
      tally_votes tally ids = Some tally'
      /\ is_tally (VObj 0%N tally') = true
      /\ forall k, count_in tally' k
                   = count_in tally k + Z.of_nat (count_occ string_dec ids k).
Proof.
  induction ids as [| id ids IH]; intros tally Ht Hids Hbound.
  - exists tally. split; [reflexivity |]. split; [exact Ht |]. intros k. cbn. lia.
  - cbn [forallb] in Hids. apply andb_true_iff in Hids. destruct Hids as [Hid Hids].
    destruct (ordinary_spec id Hid) as (Hne & Hproto).
    assert (count_in tally id < two_53) as Hb.
    { specialize (Hbound id). cbn [count_occ] in Hbound.
      destruct (string_dec id id); [lia | contradiction]. }
    destruct (tallyPure_spec 0%N tally id Ht Hne (or_intror Hproto) Hb)
      as (t1 & H & H1 & H2).
    pose proof (tallyPure_keeps_tally 0%N 0%N tally t1 id Ht Hne (or_intror Hproto) Hb H)
      as Ht1.
    assert (forall k, count_in t1 k + Z.of_nat (count_occ string_dec ids k) <= two_53)
      as Hbound1.
    { intros k. rewrite (count_in_step tally t1 id k H1 H2).
      specialize (Hbound k). cbn [count_occ] in Hbound.
      destruct (string_dec id k) as [-> | Hne'].
      - rewrite String.eqb_refl. lia.
      - apply String.eqb_neq in Hne'. rewrite Hne'. lia. }
    destruct (IH t1 Ht1 Hids Hbound1) as (t' & Hrun & Ht' & Hcount).
    exists t'. cbn [tally_votes]. rewrite H.
    split; [exact Hrun |]. split; [exact Ht' |].
    intros k. rewrite Hcount, (count_in_step tally t1 id k H1 H2).
    cbn [count_occ]. destruct (string_dec id k) as [-> | Hne'].
    + rewrite String.eqb_refl. lia.
    + apply String.eqb_neq in Hne'. rewrite Hne'. lia.
Qed.

Lemma tally_votes_counts_witness :
  exists tally',
    tally_votes [] ["cand1"; "cand2"; "cand1"] = Some tally'
    /\ is_tally (VObj 0%N tally') = true
    /\ forall k, count_in tally' k
                 = count_in [] k
                   + Z.of_nat (count_occ string_dec ["cand1"; "cand2"; "cand1"] k).
Proof.
  apply (tally_votes_counts ["cand1"; "cand2"; "cand1"] []); try reflexivity.
  intros k. assert (count_in [] k = 0) as -> by reflexivity.
  assert (count_occ string_dec ["cand1"; "cand2"; "cand1"] k <= 3)%nat as H.
  { cbn [count_occ]. repeat destruct (string_dec _ k); lia. }
  unfold two_53. lia.
Defined.

(** ** The counts of an election under the sum of the machine *)

Lemma term_le_sum (f : string -> Z) (k : string) (ks : list string) :
  (forall x, In x ks -> 0 <= f x) -> In k ks ->
  f k <= fold_right Z.add 0 (map f ks).
Proof.
  induction ks as [| x ks IH]; intros Hpos Hin; [contradiction |].
  cbn [map fold_right].
  assert (0 <= fold_right Z.add 0 (map f ks)) as Hsum.
  { clear - Hpos. induction ks as [| y ks IHs]; cbn [map fold_right]; [lia |].
    assert (0 <= f y) by (apply Hpos; right; now left).
    assert (0 <= fold_right Z.add 0 (map f ks)); [| lia].
    apply IHs. intros z [Hz | Hz]; apply Hpos; [now left | right; now right]. }
  assert (0 <= f x) by (apply Hpos; now left).
  destruct Hin as [-> | Hin]; [lia |].
  assert (f k <= fold_right Z.add 0 (map f ks)); [| lia].
  apply IH; [| exact Hin]. intros; apply Hpos; now right.
Qed.

(** As long as fewer than 2^53 voters have voted, the sum that [castVote]
    forms on the count of a candidate is not rounded: on the counts of an
    election the sum of the integers is the sum of the machine. *)
Lemma castVote_sum_not_rounded (candidates : value) (st0 st : election)
      (cs : list call) (k : string) :
  createElection candidates = Some st0 ->
  run st0 cs = Some st ->
  Z.of_nat (List.length (voted st)) < two_53 ->
  known st k ->
  js_add_double (js_or (count_of st k) (VNum (Fin 0))) (VNum (Fin 1))
  = js_add (js_or (count_of st k) (VNum (Fin 0))) (VNum (Fin 1)).
Proof.
  intros H0 Hrun Hlen Hk.
  pose proof (createElection_consistent _ _ H0) as Hc0.
  destruct (createElection_built _ _ H0) as (_ & _ & Hv0).
  destruct (run_consistent cs _ _ Hc0 Hrun) as (Hc & _).
  assert (is_set (voted st0)) as Hs0 by (rewrite Hv0; constructor).
  destruct (run_ledger cs _ _ Hc0 Hs0 Hrun) as (_ & Hle & _).
  rewrite (total_votes_fresh _ _ H0), Hv0 in Hle. cbn [List.length] in Hle.
  assert (cell_number (count_of st k) <= total_votes st) as Hterm.
  { unfold total_votes.
    apply (term_le_sum (fun id => cell_number (count_of st id))); [| exact Hk].
    intros x Hx. destruct (known_count st x Hc Hx) as (n & ->). cbn. lia. }
  destruct (known_count st k Hc Hk) as (n & Hn). rewrite Hn in *.
  cbn [cell_number] in Hterm.
  rewrite count_up by lia.
  destruct (bump_count (VNum (Fin (Z.of_nat n)))) as (-> & _); [now exists n |].
  reflexivity.
Qed.

End MoreFacts.
